(** * Text fidelity checker: fetch, normalise, compare, record

    A shallow embedding of [app.py]: the fetch wrapper
    [extract_text_from_url] with its retry decorator, the comparator
    [compare_texts] (with the [difflib.SequenceMatcher] ratio it calls),
    the verdict banding of [generate_ai_analysis], and the batch driver
    [main].

    Conventions.
    - A Python [str] is a sequence of Unicode code points: [list N].
    - Python floats are idealised as exact rationals ([Q]).
    - Effects (HTTP GETs, sleeps, log lines, hand-off to reporting, appends
      to [results]) are threaded through an explicit run state. *)

From Stdlib Require Import List NArith ZArith QArith Bool Arith Lia.
Import ListNotations.

Set Implicit Arguments.
Close Scope Q_scope.
Open Scope nat_scope.

(** ** Python strings *)

Definition str := list N.

Definition str_eq_dec : forall a b : str, {a = b} + {a <> b} :=
  list_eq_dec N.eq_dec.

Definition str_eqb (a b : str) : bool :=
  if str_eq_dec a b then true else false.

Module Str.

(** Code points for which [str.isspace], [str.strip] and the regular
    expression class [\s] agree on "whitespace". *)
Definition isspace (c : N) : bool :=
  (((9 <=? c) && (c <=? 13)) || ((28 <=? c) && (c <=? 32))
   || (c =? 133) || (c =? 160) || (c =? 5760)
   || ((8192 <=? c) && (c <=? 8202)) || (c =? 8232) || (c =? 8233)
   || (c =? 8239) || (c =? 8287) || (c =? 12288))%N.

Definition SPACE : N := 32.
Definition NEWLINE : N := 10.

Fixpoint dropWhile (p : N -> bool) (s : str) : str :=
  match s with
  | [] => []
  | c :: r => if p c then dropWhile p r else s
  end.

Definition lstrip (s : str) : str := dropWhile isspace s.
Definition rstrip (s : str) : str := rev (dropWhile isspace (rev s)).

(** [s.strip()] *)
Definition strip (s : str) : str := rstrip (lstrip s).

(** [s.startswith(p)] *)
Fixpoint startswith (p s : str) : bool :=
  match p, s with
  | [], _ => true
  | _ :: _, [] => false
  | x :: p', y :: s' => (x =? y)%N && startswith p' s'
  end.

(** [p in s]: substring containment. *)
Fixpoint contains (p s : str) : bool :=
  startswith p s ||
  match s with
  | [] => false
  | _ :: s' => contains p s'
  end.

(** [s.split(sep)] for a one-character separator: [cur] holds the
    (reversed) piece being read. *)
Fixpoint split_aux (sep : N) (cur : str) (s : str) : list str :=
  match s with
  | [] => [rev cur]
  | c :: r => if (c =? sep)%N then rev cur :: split_aux sep [] r
              else split_aux sep (c :: cur) r
  end.

Definition split (sep : N) (s : str) : list str := split_aux sep [] s.

(** [sep.join(parts)] *)
Fixpoint join (sep : str) (parts : list str) : str :=
  match parts with
  | [] => []
  | [p] => p
  | p :: rest => p ++ sep ++ join sep rest
  end.

(** [re.sub(r'\s+', ' ', s)]: every maximal run of whitespace becomes one
    space.  [in_run] records that the previous character was whitespace. *)
Fixpoint sub_ws_aux (in_run : bool) (s : str) : str :=
  match s with
  | [] => []
  | c :: r =>
      if isspace c
      then (if in_run then sub_ws_aux true r else SPACE :: sub_ws_aux true r)
      else c :: sub_ws_aux false r
  end.

Definition sub_ws (s : str) : str := sub_ws_aux false s.

(** [re.sub(r'\n{2,}', '\n\n', s)]: a run of two or more newlines becomes
    exactly two.  [run] counts the newlines already seen in the current
    run, saturating at 2. *)
Fixpoint sub_nl_aux (run : nat) (s : str) : str :=
  match s with
  | [] => []
  | c :: r =>
      if (c =? NEWLINE)%N
      then match run with
           | 0 => NEWLINE :: sub_nl_aux 1 r
           | 1 => NEWLINE :: sub_nl_aux 2 r
           | _ => sub_nl_aux 2 r
           end
      else c :: sub_nl_aux 0 r
  end.

Definition sub_nl (s : str) : str := sub_nl_aux 0 s.

(** No white space at the start, respectively at the end. *)
Definition head_ok (s : str) : Prop :=
  match s with [] => True | c :: _ => isspace c = false end.

Definition last_ok (s : str) : Prop := head_ok (rev s).

End Str.

(** ** The comparator's inner [normalize] *)

(** The lower-case mapping of one code point of a string, given what
    stands before and after it: [str.lower] maps most code points on their
    own (some to several code points) and a capital sigma by its place in
    the word. *)
Definition lowering : Type := str -> N -> str -> str.

Section Normalize.

Variable lower_at : lowering.

Fixpoint lower_from (before s : str) : str :=
  match s with
  | [] => []
  | c :: after => lower_at before c after ++ lower_from (before ++ [c]) after
  end.

(** [s.lower()] *)
Definition lower (s : str) : str := lower_from [] s.

(** [re.sub(r'\s+', ' ', text.strip().lower())] *)
Definition normalize (text : str) : str :=
  Str.sub_ws (lower (Str.strip text)).

(** A code point that lower-casing leaves alone wherever it stands. *)
Definition stable (d : N) : Prop :=
  forall before after, lower_at before d after = [d].

End Normalize.

(** Lower-casing restricted to ASCII: the instance used for concrete
    runs. *)
Definition ascii_lower : lowering :=
  fun _ c _ => if ((65 <=? c) && (c <=? 90))%N then [(c + 32)%N] else [c].

(** ** [difflib.SequenceMatcher(None, a, b).ratio()]

    The matcher is used with [isjunk = None] and the default
    [autojunk = True]: the junk set is empty, and for [b] of 200 or more
    characters the "popular" characters are left out of the index [b2j]. *)

Module Difflib.

Record Match := mkMatch { m_a : nat; m_b : nat; m_size : nat }.

(** A Python [dict] from positions of [b] to run lengths. *)
Definition dict := list (nat * nat).

(** [d.get(key, 0)] *)
Fixpoint get (d : dict) (key : nat) : nat :=
  match d with
  | [] => 0
  | (k, v) :: d' => if k =? key then v else get d' key
  end.

(** [j2len.get(j-1, 0)]: for [j = 0] the key is [-1], never present. *)
Definition get_pred (d : dict) (j : nat) : nat :=
  match j with
  | 0 => 0
  | S j' => get d j'
  end.

Fixpoint indices_from (c : N) (j : nat) (s : str) : list nat :=
  match s with
  | [] => []
  | x :: r => if (x =? c)%N then j :: indices_from c (S j) r
              else indices_from c (S j) r
  end.

Section Matcher.

Variables a b : str.

Definition at_a (i : nat) : N := nth i a 0%N.
Definition at_b (j : nat) : N := nth j b 0%N.

(** [__chain_b]: a character is popular when [b] has at least 200
    characters and more than [n // 100 + 1] of them are that one. *)
Definition popular (c : N) : bool :=
  (200 <=? length b) &&
  (length b / 100 + 1 <? count_occ N.eq_dec b c).

(** [b2j.get(c, [])]: the positions of [c] in [b], increasing. *)
Definition b2j (c : N) : list nat :=
  if popular c then [] else indices_from c 0 b.

(** The inner [for j in b2j.get(a[i], nothing)] of [find_longest_match]. *)
Fixpoint scan_row (blo bhi i : nat) (j2len : dict) (js : list nat)
         (newj2len : dict) (best : Match) : dict * Match :=
  match js with
  | [] => (newj2len, best)
  | j :: js' =>
      if j <? blo then scan_row blo bhi i j2len js' newj2len best
      else if bhi <=? j then (newj2len, best)
      else
        let k := get_pred j2len j + 1 in
        let best' := if m_size best <? k
                     then mkMatch (i + 1 - k) (j + 1 - k) k
                     else best in
        scan_row blo bhi i j2len js' ((j, k) :: newj2len) best'
  end.

(** The outer [for i in range(alo, ahi)]. *)
Fixpoint scan_rows (blo bhi : nat) (idxs : list nat) (j2len : dict)
         (best : Match) : Match :=
  match idxs with
  | [] => best
  | i :: idxs' =>
      let '(newj2len, best') :=
        scan_row blo bhi i j2len (b2j (at_a i)) [] best in
      scan_rows blo bhi idxs' newj2len best'
  end.

(** First [while]: extend the match to the left over equal characters
    (no character is junk). *)
Fixpoint extend_left (alo blo besti bestj bestsize : nat) : Match :=
  match besti, bestj with
  | S i', S j' =>
      if (alo <? besti) && (blo <? bestj) && (at_a i' =? at_b j')%N
      then extend_left alo blo i' j' (S bestsize)
      else mkMatch besti bestj bestsize
  | _, _ => mkMatch besti bestj bestsize
  end.

(** Second [while]: extend to the right.  The guard
    [besti + bestsize < ahi] fails after at most
    [ahi - (besti + bestsize)] rounds, which is the [fuel] given. *)
Fixpoint extend_right (fuel ahi bhi besti bestj bestsize : nat) : Match :=
  match fuel with
  | 0 => mkMatch besti bestj bestsize
  | S fuel' =>
      if (besti + bestsize <? ahi) && (bestj + bestsize <? bhi)
         && (at_a (besti + bestsize) =? at_b (bestj + bestsize))%N
      then extend_right fuel' ahi bhi besti bestj (S bestsize)
      else mkMatch besti bestj bestsize
  end.

(** [find_longest_match(alo, ahi, blo, bhi)].  The last two [while]
    loops of the source only absorb junk and never run here. *)
Definition find_longest_match (alo ahi blo bhi : nat) : Match :=
  let m0 := scan_rows blo bhi (seq alo (ahi - alo)) []
                      (mkMatch alo blo 0) in
  let m1 := extend_left alo blo (m_a m0) (m_b m0) (m_size m0) in
  extend_right (ahi - (m_a m1 + m_size m1)) ahi bhi
               (m_a m1) (m_b m1) (m_size m1).

(** The work list of [get_matching_blocks]: [queue.pop()] takes the
    last pushed range, so the list head is the top of the stack.
    [None] means the fuel ran out before the queue was empty. *)
Fixpoint blocks_loop (fuel : nat) (queue : list (nat * nat * nat * nat))
         (matching_blocks : list Match) : option (list Match) :=
  match queue with
  | [] => Some matching_blocks
  | (alo, ahi, blo, bhi) :: queue' =>
      match fuel with
      | 0 => None
      | S fuel' =>
          let x := find_longest_match alo ahi blo bhi in
          let '(i, j, k) := (m_a x, m_b x, m_size x) in
          if k =? 0 then blocks_loop fuel' queue' matching_blocks
          else
            let q1 := if (alo <? i) && (blo <? j)
                      then (alo, i, blo, j) :: queue' else queue' in
            let q2 := if (i + k <? ahi) && (j + k <? bhi)
                      then (i + k, ahi, j + k, bhi) :: q1 else q1 in
            blocks_loop fuel' q2 (matching_blocks ++ [x])
      end
  end.

End Matcher.

(** Tuple order used by [matching_blocks.sort()]. *)
Definition match_leb (x y : Match) : bool :=
  (m_a x <? m_a y) ||
  ((m_a x =? m_a y) &&
   ((m_b x <? m_b y) || ((m_b x =? m_b y) && (m_size x <=? m_size y)))).

Fixpoint insert_sorted (x : Match) (l : list Match) : list Match :=
  match l with
  | [] => [x]
  | y :: l' => if match_leb x y then x :: l else y :: insert_sorted x l'
  end.

Definition sort (l : list Match) : list Match :=
  fold_right insert_sorted [] l.

(** The pass that merges adjacent blocks; [(i1, j1, k1)] is the block
    being grown. *)
Fixpoint collapse (i1 j1 k1 : nat) (blocks : list Match) : list Match :=
  match blocks with
  | [] => if k1 =? 0 then [] else [mkMatch i1 j1 k1]
  | x :: rest =>
      if (i1 + k1 =? m_a x) && (j1 + k1 =? m_b x)
      then collapse i1 j1 (k1 + m_size x) rest
      else (if k1 =? 0 then [] else [mkMatch i1 j1 k1])
             ++ collapse (m_a x) (m_b x) (m_size x) rest
  end.

(** Work left in a queue: a range of width [n] in [a] costs at most
    [2 * n + 1] rounds. *)
Definition queue_weight (queue : list (nat * nat * nat * nat)) : nat :=
  fold_right (fun '(alo, ahi, _, _) acc => 2 * (ahi - alo) + 1 + acc)
             0 queue.

Definition range_ok (r : nat * nat * nat * nat) : Prop :=
  let '(alo, ahi, _, _) := r in alo <= ahi.

(** [get_matching_blocks()].  Every range put on the queue is strictly
    narrower in [a] than the one it came from, so [2 * len(a) + 1]
    rounds empty the queue (see [blocks_loop_total]). *)
Definition get_matching_blocks (a b : str) : option (list Match) :=
  match blocks_loop a b (2 * length a + 1)
                    [(0, length a, 0, length b)] [] with
  | None => None
  | Some blocks =>
      Some (collapse 0 0 0 (sort blocks)
              ++ [mkMatch (length a) (length b) 0])
  end.

(** [sum(triple[-1] for triple in self.get_matching_blocks())] *)
Definition matches (a b : str) : nat :=
  match get_matching_blocks a b with
  | None => 0
  | Some blocks => fold_right (fun x acc => m_size x + acc) 0 blocks
  end.

(** [_calculate_ratio(matches, length)] *)
Definition calculate_ratio (matches length : nat) : Q :=
  if length =? 0 then 1%Q
  else (2 * inject_Z (Z.of_nat matches) / inject_Z (Z.of_nat length))%Q.

(** [ratio()] *)
Definition ratio (a b : str) : Q :=
  calculate_ratio (matches a b) (length a + length b).

End Difflib.

(** [round(x, 2)] on the idealised float: nearest multiple of 1/100, ties
    to even, given as a fraction over 100. *)
Definition round_half_even (x : Q) : Z :=
  let n := Qnum x in
  let d := Z.pos (Qden x) in
  let q := (n / d)%Z in
  let r := (n mod d)%Z in
  match (2 * r ?= d)%Z with
  | Lt => q
  | Gt => (q + 1)%Z
  | Eq => if Z.even q then q else (q + 1)%Z
  end.

Definition round2 (x : Q) : Q := Qmake (round_half_even (x * 100)%Q) 100.

(** ** [compare_texts] *)

Record comparison := mkComparison {
  similarity : Q;
  original_length : nat;
  lib_length : nat;
  missing_lines_count : nat;
  extra_lines_count : nat;
  example_missing : list str;
  example_extra : list str
}.

Definition is_empty (s : str) : bool :=
  match s with [] => true | _ => false end.

Section Compare.

Variable lower_at : lowering.

(** [list(set(xs))]: the elements of [xs] in the iteration order of the
    hash set built from them. *)
Variable set_list : list str -> list str.

(** [[line.strip() for line in text.split('\n') if line.strip()]] *)
Definition content_lines (text : str) : list str :=
  map Str.strip
      (filter (fun line => negb (is_empty (Str.strip line)))
              (Str.split Str.NEWLINE text)).

(** [[line for line in lines if normalize(line) not in normalize(other)]] *)
Definition absent_lines (lines : list str) (other : str) : list str :=
  filter (fun line => negb (Str.contains (normalize lower_at line)
                                         (normalize lower_at other)))
         lines.

Definition missing (original_text lib_text : str) : list str :=
  absent_lines (content_lines original_text) lib_text.

Definition extra (original_text lib_text : str) : list str :=
  absent_lines (content_lines lib_text) original_text.

(** [matcher.ratio() * 100] *)
Definition similarity_percent (original_text lib_text : str) : Q :=
  (Difflib.ratio (normalize lower_at original_text)
                 (normalize lower_at lib_text) * 100)%Q.

Definition compare_texts (original_text lib_text : str) : comparison :=
  {| similarity := round2 (similarity_percent original_text lib_text);
     original_length := length original_text;
     lib_length := length lib_text;
     missing_lines_count := length (missing original_text lib_text);
     extra_lines_count := length (extra original_text lib_text);
     example_missing := firstn 3 (set_list (missing original_text lib_text));
     example_extra := firstn 3 (set_list (extra original_text lib_text)) |}.

End Compare.

(** An iteration order for [list(set(xs))]: first occurrences, in order. *)
Fixpoint first_occurrences (xs : list str) : list str :=
  match xs with
  | [] => []
  | x :: r => x :: filter (fun y => negb (str_eqb x y)) (first_occurrences r)
  end.

(** ** [generate_ai_analysis] *)

(** The entries appended to the list [analysis], by kind; [render] below
    gives the string of each. *)
Inductive analysis_line :=
| HighSimilarity        (* "... (более 80%) ..." : more than 80% *)
| ModerateSimilarity    (* "... (50-80%) ..." *)
| LowSimilarity         (* "... (менее 50%) ..." : less than 50% *)
| MissingCount (n : nat)
| MissingHeading
| ExtraCount (n : nat)
| ExtraHeading
| ExampleLine (text : str) (ellipsis : bool)
| ConclusionHeading
| MostlyMissing
| MostlyExtra
| BothKinds.

Definition Qgtb (x y : Q) : bool := negb (Qle_bool x y).

(** The first [if]/[elif]/[else] of [generate_ai_analysis]. *)
Definition similarity_verdict (s : Q) : analysis_line :=
  if Qgtb s 80 then HighSimilarity
  else if Qgtb s 50 then ModerateSimilarity
  else LowSimilarity.

(** Lines 102-103 and 110-111: the entries for the first three
    examples. *)
Definition example_lines (examples : list str) : list analysis_line :=
  map (fun example => ExampleLine (firstn 150 example)
                                  (150 <? length example))
      (firstn 3 examples).

(** Lines 86-120: the list [analysis] when the function returns. *)
Definition analysis (c : comparison) : list analysis_line :=
  [similarity_verdict (similarity c)]
  ++ (if 0 <? missing_lines_count c
      then [MissingCount (missing_lines_count c); MissingHeading]
             ++ example_lines (example_missing c)
      else [])
  ++ (if 0 <? extra_lines_count c
      then [ExtraCount (extra_lines_count c); ExtraHeading]
             ++ example_lines (example_extra c)
      else [])
  ++ [ConclusionHeading]
  ++ [if extra_lines_count c <? missing_lines_count c then MostlyMissing
      else if missing_lines_count c <? extra_lines_count c then MostlyExtra
      else BothKinds].

(** Line 91. *)
Definition HIGH_SIMILARITY_TEXT : str :=
  [9989; 32; 1058; 1077; 1082; 1089; 1090; 1099; 32; 1080; 1084; 1077;
   1102; 1090; 32; 1074; 1099; 1089; 1086; 1082; 1086; 1077; 32; 1089;
   1093; 1086; 1076; 1089; 1090; 1074; 1086; 32; 40; 1073; 1086; 1083;
   1077; 1077; 32; 56; 48; 37; 41; 46; 32; 1054; 1089; 1085; 1086; 1074;
   1085; 1086; 1077; 32; 1089; 1086; 1076; 1077; 1088; 1078; 1072; 1085;
   1080; 1077; 32; 1089; 1086; 1093; 1088; 1072; 1085; 1077; 1085; 1086;
   46]%N.

(** Line 93. *)
Definition MODERATE_SIMILARITY_TEXT : str :=
  [9888; 65039; 32; 1058; 1077; 1082; 1089; 1090; 1099; 32; 1080; 1084;
   1077; 1102; 1090; 32; 1091; 1084; 1077; 1088; 1077; 1085; 1085; 1086;
   1077; 32; 1089; 1093; 1086; 1076; 1089; 1090; 1074; 1086; 32; 40; 53;
   48; 45; 56; 48; 37; 41; 46; 32; 1048; 1084; 1077; 1102; 1090; 1089;
   1103; 32; 1089; 1091; 1097; 1077; 1089; 1090; 1074; 1077; 1085; 1085;
   1099; 1077; 32; 1088; 1072; 1089; 1093; 1086; 1078; 1076; 1077; 1085;
   1080; 1103; 46]%N.

(** Line 95. *)
Definition LOW_SIMILARITY_TEXT : str :=
  [10060; 32; 1058; 1077; 1082; 1089; 1090; 1099; 32; 1080; 1084; 1077;
   1102; 1090; 32; 1085; 1080; 1079; 1082; 1086; 1077; 32; 1089; 1093;
   1086; 1076; 1089; 1090; 1074; 1086; 32; 40; 1084; 1077; 1085; 1077;
   1077; 32; 53; 48; 37; 41; 46; 32; 1050; 1086; 1085; 1090; 1077; 1085;
   1090; 32; 1079; 1085; 1072; 1095; 1080; 1090; 1077; 1083; 1100; 1085;
   1086; 32; 1086; 1090; 1083; 1080; 1095; 1072; 1077; 1090; 1089; 1103;
   46]%N.

(** Line 100, after the newline that opens the literal. *)
Definition MISSING_COUNT_TEXT : str :=
  [128269; 32; 1055; 1088; 1086; 1087; 1091; 1097; 1077; 1085; 1086; 32;
   1089; 1090; 1088; 1086; 1082; 58; 32]%N.

(** Line 101. *)
Definition MISSING_HEADING_TEXT : str :=
  [1053; 1072; 1080; 1073; 1086; 1083; 1077; 1077; 32; 1079; 1085; 1072;
   1095; 1080; 1084; 1099; 1077; 32; 1087; 1088; 1086; 1087; 1091; 1089;
   1082; 1080; 58]%N.

(** Line 108, after the newline that opens the literal. *)
Definition EXTRA_COUNT_TEXT : str :=
  [128269; 32; 1044; 1086; 1073; 1072; 1074; 1083; 1077; 1085; 1086; 32;
   1089; 1090; 1088; 1086; 1082; 58; 32]%N.

(** Line 109. *)
Definition EXTRA_HEADING_TEXT : str :=
  [1053; 1072; 1080; 1073; 1086; 1083; 1077; 1077; 32; 1079; 1085; 1072;
   1095; 1080; 1084; 1099; 1077; 32; 1076; 1086; 1073; 1072; 1074; 1083;
   1077; 1085; 1080; 1103; 58]%N.

(** Line 114, after the newline that opens the literal. *)
Definition CONCLUSION_HEADING_TEXT : str :=
  [128204; 32; 1042; 1099; 1074; 1086; 1076; 58]%N.

(** Line 116. *)
Definition MOSTLY_MISSING_TEXT : str :=
  [1054; 1089; 1085; 1086; 1074; 1085; 1086; 1077; 32; 1088; 1072; 1089;
   1093; 1086; 1078; 1076; 1077; 1085; 1080; 1077; 32; 45; 32; 1087; 1088;
   1086; 1087; 1091; 1089; 1082; 32; 1079; 1085; 1072; 1095; 1080; 1090;
   1077; 1083; 1100; 1085; 1099; 1093; 32; 1095; 1072; 1089; 1090; 1077;
   1081; 32; 1086; 1088; 1080; 1075; 1080; 1085; 1072; 1083; 1100; 1085;
   1086; 1075; 1086; 32; 1090; 1077; 1082; 1089; 1090; 1072; 46]%N.

(** Line 118. *)
Definition MOSTLY_EXTRA_TEXT : str :=
  [1054; 1089; 1085; 1086; 1074; 1085; 1086; 1077; 32; 1088; 1072; 1089;
   1093; 1086; 1078; 1076; 1077; 1085; 1080; 1077; 32; 45; 32; 1076; 1086;
   1073; 1072; 1074; 1083; 1077; 1085; 1080; 1077; 32; 1085; 1086; 1074;
   1086; 1075; 1086; 32; 1082; 1086; 1085; 1090; 1077; 1085; 1090; 1072;
   44; 32; 1086; 1090; 1089; 1091; 1090; 1089; 1090; 1074; 1091; 1102;
   1097; 1077; 1075; 1086; 32; 1074; 32; 1086; 1088; 1080; 1075; 1080;
   1085; 1072; 1083; 1077; 46]%N.

(** Line 120. *)
Definition BOTH_KINDS_TEXT : str :=
  [1056; 1072; 1089; 1093; 1086; 1078; 1076; 1077; 1085; 1080; 1103; 32;
   1074; 1082; 1083; 1102; 1095; 1072; 1102; 1090; 32; 1082; 1072; 1082;
   32; 1087; 1088; 1086; 1087; 1091; 1089; 1082; 1080; 44; 32; 1090; 1072;
   1082; 32; 1080; 32; 1076; 1086; 1073; 1072; 1074; 1083; 1077; 1085;
   1080; 1103; 32; 1082; 1086; 1085; 1090; 1077; 1085; 1090; 1072; 46]%N.

(** The opening of an example line. *)
Definition DASH : str :=
  [45; 32]%N.

(** The mark of a shortened example. *)
Definition ELLIPSIS : str :=
  [46; 46; 46]%N.

(** [str(n)] for a count: its decimal digits. *)
Fixpoint uint_digits (d : Decimal.uint) : str :=
  match d with
  | Decimal.Nil => []
  | Decimal.D0 d' => 48%N :: uint_digits d'
  | Decimal.D1 d' => 49%N :: uint_digits d'
  | Decimal.D2 d' => 50%N :: uint_digits d'
  | Decimal.D3 d' => 51%N :: uint_digits d'
  | Decimal.D4 d' => 52%N :: uint_digits d'
  | Decimal.D5 d' => 53%N :: uint_digits d'
  | Decimal.D6 d' => 54%N :: uint_digits d'
  | Decimal.D7 d' => 55%N :: uint_digits d'
  | Decimal.D8 d' => 56%N :: uint_digits d'
  | Decimal.D9 d' => 57%N :: uint_digits d'
  end.

Definition decimal (n : nat) : str := uint_digits (Nat.to_uint n).

(** The string appended for an entry: the sentences of lines 91-120, the
    two f-strings of lines 100 and 108 with the count in decimal, and the
    f-string of lines 103 and 111 for an example. *)
Definition render (l : analysis_line) : str :=
  match l with
  | HighSimilarity => HIGH_SIMILARITY_TEXT
  | ModerateSimilarity => MODERATE_SIMILARITY_TEXT
  | LowSimilarity => LOW_SIMILARITY_TEXT
  | MissingCount n => Str.NEWLINE :: MISSING_COUNT_TEXT ++ decimal n
  | MissingHeading => MISSING_HEADING_TEXT
  | ExtraCount n => Str.NEWLINE :: EXTRA_COUNT_TEXT ++ decimal n
  | ExtraHeading => EXTRA_HEADING_TEXT
  | ExampleLine text ellipsis =>
      DASH ++ text ++ (if ellipsis then ELLIPSIS else [])
  | ConclusionHeading => Str.NEWLINE :: CONCLUSION_HEADING_TEXT
  | MostlyMissing => MOSTLY_MISSING_TEXT
  | MostlyExtra => MOSTLY_EXTRA_TEXT
  | BothKinds => BOTH_KINDS_TEXT
  end.

(** Line 122: the entries joined by newlines. *)
Definition generate_ai_analysis (c : comparison) : str :=
  Str.join [Str.NEWLINE] (map render (analysis c)).

(** ** The run: exceptions, trace and results *)

(** A raised exception: [Raised msg] has [str(e) = msg]; [RetryError e] is
    what the retry decorator raises when its last attempt raised [e]. *)
Inductive exn :=
| Raised (msg : str)
| RetryError (last : exn).

Definition Exc (A : Type) : Type := (exn + A)%type.

(** "RetryError[" and "]" *)
Definition RETRY_OPEN : str :=
  [82; 101; 116; 114; 121; 69; 114; 114; 111; 114; 91]%N.
Definition RETRY_CLOSE : str := [93]%N.

(** [str(e)]; the rendering of a [RetryError] is abbreviated. *)
Fixpoint str_exn (e : exn) : str :=
  match e with
  | Raised msg => msg
  | RetryError last => RETRY_OPEN ++ str_exn last ++ RETRY_CLOSE
  end.

(** The dictionaries appended to [results]. *)
Inductive record :=
| Success (url : str) (c : comparison)
    (* first loop: status 'success', examples as lists *)
| SuccessJoined (url : str) (similarity : Q)
                (original_length lib_length : nat)
                (missing_lines_count extra_lines_count : nat)
                (example_missing example_extra : str)
    (* second loop: status 'success', examples joined with " | " *)
| Failure (url : str) (error : str).
    (* status 'error' *)

Definition record_url (r : record) : str :=
  match r with
  | Success url _ => url
  | SuccessJoined url _ _ _ _ _ _ _ => url
  | Failure url _ => url
  end.

(** Lines written with [print] or [tqdm.write], by kind. *)
Inductive message :=
| MsgFetchError (url msg : str)             (* extract_text_from_url *)
| MsgBanner
| MsgLoading
| MsgColumnsMissing
| MsgFound (n : nat)
| MsgSkipEmpty (number : nat)               (* first loop *)
| MsgRowError (number : nat) (url msg : str)
| MsgFileError (msg : str)
| MsgProgress (number total : nat) (url : str)
| MsgSkipEmpty2                             (* second loop *)
| MsgParseError (text : str)
| MsgSimilarity (s : Q).

Inductive event :=
| Get (url : str)                 (* requests.get(URL, ...) *)
| Sleep (seconds : nat)           (* a wait of the retry decorator *)
| Print (m : message)
| Compare (original_text lib_text : str)   (* a call of compare_texts *)
| Report (results : list record). (* save_results and the two report writers *)

Record run := mkRun {
  trace : list event;
  results : list record
}.

Definition M (A : Type) : Type := run -> A * run.

Definition ret {A} (x : A) : M A := fun st => (x, st).

Definition bind {A B} (c : M A) (k : A -> M B) : M B :=
  fun st => let '(x, st') := c st in k x st'.

Notation "x <- c ;; k" := (bind c (fun x => k))
  (at level 61, c at next level, right associativity).
Notation "c ;; k" := (bind c (fun _ => k))
  (at level 61, right associativity).

Definition emit (e : event) : M unit :=
  fun st => (tt, mkRun (trace st ++ [e]) (results st)).

(** [results.append(r)] *)
Definition append (r : record) : M unit :=
  fun st => (tt, mkRun (trace st) (results st ++ [r])).

Definition is_get (e : event) : bool :=
  match e with Get _ => true | _ => false end.

Definition is_sleep (e : event) : bool :=
  match e with Sleep _ => true | _ => false end.

(** Number of GETs issued so far. *)
Definition gets (tr : list event) : nat := length (filter is_get tr).

(** A table row: column label to [str(cell)]. *)
Definition row := list (str * str).

Record frame := mkFrame {
  columns : list str;
  rows : list row
}.

(** What lies outside the program. *)
Record world := mkWorld {
  (** [pd.read_csv(...)] with the column labels stripped. *)
  read_csv : Exc frame;
  (** The [k]-th GET of the run, for [url]: either an exception raised
      inside the [try] of [extract_text_from_url] (transport failure,
      timeout, [raise_for_status], parsing), or the text that
      [get_text(separator='\n', strip=True)] gives for the content root. *)
  page : nat -> str -> Exc str;
  (** The exception, if any, raised by the report writers. *)
  reporting : list record -> option exn
}.

(** ** The retry decorator *)

(** [wait_exponential(multiplier, min, max)] after the given attempt. *)
Definition wait_exponential (multiplier min max attempt_number : nat) : nat :=
  Nat.max (Nat.max 0 min)
          (Nat.min (multiplier * 2 ^ (attempt_number - 1)) max).

(** [retry(stop=stop_after_attempt(n), wait=...)]: call [f]; when it
    raises and attempts remain, sleep and call it again; when the last
    attempt raises, raise [RetryError].  A returned value ends the loop. *)
Fixpoint retry_from {A} (wait : nat -> nat) (remaining attempt_number : nat)
         (f : M (Exc A)) : M (Exc A) :=
  fun st =>
    match f st with
    | (inr v, st') => (inr v, st')
    | (inl e, st') =>
        match remaining with
        | 0 => (inl (RetryError e), st')
        | S remaining' =>
            retry_from wait remaining' (S attempt_number) f
                       (snd (emit (Sleep (wait attempt_number)) st'))
        end
    end.

Definition retry {A} (stop_after_attempt : nat) (wait : nat -> nat)
           (f : M (Exc A)) : M (Exc A) :=
  retry_from wait (stop_after_attempt - 1) 1 f.

(** ** [extract_text_from_url] and [main] *)

(** "Ошибка" and "Ошибка: " *)
Definition OSHIBKA : str := [1054; 1096; 1080; 1073; 1082; 1072]%N.
Definition OSHIBKA_COLON : str := OSHIBKA ++ [58; 32]%N.

Definition KEY_URL : str := [85; 82; 76]%N.
Definition KEY_LIB_TEXT : str := [108; 105; 98; 95; 116; 101; 120; 116]%N.
Definition BAR : str := [32; 124; 32]%N.

Inductive flow := Return | Fallthrough.

Section Program.

Variable lower_at : lowering.
Variable set_list : list str -> list str.
Variable w : world.

(** The [try] block of [extract_text_from_url] (lines 33-53). *)
Definition fetch_try (URL : str) : M (Exc str) :=
  fun st =>
    let k := gets (trace st) in
    let st1 := snd (emit (Get URL) st) in
    match page w k URL with
    | inl e => (inl e, st1)
    | inr text => (inr (Str.strip (Str.sub_nl text)), st1)
    end.

(** The function under the decorator: [try] ... [except Exception as e]. *)
Definition extract_text_from_url_body (URL : str) : M (Exc str) :=
  r <- fetch_try URL ;;
  match r with
  | inr text => ret (inr text)
  | inl e =>
      emit (Print (MsgFetchError URL (str_exn e))) ;;
      ret (inr (OSHIBKA_COLON ++ str_exn e))
  end.

(** [@retry(stop=stop_after_attempt(3),
           wait=wait_exponential(multiplier=1, min=4, max=10))] *)
Definition extract_text_from_url (URL : str) : M (Exc str) :=
  retry 3 (wait_exponential 1 4 10) (extract_text_from_url_body URL).

(** [row[key]] *)
Fixpoint row_get (r : row) (key : str) : Exc str :=
  match r with
  | [] => inl (Raised ([39]%N ++ key ++ [39]%N))   (* KeyError *)
  | (k, v) :: r' => if str_eqb k key then inr v else row_get r' key
  end.

(** Line 439: both labels occur among the columns, ignoring case. *)
Definition columns_present (df : frame) : bool :=
  forallb (fun col =>
             existsb (str_eqb (lower lower_at col))
                     (map (lower lower_at) (columns df)))
          [KEY_URL; KEY_LIB_TEXT].

(** Lines 454-475: the body of the per-row [try] of the first loop. *)
Definition row_try (url lib_text : str) : M (Exc unit) :=
  r <- extract_text_from_url url ;;
  match r with
  | inl e => ret (inl e)
  | inr original_text =>
      if Str.startswith OSHIBKA original_text
      then append (Failure url original_text) ;; ret (inr tt)
      else
        emit (Compare original_text lib_text) ;;
        append (Success url
                  (compare_texts lower_at set_list original_text lib_text)) ;;
        ret (inr tt)
  end.

(** Lines 446-483: one round of the first loop.  [inl] is an exception
    that leaves the loop (it is raised outside the per-row [try]). *)
Definition first_loop_body (idx : nat) (r : row) : M (Exc unit) :=
  match row_get r KEY_URL with
  | inl e => ret (inl e)
  | inr cell_url =>
      let url := Str.strip cell_url in
      match row_get r KEY_LIB_TEXT with
      | inl e => ret (inl e)
      | inr cell_text =>
          let lib_text := Str.strip cell_text in
          if is_empty lib_text
          then emit (Print (MsgSkipEmpty (idx + 1))) ;; ret (inr tt)
          else
            t <- row_try url lib_text ;;
            match t with
            | inr _ => ret (inr tt)
            | inl e =>
                append (Failure url (str_exn e)) ;;
                emit (Print (MsgRowError (idx + 1) url (str_exn e))) ;;
                ret (inr tt)
            end
      end
  end.

(** [for idx, row in ...]: stops at the first exception. *)
Fixpoint for_rows (body : nat -> row -> M (Exc unit)) (idx : nat)
         (rs : list row) : M (Exc unit) :=
  match rs with
  | [] => ret (inr tt)
  | r :: rs' =>
      x <- body idx r ;;
      match x with
      | inl e => ret (inl e)
      | inr _ => for_rows body (S idx) rs'
      end
  end.

(** Lines 497-532: one round of the second loop, which has no [try]. *)
Definition second_loop_body (total idx : nat) (r : row) : M (Exc unit) :=
  match row_get r KEY_URL with
  | inl e => ret (inl e)
  | inr cell_url =>
      let url := Str.strip cell_url in
      match row_get r KEY_LIB_TEXT with
      | inl e => ret (inl e)
      | inr cell_text =>
          let lib_text := Str.strip cell_text in
          emit (Print (MsgProgress (idx + 1) total url)) ;;
          if is_empty lib_text
          then emit (Print MsgSkipEmpty2) ;; ret (inr tt)
          else
            t <- extract_text_from_url url ;;
            match t with
            | inl e => ret (inl e)
            | inr original_text =>
                if Str.startswith OSHIBKA original_text
                then
                  emit (Print (MsgParseError original_text)) ;;
                  append (Failure url original_text) ;;
                  ret (inr tt)
                else
                  emit (Compare original_text lib_text) ;;
                  let c := compare_texts lower_at set_list
                                         original_text lib_text in
                  append (SuccessJoined url (similarity c)
                            (original_length c) (lib_length c)
                            (missing_lines_count c) (extra_lines_count c)
                            (Str.join BAR (example_missing c))
                            (Str.join BAR (example_extra c))) ;;
                  emit (Print (MsgSimilarity (similarity c))) ;;
                  ret (inr tt)
            end
      end
  end.

(** Lines 436-488: the body of the outer [try].  [Return] is the early
    [return] of line 441. *)
Definition main_try : M (Exc (flow * frame)) :=
  match read_csv w with
  | inl e => ret (inl e)
  | inr df_input =>
      if negb (columns_present df_input)
      then emit (Print MsgColumnsMissing) ;; ret (inr (Return, df_input))
      else
        emit (Print (MsgFound (length (rows df_input)))) ;;
        l <- for_rows first_loop_body 0 (rows df_input) ;;
        match l with
        | inl e => ret (inl e)
        | inr _ =>
            fun st =>
              let rs := results st in
              let st' := snd (emit (Report rs) st) in
              match reporting w rs with
              | Some e => (inl e, st')
              | None => (inr (Fallthrough, df_input), st')
              end
        end
  end.

(** [main()].  [ensure_directory_exists] only touches the file system and
    is left out.  [inl] is an exception that escapes [main]. *)
Definition main : M (Exc unit) :=
  emit (Print MsgBanner) ;;
  emit (Print MsgLoading) ;;
  t <- main_try ;;
  match t with
  | inl e => emit (Print (MsgFileError (str_exn e))) ;; ret (inr tt)
  | inr (Return, _) => ret (inr tt)
  | inr (Fallthrough, df_input) =>
      emit (Print (MsgFound (length (rows df_input)))) ;;
      for_rows (second_loop_body (length (rows df_input))) 0
               (rows df_input)
  end.

End Program.

Definition start : run := mkRun [] [].

(** [main] run from the empty state. *)
Definition run_main (lower_at : lowering) (set_list : list str -> list str)
           (w : world) : Exc unit * run :=
  main lower_at set_list w start.

(** [p] occurs in [s] as a substring. *)
Definition Substring (p s : str) : Prop := exists l r, s = l ++ p ++ r.

(** ** Vocabulary for statements about the batch *)

(** The stripped cells of a row ([[]] when the label is absent). *)
Definition row_url (r : row) : str :=
  match row_get r KEY_URL with inr v => Str.strip v | inl _ => [] end.

Definition row_lib_text (r : row) : str :=
  match row_get r KEY_LIB_TEXT with inr v => Str.strip v | inl _ => [] end.

(** Both labels can be read from the row. *)
Definition has_keys (r : row) : bool :=
  match row_get r KEY_URL, row_get r KEY_LIB_TEXT with
  | inr _, inr _ => true
  | _, _ => false
  end.

(** The candidate text of the row is empty once stripped. *)
Definition skipped (r : row) : bool := is_empty (row_lib_text r).

Definition processed (rs : list row) : list row :=
  filter (fun r => negb (skipped r)) rs.

(** The record that the first loop appends for a row that is not skipped,
    when its GET is the [k]-th of the run. *)
Definition fetched_record (lower_at : lowering)
           (set_list : list str -> list str) (w : world)
           (k : nat) (url lib_text : str) : record :=
  match page w k url with
  | inl e => Failure url (OSHIBKA_COLON ++ str_exn e)
  | inr page_text =>
      let original_text := Str.strip (Str.sub_nl page_text) in
      if Str.startswith OSHIBKA original_text
      then Failure url original_text
      else Success url
             (compare_texts lower_at set_list original_text lib_text)
  end.

(** The records of the rows that are not skipped, the first of them
    fetched by GET number [k]. *)
Fixpoint fetched_records (lower_at : lowering)
         (set_list : list str -> list str) (w : world)
         (k : nat) (rs : list row) : list record :=
  match rs with
  | [] => []
  | r :: rs' =>
      if skipped r then fetched_records lower_at set_list w k rs'
      else fetched_record lower_at set_list w k (row_url r) (row_lib_text r)
             :: fetched_records lower_at set_list w (S k) rs'
  end.

Definition is_report (e : event) : bool :=
  match e with Report _ => true | _ => false end.

(** The run state after one more GET. *)
Definition after_get (st : run) (URL : str) : run :=
  mkRun (trace st ++ [Get URL]) (results st).

(** ** Concrete inputs used in the examples below *)

(** "tide" and "diet" *)
Definition s_tide : str := [116; 105; 100; 101]%N.
Definition s_diet : str := [100; 105; 101; 116]%N.

(** "  Hello   World \n" *)
Definition s_hello : str :=
  [32; 32; 72; 101; 108; 108; 111; 32; 32; 32; 87; 111; 114; 108; 100;
   32; 10]%N.

(** "u", "t", "x": a URL, a candidate text, a page text *)
Definition s_u : str := [117]%N.
Definition s_t : str := [116]%N.
Definition s_x : str := [120]%N.

(** "404" *)
Definition s_404 : str := [52; 48; 52]%N.

(** "Ошибка 404": a page whose own text starts like an error string *)
Definition s_error_page : str := OSHIBKA ++ [32]%N ++ s_404.

Definition row_ut : row := [(KEY_URL, s_u); (KEY_LIB_TEXT, s_t)].

(** A row whose candidate text is blank. *)
Definition row_blank : row := [(KEY_URL, s_u); (KEY_LIB_TEXT, [32; 32]%N)].

Definition frame_of (rs : list row) : frame :=
  mkFrame [KEY_URL; KEY_LIB_TEXT] rs.

(** Every GET answers with the page text "x"; reporting succeeds. *)
Definition world_ok (rs : list row) : world :=
  mkWorld (inr (frame_of rs)) (fun _ _ => inr s_x) (fun _ => None).

(** Every GET fails with "404"; reporting succeeds. *)
Definition world_404 (rs : list row) : world :=
  mkWorld (inr (frame_of rs)) (fun _ _ => inl (Raised s_404))
          (fun _ => None).

(** Every GET answers with the page text "Ошибка 404". *)
Definition world_error_page (rs : list row) : world :=
  mkWorld (inr (frame_of rs)) (fun _ _ => inr s_error_page) (fun _ => None).

(** A callable that raises on every call, recording the call as a GET. *)
Definition always_raises (url : str) : M (Exc str) :=
  fun st => (inl (Raised s_404), snd (emit (Get url) st)).

(** "Line B.\n  \nLine A.\nLine B." against "line a." *)
Definition s_original : str :=
  [76; 105; 110; 101; 32; 66; 46; 10; 32; 32; 10;
   76; 105; 110; 101; 32; 65; 46; 10;
   76; 105; 110; 101; 32; 66; 46]%N.
Definition s_candidate : str := [108; 105; 110; 101; 32; 97; 46]%N.

(** "Line B." *)
Definition s_line_b : str := [76; 105; 110; 101; 32; 66; 46]%N.

(** "ab" and "ba" *)
Definition s_ab : str := [97; 98]%N.
Definition s_ba : str := [98; 97]%N.

(** ** Vocabulary for statements about the matcher *)

(** Total size of a list of blocks. *)
Definition total_size (blocks : list Difflib.Match) : nat :=
  fold_right (fun x acc => Difflib.m_size x + acc) 0 blocks.

(** Characters of [a], respectively of [b], still to be searched. *)
Definition a_width (queue : list (nat * nat * nat * nat)) : nat :=
  fold_right (fun '(alo, ahi, _, _) acc => (ahi - alo) + acc) 0 queue.

Definition b_width (queue : list (nat * nat * nat * nat)) : nat :=
  fold_right (fun '(_, _, blo, bhi) acc => (bhi - blo) + acc) 0 queue.

Definition ranges_ok (r : nat * nat * nat * nat) : Prop :=
  let '(alo, ahi, blo, bhi) := r in alo <= ahi /\ blo <= bhi.

(** "Some text" *)
Definition s_some_text : str :=
  [83; 111; 109; 101; 32; 116; 101; 120; 116]%N.

(** The entry that one round of the inner loop writes for column [j], and
    what the round does to the best match. *)
Definition row_entry (j2len : Difflib.dict) (j : nat) : nat * nat :=
  (j, Difflib.get_pred j2len j + 1).

Definition row_update (i : nat) (j2len : Difflib.dict)
           (best : Difflib.Match) (j : nat) : Difflib.Match :=
  let k := Difflib.get_pred j2len j + 1 in
  if Difflib.m_size best <? k
  then Difflib.mkMatch (i + 1 - k) (j + 1 - k) k
  else best.

(** Number of characters just before position [i] of [a], back to the last
    popular one, when [a] is matched against itself. *)
Fixpoint run_before (a : str) (i : nat) : nat :=
  match i with
  | 0 => 0
  | S t => if Difflib.popular a (Difflib.at_a a t) then 0
           else S (run_before a t)
  end.

(** What holds of the run lengths [d] and the best match when row [i] of
    [a] against [a] is about to be read. *)
Definition row_inv (a : str) (i : nat) (d : Difflib.dict)
           (best : Difflib.Match) : Prop :=
  (forall j, Difflib.get d j <= run_before a i /\
             Difflib.get d j <= run_before a (S j)) /\
  (forall t, i = S t -> Difflib.get d t = run_before a i) /\
  Difflib.m_a best = Difflib.m_b best /\
  (forall t, t <= i -> run_before a t <= Difflib.m_size best).

(** "hello world" *)
Definition s_hello_norm : str :=
  [104; 101; 108; 108; 111; 32; 119; 111; 114; 108; 100]%N.

(** ** Vocabulary for statements about text shape *)

(** [s], read after [run] newlines, never shows three newlines in a
    row. *)
Fixpoint nl_runs_ok (run : nat) (s : str) : Prop :=
  match s with
  | [] => True
  | c :: r => if (c =? Str.NEWLINE)%N
              then run < 2 /\ nl_runs_ok (S run) r
              else nl_runs_ok 0 r
  end.

(** In [s], read after white space when [in_run] holds, every white-space
    character is a space and stands alone. *)
Fixpoint ws_ok (in_run : bool) (s : str) : Prop :=
  match s with
  | [] => True
  | c :: r => if Str.isspace c
              then c = Str.SPACE /\ in_run = false /\ ws_ok true r
              else ws_ok false r
  end.

(** "\n\n\n" *)
Definition THREE_NEWLINES : str := [Str.NEWLINE; Str.NEWLINE; Str.NEWLINE].

(** " a\n\n\n\nb \n" *)
Definition s_page : str := [32; 97; 10; 10; 10; 10; 98; 32; 10]%N.

Definition world_page : world :=
  mkWorld (inl (Raised [])) (fun _ _ => inr s_page) (fun _ => None).

(** ** The command line ([main.py]) *)

(** The parsed arguments; [app.main] reads none of them. *)
Record cli_args := mkArgs {
  arg_input : str;
  arg_output : str;
  arg_html : bool;
  arg_excel : bool;
  arg_parallel : nat
}.

(** The world of the command line: that of [app.main], and the exception,
    if any, that [ensure_directory_exists] raises. *)
Record cli_world := mkCliWorld {
  app_world : world;
  ensure_directory : option exn
}.

(** How [main.py] ends: the success lines naming [args.output], or the
    error line followed by [sys.exit(1)]. *)
Inductive cli_outcome :=
| Completed (output : str)
| Exit1 (msg : str).

Section CommandLine.

Variable lower_at : lowering.
Variable set_list : list str -> list str.

(** [app.main] as it is called: [ensure_directory_exists()] first. *)
Definition app_main (cw : cli_world) : M (Exc unit) :=
  match ensure_directory cw with
  | Some e => ret (inl e)
  | None => main lower_at set_list (app_world cw)
  end.

(** [main()] of [main.py], after the banner and the argument parser. *)
Definition cli_main (args : cli_args) (cw : cli_world)
  : cli_outcome * run :=
  match app_main cw start with
  | (inr _, st) => (Completed (arg_output args), st)
  | (inl e, st) => (Exit1 (str_exn e), st)
  end.

End CommandLine.

(** "url": the label in lower case. *)
Definition KEY_URL_LOWER : str := [117; 114; 108]%N.

(** A row read from a table whose first column is labelled "url". *)
Definition row_lower : row := [(KEY_URL_LOWER, s_u); (KEY_LIB_TEXT, s_t)].

Definition world_lower : world :=
  mkWorld (inr (mkFrame [KEY_URL_LOWER; KEY_LIB_TEXT]
                        [row_lower; row_lower]))
          (fun _ _ => inr s_x) (fun _ => None).

(** The table cannot be read and every GET would fail. *)
Definition world_unreadable : world :=
  mkWorld (inl (Raised s_404)) (fun _ _ => inl (Raised s_404))
          (fun _ => None).

Definition args_default : cli_args := mkArgs [] [] false false 4.

(** A stretch of text is bounded by white space on a side when it is at
    the end of the string there or next to a white-space character. *)
Definition ends_blank (p : str) : Prop :=
  p = [] \/ exists p' w, p = p' ++ [w] /\ Str.isspace w = true.

Definition starts_blank (s : str) : Prop :=
  s = [] \/ exists w s', s = w :: s' /\ Str.isspace w = true.

(** "Line A.\n  Line B.  \n" *)
Definition s_two_lines : str :=
  [76; 105; 110; 101; 32; 65; 46; 10; 32; 32;
   76; 105; 110; 101; 32; 66; 46; 32; 32; 10]%N.

(** ** Literals of the report writers *)

(** [• Требуется серьезная доработка парсера для этого типа контента] *)
Definition TIP_REWORK : str :=
  [8226; 32; 1058; 1088; 1077; 1073; 1091; 1077; 1090; 1089; 1103; 32;
   1089; 1077; 1088; 1100; 1077; 1079; 1085; 1072; 1103; 32; 1076; 1086;
   1088; 1072; 1073; 1086; 1090; 1082; 1072; 32; 1087; 1072; 1088; 1089;
   1077; 1088; 1072; 32; 1076; 1083; 1103; 32; 1101; 1090; 1086; 1075;
   1086; 32; 1090; 1080; 1087; 1072; 32; 1082; 1086; 1085; 1090; 1077;
   1085; 1090; 1072]%N.

(** [• Рекомендуется оптимизация правил извлечения] *)
Definition TIP_OPTIMIZE : str :=
  [8226; 32; 1056; 1077; 1082; 1086; 1084; 1077; 1085; 1076; 1091; 1077;
   1090; 1089; 1103; 32; 1086; 1087; 1090; 1080; 1084; 1080; 1079; 1072;
   1094; 1080; 1103; 32; 1087; 1088; 1072; 1074; 1080; 1083; 32; 1080;
   1079; 1074; 1083; 1077; 1095; 1077; 1085; 1080; 1103]%N.

(** [• Увеличить глубину анализа для уменьшения пропусков] *)
Definition TIP_DEPTH : str :=
  [8226; 32; 1059; 1074; 1077; 1083; 1080; 1095; 1080; 1090; 1100; 32;
   1075; 1083; 1091; 1073; 1080; 1085; 1091; 32; 1072; 1085; 1072; 1083;
   1080; 1079; 1072; 32; 1076; 1083; 1103; 32; 1091; 1084; 1077; 1085;
   1100; 1096; 1077; 1085; 1080; 1103; 32; 1087; 1088; 1086; 1087; 1091;
   1089; 1082; 1086; 1074]%N.

(** [• Добавить фильтрацию нерелевантных блоков] *)
Definition TIP_FILTER : str :=
  [8226; 32; 1044; 1086; 1073; 1072; 1074; 1080; 1090; 1100; 32; 1092;
   1080; 1083; 1100; 1090; 1088; 1072; 1094; 1080; 1102; 32; 1085; 1077;
   1088; 1077; 1083; 1077; 1074; 1072; 1085; 1090; 1085; 1099; 1093; 32;
   1073; 1083; 1086; 1082; 1086; 1074]%N.

(** [• Внедрить систему распознавания рекламного контента] *)
Definition TIP_ADS : str :=
  [8226; 32; 1042; 1085; 1077; 1076; 1088; 1080; 1090; 1100; 32; 1089;
   1080; 1089; 1090; 1077; 1084; 1091; 32; 1088; 1072; 1089; 1087; 1086;
   1079; 1085; 1072; 1074; 1072; 1085; 1080; 1103; 32; 1088; 1077; 1082;
   1083; 1072; 1084; 1085; 1086; 1075; 1086; 32; 1082; 1086; 1085; 1090;
   1077; 1085; 1090; 1072]%N.

(** [• Качество извлечения удовлетворительное. Можно оптимизировать обработку специфичных элементов] *)
Definition TIP_FINE : str :=
  [8226; 32; 1050; 1072; 1095; 1077; 1089; 1090; 1074; 1086; 32; 1080;
   1079; 1074; 1083; 1077; 1095; 1077; 1085; 1080; 1103; 32; 1091; 1076;
   1086; 1074; 1083; 1077; 1090; 1074; 1086; 1088; 1080; 1090; 1077; 1083;
   1100; 1085; 1086; 1077; 46; 32; 1052; 1086; 1078; 1085; 1086; 32; 1086;
   1087; 1090; 1080; 1084; 1080; 1079; 1080; 1088; 1086; 1074; 1072; 1090;
   1100; 32; 1086; 1073; 1088; 1072; 1073; 1086; 1090; 1082; 1091; 32;
   1089; 1087; 1077; 1094; 1080; 1092; 1080; 1095; 1085; 1099; 1093; 32;
   1101; 1083; 1077; 1084; 1077; 1085; 1090; 1086; 1074]%N.

(** [<br>] *)
Definition BR : str :=
  [60; 98; 114; 62]%N.

(** [реклам] *)
Definition REKLAM : str :=
  [1088; 1077; 1082; 1083; 1072; 1084]%N.

(** [division by zero] *)
Definition DIVISION_BY_ZERO : str :=
  [100; 105; 118; 105; 115; 105; 111; 110; 32; 98; 121; 32; 122; 101; 114;
   111]%N.

(** [results_] *)
Definition RESULTS_PREFIX : str :=
  [114; 101; 115; 117; 108; 116; 115; 95]%N.

(** [.json] *)
Definition JSON_SUFFIX : str :=
  [46; 106; 115; 111; 110]%N.
(** ** The report writers: what they compute from [results] *)

(** [r['status'] == 'success'] and [r['status'] == 'error'] *)
Definition is_success (r : record) : bool :=
  match r with Failure _ _ => false | _ => true end.

Definition is_error (r : record) : bool :=
  match r with Failure _ _ => true | _ => false end.

(** An examples field: a list of lines (first loop) or one joined string
    (second loop). *)
Inductive examples :=
| ExamplesList (l : list str)
| ExamplesText (s : str).

(** What iterating over the field yields: the lines, or the characters of
    the string one by one. *)
Definition example_items (e : examples) : list str :=
  match e with
  | ExamplesList l => l
  | ExamplesText s => map (fun ch => [ch]) s
  end.

(** The fields of a record with status 'success'. *)
Record success_fields := mkFields {
  f_similarity : Q;
  f_original_length : nat;
  f_lib_length : nat;
  f_missing_lines_count : nat;
  f_extra_lines_count : nat;
  f_example_missing : examples;
  f_example_extra : examples
}.

Definition success_fields_of (r : record) : option success_fields :=
  match r with
  | Success _ c =>
      Some (mkFields (similarity c) (original_length c) (lib_length c)
                     (missing_lines_count c) (extra_lines_count c)
                     (ExamplesList (example_missing c))
                     (ExamplesList (example_extra c)))
  | SuccessJoined _ s ol ll m e em ee =>
      Some (mkFields s ol ll m e (ExamplesText em) (ExamplesText ee))
  | Failure _ _ => None
  end.

(** [len([r for r in results if r['status'] == 'success'])] and the
    like. *)
Definition count_success (results : list record) : nat :=
  length (filter is_success results).

Definition count_error (results : list record) : nat :=
  length (filter is_error results).

(** [abs(a - b)] on lengths. *)
Definition abs_diff (a b : nat) : nat := (a - b) + (b - a).

(** *** [save_results]: the metadata and the articles of the JSON report

    The clock readings ([generated_at], [timestamp]) and the constant
    [source_csv] are left out. *)

Record metadata := mkMetadata {
  total_articles : nat;
  successful : nat;
  failed : nat
}.

Inductive article_data :=
| ArticleSuccess (url : str) (similarity : Q)
                 (original lib difference : nat)
                 (missing_lines extra_lines : nat)
                 (example_missing example_extra : examples)
                 (ai_analysis : str)
| ArticleError (url : str) (error : str).

(** [generate_ai_analysis(result)] on the fields of a record. *)
Definition analysis_of_fields (f : success_fields) : str :=
  generate_ai_analysis
    (mkComparison (f_similarity f) (f_original_length f) (f_lib_length f)
                  (f_missing_lines_count f) (f_extra_lines_count f)
                  (example_items (f_example_missing f))
                  (example_items (f_example_extra f))).

(** Lines 141-167: one entry of [full_report['articles']]. *)
Definition article_of (r : record) : article_data :=
  match success_fields_of r with
  | Some f =>
      ArticleSuccess (record_url r) (f_similarity f)
                     (f_original_length f) (f_lib_length f)
                     (abs_diff (f_original_length f) (f_lib_length f))
                     (f_missing_lines_count f) (f_extra_lines_count f)
                     (f_example_missing f) (f_example_extra f)
                     (analysis_of_fields f)
  | None =>
      ArticleError (record_url r)
                   (match r with Failure _ e => e | _ => [] end)
  end.

(** Lines 130-167: [full_report]. *)
Definition save_results_report (results : list record)
  : metadata * list article_data :=
  (mkMetadata (length results) (count_success results)
              (count_error results),
   map article_of results).

Definition article_url (a : article_data) : str :=
  match a with
  | ArticleSuccess url _ _ _ _ _ _ _ _ _ => url
  | ArticleError url _ => url
  end.

Definition article_is_success (a : article_data) : bool :=
  match a with ArticleSuccess _ _ _ _ _ _ _ _ _ _ => true | _ => false end.

(** *** [generate_html_report]: the values handed to the template *)

Record html_context := mkHtmlContext {
  h_total_articles : nat;
  h_success_count : nat;
  h_error_count : nat;
  h_articles : list record
}.

(** Lines 87-97 of [html_report.py]. *)
Definition html_report_context (results : list record) : html_context :=
  mkHtmlContext (length results) (count_success results)
                (count_error results) results.

(** *** [generate_comprehensive_report]: the computed cells *)

Inductive level := Low | Medium | High.

(** [[r['similarity'] for r in results if r['status'] == 'success']] *)
Fixpoint success_similarities (results : list record) : list Q :=
  match results with
  | [] => []
  | r :: rest =>
      match success_fields_of r with
      | Some f => f_similarity f :: success_similarities rest
      | None => success_similarities rest
      end
  end.

Definition q_sum (l : list Q) : Q := fold_right Qplus 0%Q l.

(** [np.mean(l)] on the idealised floats. *)
Definition q_mean (l : list Q) : Q :=
  (q_sum l / inject_Z (Z.of_nat (length l)))%Q.

(** [max(l)] and [min(l)] of a list with head [x]: the first of the
    largest, respectively smallest, elements. *)
Definition q_max (x : Q) (l : list Q) : Q :=
  fold_left (fun best y => if Qgtb y best then y else best) l x.

Definition q_min (x : Q) (l : list Q) : Q :=
  fold_left (fun best y => if Qgtb best y then y else best) l x.

(** Lines 362-369: the six statistics; [None] is the cell "N/A". *)
Record statistics := mkStatistics {
  s_total : nat;
  s_success : nat;
  s_errors : nat;
  s_mean : option Q;
  s_max : option Q;
  s_min : option Q
}.

Definition report_statistics (results : list record) : statistics :=
  let sims := success_similarities results in
  let have := existsb is_success results in
  mkStatistics
    (length results) (count_success results) (count_error results)
    (if have then Some (q_mean sims) else None)
    (if have then match sims with
                  | x :: l => Some (q_max x l)
                  | [] => None
                  end
     else None)
    (if have then match sims with
                  | x :: l => Some (q_min x l)
                  | [] => None
                  end
     else None).

(** [len([r for r in results if r['status'] == 'success'
                                 and r['similarity'] > bound])] *)
Definition count_above (bound : Q) (results : list record) : nat :=
  length (filter (fun r => match success_fields_of r with
                           | Some f => Qgtb (f_similarity f) bound
                           | None => false
                           end)
                 results).

(** [count / len(results) > 0.7]; the division raises on an empty list. *)
Definition share_above_70 (count total : nat) : Exc bool :=
  if total =? 0 then inl (Raised DIVISION_BY_ZERO)
  else inr (Qgtb (inject_Z (Z.of_nat count) / inject_Z (Z.of_nat total))
                 (7 # 10)).

(** Line 380: the overall efficiency named in the conclusion. *)
Definition overall_efficiency (results : list record) : Exc level :=
  match share_above_70 (count_above 80 results) (length results) with
  | inl e => inl e
  | inr true => inr High
  | inr false =>
      match share_above_70 (count_above 50 results) (length results) with
      | inl e => inl e
      | inr true => inr Medium
      | inr false => inr Low
      end
  end.

(** *** [generate_improvement_tips] *)

Section Tips.

Variable lower_at : lowering.

(** Lines 407-424: the list [tips]. *)
Definition improvement_tips (f : success_fields) : list str :=
  let tips :=
    (if Qgtb 50 (f_similarity f) then [TIP_REWORK]
     else if Qgtb 70 (f_similarity f) then [TIP_OPTIMIZE] else [])
    ++ (if 10 <? f_missing_lines_count f then [TIP_DEPTH] else [])
    ++ (if 5 <? f_extra_lines_count f then [TIP_FILTER] else [])
    ++ (if existsb (fun ex => Str.contains REKLAM (lower lower_at ex))
                   (example_items (f_example_extra f))
        then [TIP_ADS] else []) in
  match tips with
  | [] => [TIP_FINE]
  | _ => tips
  end.

(** [generate_improvement_tips(article)] *)
Definition generate_improvement_tips (f : success_fields) : str :=
  Str.join BR (improvement_tips f).

End Tips.

(** Records for the examples: similarities 90, 40, and a failure. *)
Definition c_90 : comparison := mkComparison 90 10 10 0 0 [] [].
Definition c_40 : comparison := mkComparison 40 10 4 12 0 [s_line_b] [].
Definition results_mixed : list record :=
  [Success s_u c_90; Failure s_u s_404; Success s_u c_40].

(** ** [visualize_results]: choosing the file to plot *)

(** [s.endswith(suffix)] *)
Definition endswith (suffix s : str) : bool :=
  Str.startswith (rev suffix) (rev s).

(** Lines 18-19: the names in the folder that start with "results_" and
    end with ".json". *)
Definition json_files (listing : list str) : list str :=
  filter (fun f => Str.startswith RESULTS_PREFIX f && endswith JSON_SUFFIX f)
         listing.

(** [max(l, key=key)] of a list with head [x]: the first element with the
    largest key. *)
Definition max_by_key {A} (key : A -> Q) (x : A) (l : list A) : A :=
  fold_left (fun best y => if Qgtb (key y) (key best) then y else best) l x.

Inductive selection :=
| FolderMissing
| NoResultFiles
| Latest (file : str).

(** Lines 13-26: [folder] is the listing of the results folder ([None]
    when the folder does not exist), [getmtime] the modification time of
    a file of it. *)
Definition select_results (folder : option (list str))
           (getmtime : str -> Q) : selection :=
  match folder with
  | None => FolderMissing
  | Some listing =>
      match json_files listing with
      | [] => NoResultFiles
      | f :: rest => Latest (max_by_key getmtime f rest)
      end
  end.

(** "results_1.json", "results_2.json", "results_2.csv" *)
Definition f_json_1 : str := RESULTS_PREFIX ++ [49]%N ++ JSON_SUFFIX.
Definition f_json_2 : str := RESULTS_PREFIX ++ [50]%N ++ JSON_SUFFIX.
Definition f_csv_2 : str := RESULTS_PREFIX ++ [50; 46; 99; 115; 118]%N.

Definition mtime_example (f : str) : Q :=
  if str_eqb f f_json_1 then 5 else if str_eqb f f_json_2 then 3 else 9.

(** A success row with similarity 85 and an advertisement among the extra
    examples ("реклама"). *)
Definition fields_ad : success_fields :=
  mkFields 85 10 20 0 1 (ExamplesList [])
           (ExamplesList [REKLAM ++ [1072]%N]).

(** ** Cells as the loader gives them *)

(** A cell of the table that [pd.read_csv] builds: [Text s] is a cell
    whose [str] is [s]; [NaN] is the cell of a field that is empty in the
    file. *)
Inductive cell :=
| Text (s : str)
| NaN.

(** "nan" *)
Definition s_nan : str := [110; 97; 110]%N.

(** [str(cell)] *)
Definition str_cell (c : cell) : str :=
  match c with
  | Text s => s
  | NaN => s_nan
  end.

(** A row of the table, label to cell, and the row of the [str(cell)]
    that lines 446-447 and 497-498 read from it. *)
Definition loaded_row := list (str * cell).

Definition str_row (r : loaded_row) : row :=
  map (fun kc => (fst kc, str_cell (snd kc))) r.

(** The row of the line "u," under the header "URL,lib_text": the
    candidate field is empty. *)
Definition row_empty_cell : loaded_row :=
  [(KEY_URL, Text s_u); (KEY_LIB_TEXT, NaN)].

Definition is_compare (e : event) : bool :=
  match e with Compare _ _ => true | _ => false end.

(** The two "candidate is empty" lines, of the first and of the second
    loop. *)
Definition is_skip_line (e : event) : bool :=
  match e with
  | Print (MsgSkipEmpty _) => true
  | Print MsgSkipEmpty2 => true
  | _ => false
  end.

(** The header "url,lib_text" with one row; every GET fails with "404". *)
Definition world_lower_404 : world :=
  mkWorld (inr (mkFrame [KEY_URL_LOWER; KEY_LIB_TEXT] [row_lower]))
          (fun _ _ => inl (Raised s_404)) (fun _ => None).

(** * Properties *)

(** ** Strings *)

Module StrFacts.
Import Str.

Lemma isspace_SPACE : isspace SPACE = true.
Proof. reflexivity. Qed.

Lemma dropWhile_head_ok s : head_ok (dropWhile isspace s).
Proof.
  induction s as [|c r IH]; simpl; [exact I|].
  destruct (isspace c) eqn:E; [exact IH | simpl; exact E].
Qed.

Lemma dropWhile_fix s : head_ok s -> dropWhile isspace s = s.
Proof.
  destruct s as [|c r]; simpl; [reflexivity|].
  intros ->. reflexivity.
Qed.

Lemma dropWhile_suffix s :
  exists pre, s = pre ++ dropWhile isspace s.
Proof.
  induction s as [|c r [pre IH]]; simpl.
  - exists []. reflexivity.
  - destruct (isspace c).
    + exists (c :: pre). simpl. f_equal. exact IH.
    + exists []. reflexivity.
Qed.

(** What [rstrip] keeps is a prefix of its argument. *)
Lemma rstrip_prefix s : exists suf, s = rstrip s ++ suf.
Proof.
  unfold rstrip. destruct (dropWhile_suffix (rev s)) as [pre H].
  exists (rev pre).
  rewrite <- rev_app_distr, <- H, rev_involutive. reflexivity.
Qed.

Lemma rstrip_last_ok s : last_ok (rstrip s).
Proof.
  unfold last_ok, rstrip. rewrite rev_involutive.
  apply dropWhile_head_ok.
Qed.

Lemma rstrip_head_ok s : head_ok s -> head_ok (rstrip s).
Proof.
  intros H. destruct (rstrip_prefix s) as [suf E].
  destruct (rstrip s) as [|c r]; simpl; [exact I|].
  rewrite E in H. exact H.
Qed.

Lemma strip_head_ok s : head_ok (strip s).
Proof. apply rstrip_head_ok, dropWhile_head_ok. Qed.

Lemma strip_last_ok s : last_ok (strip s).
Proof. apply rstrip_last_ok. Qed.

(** A text with no white space at either end is left alone by [strip]. *)
Lemma strip_fix s : head_ok s -> last_ok s -> strip s = s.
Proof.
  intros Hh Hl. unfold strip, lstrip, rstrip.
  rewrite (dropWhile_fix s Hh), (dropWhile_fix (rev s) Hl).
  apply rev_involutive.
Qed.

Lemma sub_ws_aux_snoc f pre c :
  isspace c = false -> sub_ws_aux f (pre ++ [c]) = sub_ws_aux f pre ++ [c].
Proof.
  intros Hc. revert f.
  induction pre as [|d r IH]; intros f; simpl.
  - rewrite Hc. reflexivity.
  - destruct (isspace d); [destruct f|]; simpl; rewrite IH; reflexivity.
Qed.

Lemma sub_ws_head_ok s : head_ok s -> head_ok (sub_ws s).
Proof.
  destruct s as [|c r]; simpl; [trivial|].
  intros H. unfold sub_ws. simpl. rewrite H. simpl. exact H.
Qed.

Lemma sub_ws_last_ok s : last_ok s -> last_ok (sub_ws s).
Proof.
  unfold last_ok. destruct s as [|c r] using rev_ind; [trivial|].
  rewrite rev_app_distr. simpl. intros Hc.
  unfold sub_ws. rewrite sub_ws_aux_snoc by exact Hc.
  rewrite rev_app_distr. simpl. exact Hc.
Qed.

(** Collapsing white space twice is collapsing it once. *)
Lemma sub_ws_aux_idem s :
  (forall f, sub_ws_aux false (sub_ws_aux f s) = sub_ws_aux f s) /\
  sub_ws_aux true (sub_ws_aux true s) = sub_ws_aux true s.
Proof.
  induction s as [|c r [IHa IHb]]; simpl.
  - split; reflexivity.
  - destruct (isspace c) eqn:E.
    + split.
      * intros [|]; [apply IHa|].
        simpl. rewrite IHb. reflexivity.
      * exact IHb.
    + split.
      * intros f. simpl. rewrite E, IHa. reflexivity.
      * simpl. rewrite E, IHa. reflexivity.
Qed.

Lemma sub_ws_idem s : sub_ws (sub_ws s) = sub_ws s.
Proof. apply (proj1 (sub_ws_aux_idem s)). Qed.

End StrFacts.

(** ** The normaliser *)

Section NormalizeFacts.
Import Str StrFacts.

Variable lower_at : lowering.

(** What is used of Unicode lower-casing: white space is its own lower
    case; a code point that is not white space maps to at least one code
    point, none of them white space; and the code points that lower-casing
    produces are left alone by it wherever they stand. *)
Hypothesis lower_space :
  forall before c after,
    isspace c = true -> lower_at before c after = [c].
Hypothesis lower_nonspace :
  forall before c after,
    isspace c = false ->
    lower_at before c after <> [] /\
    forallb (fun d => negb (isspace d)) (lower_at before c after) = true.
Hypothesis lower_stable :
  forall before c after d,
    In d (lower_at before c after) -> stable lower_at d.

Lemma lower_from_stable s :
  forall before, Forall (stable lower_at) (lower_from lower_at before s).
Proof.
  induction s as [|c r IH]; intros before; simpl; [constructor|].
  apply Forall_app. split; [|apply IH].
  apply Forall_forall. intros d H. exact (lower_stable _ _ _ _ H).
Qed.

(** A text made of stable code points is its own lower case. *)
Lemma lower_from_fix s :
  Forall (stable lower_at) s ->
  forall before, lower_from lower_at before s = s.
Proof.
  induction 1 as [|c r Hc Hr IH]; intros before; simpl; [reflexivity|].
  rewrite Hc, IH. reflexivity.
Qed.

Lemma stable_SPACE : stable lower_at SPACE.
Proof. intros before after. apply lower_space. reflexivity. Qed.

Lemma sub_ws_aux_stable s :
  Forall (stable lower_at) s ->
  forall f, Forall (stable lower_at) (sub_ws_aux f s).
Proof.
  induction 1 as [|c r Hc Hr IH]; intros f; simpl; [constructor|].
  destruct (isspace c); [destruct f|]; auto using stable_SPACE.
Qed.

Lemma lower_head_ok s : head_ok s -> head_ok (lower lower_at s).
Proof.
  destruct s as [|c r]; simpl; [trivial|]. intros E.
  destruct (lower_nonspace [] c r E) as [Hne Hall].
  unfold lower. simpl.
  destruct (lower_at [] c r) as [|d ds]; [contradiction|].
  simpl in *. apply andb_prop in Hall.
  apply negb_true_iff. apply Hall.
Qed.

(** The lower case of a text ends with the lower case of its last code
    point. *)
Lemma lower_from_snoc pre c :
  forall before,
  exists x, lower_from lower_at before (pre ++ [c])
            = x ++ lower_at (before ++ pre) c [].
Proof.
  induction pre as [|d r IH]; intros before; simpl.
  - exists []. rewrite !app_nil_r. reflexivity.
  - destruct (IH (before ++ [d])) as [x E]. rewrite E.
    exists (lower_at before d (r ++ [c]) ++ x).
    rewrite <- !app_assoc. reflexivity.
Qed.

Lemma lower_last_ok s : last_ok s -> last_ok (lower lower_at s).
Proof.
  unfold last_ok. destruct s as [|c r] using rev_ind; [trivial|].
  rewrite rev_app_distr. simpl. intros E.
  unfold lower. destruct (lower_from_snoc r c []) as [x ->].
  rewrite rev_app_distr.
  destruct (lower_nonspace ([] ++ r) c [] E) as [Hne Hall].
  destruct (lower_at ([] ++ r) c []) as [|d ds] using rev_ind;
    [contradiction|].
  rewrite rev_app_distr. simpl.
  rewrite forallb_app in Hall. apply andb_prop in Hall.
  destruct Hall as [_ Hd]. simpl in Hd. rewrite andb_true_r in Hd.
  apply negb_true_iff. exact Hd.
Qed.

Lemma normalize_head_ok s : head_ok (normalize lower_at s).
Proof. apply sub_ws_head_ok, lower_head_ok, strip_head_ok. Qed.

Lemma normalize_last_ok s : last_ok (normalize lower_at s).
Proof. apply sub_ws_last_ok, lower_last_ok, strip_last_ok. Qed.

Lemma normalize_stable s : Forall (stable lower_at) (normalize lower_at s).
Proof. apply sub_ws_aux_stable, lower_from_stable. Qed.

(** C5. Normalising a normalised text changes nothing:
    [normalize(normalize(s)) == normalize(s)] for every string [s],
    where [normalize] strips both ends, lower-cases and replaces every
    run of white space (newlines included) by one space. *)
Theorem normalize_idempotent (s : str) :
  normalize lower_at (normalize lower_at s) = normalize lower_at s.
Proof.
  unfold normalize at 1.
  rewrite (strip_fix _ (normalize_head_ok s) (normalize_last_ok s)).
  unfold lower. rewrite (lower_from_fix (normalize_stable s)).
  unfold normalize. apply sub_ws_idem.
Qed.

End NormalizeFacts.

Lemma ascii_lower_space before c after :
  Str.isspace c = true -> ascii_lower before c after = [c].
Proof.
  intros H. unfold ascii_lower.
  destruct ((65 <=? c) && (c <=? 90))%N eqn:E; [|reflexivity].
  exfalso. apply andb_prop in E. destruct E as [E1 E2].
  apply N.leb_le in E1, E2. unfold Str.isspace in H.
  repeat (apply orb_prop in H; destruct H as [H|H]);
    repeat match goal with
           | H : (_ && _)%bool = true |- _ =>
               apply andb_prop in H; destruct H
           | H : (_ <=? _)%N = true |- _ => apply N.leb_le in H
           | H : (_ =? _)%N = true |- _ => apply N.eqb_eq in H
           end; lia.
Qed.

Lemma ascii_lower_nonspace before c after :
  Str.isspace c = false ->
  ascii_lower before c after <> [] /\
  forallb (fun d => negb (Str.isspace d)) (ascii_lower before c after) = true.
Proof.
  intros H. unfold ascii_lower.
  destruct ((65 <=? c) && (c <=? 90))%N eqn:E.
  - split; [discriminate|]. simpl. rewrite andb_true_r.
    apply andb_prop in E. destruct E as [E1 E2].
    apply N.leb_le in E1, E2. apply negb_true_iff.
    unfold Str.isspace.
    repeat (apply orb_false_intro);
      try (apply andb_false_iff);
      repeat rewrite N.leb_gt; repeat rewrite N.eqb_neq; try lia.
  - split; [discriminate|]. simpl. rewrite H. reflexivity.
Qed.

Lemma ascii_lower_stable before c after d :
  In d (ascii_lower before c after) -> stable ascii_lower d.
Proof.
  unfold ascii_lower, stable.
  destruct ((65 <=? c) && (c <=? 90))%N eqn:E; intros [<- | []] _ _.
  - apply andb_prop in E. destruct E as [E1 E2]. apply N.leb_le in E1, E2.
    replace ((65 <=? c + 32) && (c + 32 <=? 90))%N with false; [reflexivity|].
    symmetry. apply andb_false_iff. right. apply N.leb_gt. lia.
  - rewrite E. reflexivity.
Qed.

Lemma normalize_idempotent_witness :
  normalize ascii_lower (normalize ascii_lower s_hello)
  = normalize ascii_lower s_hello.
Proof.
  apply (@normalize_idempotent ascii_lower ascii_lower_space
                               ascii_lower_nonspace ascii_lower_stable
                               s_hello).
Defined.

(** ** The fetch wrapper *)

Section FetchFacts.

Variable w : world.

(** The decorated function, case by case on what the GET gives. *)
Lemma extract_text_from_url_eq URL st :
  extract_text_from_url w URL st =
  match page w (gets (trace st)) URL with
  | inr page_text =>
      (inr (Str.strip (Str.sub_nl page_text)), after_get st URL)
  | inl e =>
      (inr (OSHIBKA_COLON ++ str_exn e),
       mkRun (trace st ++ [Get URL]
                ++ [Print (MsgFetchError URL (str_exn e))])
             (results st))
  end.
Proof.
  unfold extract_text_from_url, retry, retry_from,
    extract_text_from_url_body, bind, fetch_try, after_get.
  simpl. destruct (page w (gets (trace st)) URL) as [e|page_text]; simpl.
  - rewrite <- app_assoc. reflexivity.
  - reflexivity.
Qed.

Lemma gets_app tr1 tr2 : gets (tr1 ++ tr2) = gets tr1 + gets tr2.
Proof. unfold gets. rewrite filter_app, length_app. reflexivity. Qed.

Lemma sleeps_app tr1 tr2 :
  filter is_sleep (tr1 ++ tr2) = filter is_sleep tr1 ++ filter is_sleep tr2.
Proof. apply filter_app. Qed.

(** One call of the decorated function: one GET, no wait, a returned
    string. *)
Lemma extract_text_from_url_once URL st :
  exists text st',
    extract_text_from_url w URL st = (inr text, st') /\
    gets (trace st') = gets (trace st) + 1 /\
    filter is_sleep (trace st') = filter is_sleep (trace st) /\
    results st' = results st.
Proof.
  rewrite extract_text_from_url_eq.
  destruct (page w (gets (trace st)) URL) as [e|page_text];
    eexists; eexists; (split; [reflexivity|]); simpl;
    rewrite gets_app, sleeps_app; simpl; rewrite ?app_nil_r; auto.
Qed.

End FetchFacts.

(** C1. The claim is that a permanently failing URL is tried three times,
    with growing waits, before a terminal error.  On the code, for a URL
    whose every GET fails with "404", one call of [extract_text_from_url]
    issues exactly one GET, never waits, and returns the in-band string
    "Ошибка: 404": the [except] inside the function swallows the
    exception, so the retry decorator never sees a failed attempt.  The
    same holds of every call: one GET, no wait, a returned string. *)
Theorem permanent_failure_single_attempt :
  extract_text_from_url (world_404 []) s_u start =
  (inr (OSHIBKA_COLON ++ s_404),
   mkRun [Get s_u; Print (MsgFetchError s_u s_404)] []) /\
  (forall w URL st,
    exists text st',
      extract_text_from_url w URL st = (inr text, st') /\
      gets (trace st') = gets (trace st) + 1 /\
      filter is_sleep (trace st') = filter is_sleep (trace st)).
Proof.
  split; [reflexivity|]. intros w URL st.
  destruct (extract_text_from_url_once w URL st) as [text [st' [E [G [S _]]]]].
  exists text, st'. repeat split; assumption.
Qed.

(** The decorator itself does retry a callable that raises: three calls,
    a wait after the first and after the second, then [RetryError]. *)
Example retry_on_raising_callable :
  retry 3 (wait_exponential 1 4 10) (always_raises s_u) start =
  (inl (RetryError (Raised s_404)),
   mkRun [Get s_u; Sleep 4; Get s_u; Sleep 4; Get s_u] []).
Proof. reflexivity. Qed.

Section RowFacts.

Variable lower_at : lowering.
Variable set_list : list str -> list str.
Variable w : world.

(** The per-row [try] body of the first loop, case by case. *)
Lemma row_try_eq url lib_text st :
  row_try lower_at set_list w url lib_text st =
  match page w (gets (trace st)) url with
  | inr page_text =>
      let original_text := Str.strip (Str.sub_nl page_text) in
      if Str.startswith OSHIBKA original_text
      then (inr tt,
            mkRun (trace st ++ [Get url])
                  (results st ++ [Failure url original_text]))
      else (inr tt,
            mkRun (trace st ++ [Get url]
                     ++ [Compare original_text lib_text])
                  (results st ++
                     [Success url (compare_texts lower_at set_list
                                                 original_text lib_text)]))
  | inl e =>
      (inr tt,
       mkRun (trace st ++ [Get url]
                ++ [Print (MsgFetchError url (str_exn e))])
             (results st ++ [Failure url (OSHIBKA_COLON ++ str_exn e)]))
  end.
Proof.
  unfold row_try, bind. rewrite extract_text_from_url_eq.
  destruct (page w (gets (trace st)) url) as [e|page_text].
  - reflexivity.
  - cbv beta iota zeta.
    destruct (Str.startswith OSHIBKA (Str.strip (Str.sub_nl page_text)));
      unfold append, emit, ret, after_get; cbn [trace results fst snd];
      rewrite <- ?app_assoc; reflexivity.
Qed.

(** C10. [extract_text_from_url] never raises to its caller: it returns
    either the extracted text (the page text with runs of newlines cut to
    two and both ends stripped) or, when anything in its [try] raised, an
    error string that begins with "Ошибка".  Consequently a page that was
    fetched and extracted without error, but whose text begins with
    "Ошибка", is appended to [results] as a [Failure] carrying that text,
    and [compare_texts] is not called for it. *)
Theorem extract_text_from_url_in_band (URL lib_text : str) (st : run) :
  (exists text st',
      extract_text_from_url w URL st = (inr text, st') /\
      match page w (gets (trace st)) URL with
      | inr page_text => text = Str.strip (Str.sub_nl page_text)
      | inl e => text = OSHIBKA_COLON ++ str_exn e /\
                 Str.startswith OSHIBKA text = true
      end) /\
  (forall page_text,
      page w (gets (trace st)) URL = inr page_text ->
      Str.startswith OSHIBKA (Str.strip (Str.sub_nl page_text)) = true ->
      row_try lower_at set_list w URL lib_text st =
      (inr tt,
       mkRun (trace st ++ [Get URL])
             (results st ++
                [Failure URL (Str.strip (Str.sub_nl page_text))]))).
Proof.
  split.
  - rewrite extract_text_from_url_eq.
    destruct (page w (gets (trace st)) URL) as [e|page_text];
      eexists; eexists; (split; [reflexivity|]).
    + split; reflexivity.
    + reflexivity.
  - intros page_text Hpage Hstart. rewrite row_try_eq, Hpage.
    cbv beta iota zeta. rewrite Hstart. reflexivity.
Qed.

End RowFacts.

Lemma extract_text_from_url_in_band_witness :
  row_try ascii_lower first_occurrences (world_error_page [])
          s_u s_t start =
  (inr tt, mkRun [Get s_u] [Failure s_u s_error_page]).
Proof.
  exact (proj2 (extract_text_from_url_in_band
                  ascii_lower first_occurrences (world_error_page [])
                  s_u s_t start)
               s_error_page eq_refl eq_refl).
Defined.

(** ** The comparator: lines, containment, examples *)

Module ContainsFacts.
Import Str.

Lemma startswith_spec p s :
  startswith p s = true <-> exists r, s = p ++ r.
Proof.
  revert s. induction p as [|x p IH]; intros s; simpl.
  - split; [intros _; exists s; reflexivity | reflexivity].
  - destruct s as [|y s]; simpl.
    + split; [discriminate | intros [r H]; discriminate].
    + rewrite andb_true_iff, N.eqb_eq, IH. split.
      * intros [-> [r ->]]. exists r. reflexivity.
      * intros [r H]. injection H as -> ->. split; [reflexivity|].
        exists r. reflexivity.
Qed.

(** [p in s] holds exactly when [p] occurs in [s]. *)
Lemma contains_spec p s : contains p s = true <-> Substring p s.
Proof.
  unfold Substring. induction s as [|c s IH].
  - simpl. rewrite orb_false_r, startswith_spec. split.
    + intros [r H]. exists [], r. exact H.
    + intros [l [r H]]. destruct l; [exists r; exact H | discriminate].
  - change (contains p (c :: s))
      with (startswith p (c :: s) || contains p s).
    rewrite orb_true_iff, startswith_spec, IH. split.
    + intros [[r H] | [l [r H]]].
      * exists [], r. exact H.
      * exists (c :: l), r. rewrite H. reflexivity.
    + intros [l [r H]]. destruct l as [|d l].
      * left. exists r. exact H.
      * right. injection H as _ H. exists l, r. exact H.
Qed.

Lemma split_aux_nonempty sep cur s : split_aux sep cur s <> [].
Proof.
  revert cur. induction s as [|c r IH]; intros cur; simpl.
  - discriminate.
  - destruct (c =? sep)%N; [discriminate | apply IH].
Qed.

Lemma join_cons sep p rest :
  rest <> [] -> join sep (p :: rest) = p ++ sep ++ join sep rest.
Proof. destruct rest; [contradiction | reflexivity]. Qed.

Lemma split_aux_join sep cur s :
  join [sep] (split_aux sep cur s) = rev cur ++ s.
Proof.
  revert cur. induction s as [|c r IH]; intros cur.
  - simpl. rewrite app_nil_r. reflexivity.
  - cbn [split_aux]. destruct (c =? sep)%N eqn:E.
    + apply N.eqb_eq in E. subst c.
      rewrite join_cons by apply split_aux_nonempty.
      rewrite IH. reflexivity.
    + rewrite IH. simpl. rewrite <- app_assoc. reflexivity.
Qed.

(** The pieces of [s.split(sep)] put back together give [s]. *)
Lemma split_join sep s : join [sep] (split sep s) = s.
Proof. apply (split_aux_join sep [] s). Qed.

Lemma split_aux_no_sep sep cur s :
  ~ In sep cur ->
  forall piece, In piece (split_aux sep cur s) -> ~ In sep piece.
Proof.
  revert cur. induction s as [|c r IH]; intros cur Hcur piece; simpl.
  - intros [<- | []]. rewrite <- in_rev. exact Hcur.
  - destruct (c =? sep)%N eqn:E.
    + intros [<- | H].
      * rewrite <- in_rev. exact Hcur.
      * apply (IH [] (fun f => f) piece H).
    + apply IH. intros [-> | H]; [|exact (Hcur H)].
      rewrite N.eqb_refl in E. discriminate.
Qed.

(** No piece of [s.split(sep)] holds the separator. *)
Lemma split_no_sep sep s piece :
  In piece (split sep s) -> ~ In sep piece.
Proof. apply split_aux_no_sep. intros []. Qed.

End ContainsFacts.

Lemma str_eqb_eq a b : str_eqb a b = true <-> a = b.
Proof.
  unfold str_eqb. destruct (str_eq_dec a b); split; congruence.
Qed.

Lemma first_occurrences_In xs x :
  In x (first_occurrences xs) <-> In x xs.
Proof.
  induction xs as [|y r IH]; simpl; [tauto|].
  rewrite filter_In, IH, negb_true_iff.
  destruct (str_eq_dec y x) as [E|E].
  - tauto.
  - split; [tauto|]. intros [H|H]; [tauto|]. right. split; [exact H|].
    destruct (str_eqb y x) eqn:F; [|reflexivity].
    apply str_eqb_eq in F. contradiction.
Qed.

Lemma first_occurrences_NoDup xs : NoDup (first_occurrences xs).
Proof.
  induction xs as [|y r IH]; simpl; constructor.
  - rewrite filter_In, negb_true_iff. intros [_ H].
    assert (str_eqb y y = true) by (apply str_eqb_eq; reflexivity).
    congruence.
  - apply NoDup_filter. exact IH.
Qed.

Section CompareFacts.
Import Str ContainsFacts.

Variable lower_at : lowering.
Variable set_list : list str -> list str.

(** What is used of [list(set(xs))]: it holds the elements of [xs], each
    once, in some order. *)
Hypothesis set_list_In : forall xs x, In x (set_list xs) <-> In x xs.
Hypothesis set_list_NoDup : forall xs, NoDup (set_list xs).

Lemma content_lines_In text line :
  In line (content_lines text) <->
  exists raw, In raw (split NEWLINE text) /\ strip raw = line /\ line <> [].
Proof.
  unfold content_lines. rewrite in_map_iff. split.
  - intros [raw [E H]]. apply filter_In in H. destruct H as [H K].
    exists raw. repeat split; try assumption.
    subst line. destruct (strip raw); [discriminate K | discriminate].
  - intros [raw [H [E K]]]. exists raw. split; [exact E|].
    apply filter_In. split; [exact H|].
    rewrite E. destruct line; [contradiction | reflexivity].
Qed.

Lemma absent_lines_In lines other line :
  In line (absent_lines lower_at lines other) <->
  In line lines /\
  ~ Substring (normalize lower_at line) (normalize lower_at other).
Proof.
  unfold absent_lines. rewrite filter_In, negb_true_iff.
  rewrite <- contains_spec.
  destruct (contains (normalize lower_at line) (normalize lower_at other));
    intuition congruence.
Qed.

Lemma firstn_In (xs : list str) n x : In x (firstn n xs) -> In x xs.
Proof.
  intros H. rewrite <- (firstn_skipn n xs). apply in_or_app. left. exact H.
Qed.

Lemma firstn_NoDup (xs : list str) n : NoDup xs -> NoDup (firstn n xs).
Proof.
  intros H. rewrite <- (firstn_skipn n xs) in H.
  apply NoDup_app_remove_r in H. exact H.
Qed.

(** C4. Classification works on the lines of the raw texts: the text is
    split on newlines (the pieces hold no newline and, joined by
    newlines, give the text back), every piece is stripped and blank
    pieces are dropped.  A line of the original is in [missing] exactly when its
    normalised form is not a substring of the normalised candidate; a line
    of the candidate is in [extra] exactly when its normalised form is not
    a substring of the normalised original.  Hence the normalised form of
    every reported missing example is absent from the normalised
    candidate, and that of every extra example from the normalised
    original. *)
Theorem line_classification (original_text lib_text : str) :
  let c := compare_texts lower_at set_list original_text lib_text in
  (forall text,
      join [NEWLINE] (split NEWLINE text) = text /\
      (forall raw, In raw (split NEWLINE text) -> ~ In NEWLINE raw)) /\
  (forall text line,
      In line (content_lines text) <->
      exists raw, In raw (split NEWLINE text) /\ strip raw = line
                  /\ line <> []) /\
  (forall line,
      In line (missing lower_at original_text lib_text) <->
      In line (content_lines original_text) /\
      ~ Substring (normalize lower_at line) (normalize lower_at lib_text)) /\
  (forall line,
      In line (extra lower_at original_text lib_text) <->
      In line (content_lines lib_text) /\
      ~ Substring (normalize lower_at line)
                  (normalize lower_at original_text)) /\
  (forall e, In e (example_missing c) ->
             ~ Substring (normalize lower_at e)
                         (normalize lower_at lib_text)) /\
  (forall e, In e (example_extra c) ->
             ~ Substring (normalize lower_at e)
                         (normalize lower_at original_text)).
Proof.
  intros c.
  split; [intros text; split;
          [apply split_join | intros raw; apply split_no_sep]|].
  split; [exact content_lines_In|].
  split; [intros line; apply absent_lines_In|].
  split; [intros line; apply absent_lines_In|].
  split; intros e H; unfold c, compare_texts in H;
    cbn [example_missing example_extra] in H; apply firstn_In in H;
    apply (proj1 (set_list_In _ _)) in H;
    apply (proj1 (absent_lines_In _ _ _)) in H; apply H.
Qed.

(** C6. The two counts are the lengths of the classification lists as
    they are, repeats included; each example list has at most three
    elements, holds no line twice, and every element of it is in the
    corresponding classification list. *)
Theorem counts_and_examples (original_text lib_text : str) :
  let c := compare_texts lower_at set_list original_text lib_text in
  let missing := missing lower_at original_text lib_text in
  let extra := extra lower_at original_text lib_text in
  missing_lines_count c = length missing /\
  extra_lines_count c = length extra /\
  length (example_missing c) <= 3 /\
  length (example_extra c) <= 3 /\
  NoDup (example_missing c) /\
  NoDup (example_extra c) /\
  (forall e, In e (example_missing c) -> In e missing) /\
  (forall e, In e (example_extra c) -> In e extra).
Proof.
  cbv zeta. unfold compare_texts.
  cbn [missing_lines_count extra_lines_count example_missing example_extra].
  repeat split; try apply firstn_le_length;
    try (apply firstn_NoDup, set_list_NoDup);
    intros e H; apply firstn_In in H;
    apply (proj1 (set_list_In _ _)) in H; exact H.
Qed.

End CompareFacts.

Lemma line_classification_witness :
  In s_line_b
     (example_missing
        (compare_texts ascii_lower first_occurrences
                       s_original s_candidate)) /\
  ~ Substring (normalize ascii_lower s_line_b)
              (normalize ascii_lower s_candidate).
Proof.
  assert (H : In s_line_b
                (example_missing
                   (compare_texts ascii_lower first_occurrences
                                  s_original s_candidate)))
    by (left; reflexivity).
  split; [exact H|].
  exact (proj1 (proj2 (proj2 (proj2 (proj2
           (line_classification ascii_lower first_occurrences
              first_occurrences_In s_original s_candidate))))) s_line_b H).
Defined.

Lemma counts_and_examples_witness :
  missing_lines_count
    (compare_texts ascii_lower first_occurrences s_original s_candidate) = 2
  /\ length (example_missing
       (compare_texts ascii_lower first_occurrences s_original s_candidate))
     = 1.
Proof.
  pose proof (counts_and_examples ascii_lower first_occurrences
                first_occurrences_In first_occurrences_NoDup
                s_original s_candidate) as H.
  split; [rewrite (proj1 H)|]; reflexivity.
Defined.

(** ** The similarity score *)

Section SimilarityFacts.

Variable lower_at : lowering.
Variable set_list : list str -> list str.

Lemma calculate_ratio_inj m1 m2 total :
  total <> 0 ->
  (Difflib.calculate_ratio m1 total * 100 ==
   Difflib.calculate_ratio m2 total * 100)%Q ->
  m1 = m2.
Proof.
  intros Ht H. unfold Difflib.calculate_ratio in H.
  destruct (total =? 0) eqn:E; [apply Nat.eqb_eq in E; contradiction|].
  apply Qmult_inj_r in H; [|discriminate].
  unfold Qdiv in H. apply Qmult_inj_r in H.
  - apply Qmult_inj_l in H; [|discriminate].
    apply Nat2Z.inj. unfold Qeq in H. simpl in H. lia.
  - intros K.
    assert (Z : (inject_Z (Z.of_nat total) == 0)%Q)
      by (rewrite <- (Qinv_involutive (inject_Z (Z.of_nat total))), K;
          reflexivity).
    unfold Qeq in Z. simpl in Z. lia.
Qed.

(** C3, as amended.  The score is computed from the matched-character
    total [M] that the matcher finds with the normalised first argument as
    its first sequence, and from the sum of the two normalised lengths.
    The sum is the same in both orders, so the unrounded scores of
    [compare(A, B)] and [compare(B, A)] are equal exactly when
    [M(A, B) = M(B, A)], and then the reported similarities are equal. *)
Theorem similarity_symmetric_iff_matches (A B : str) :
  let nA := normalize lower_at A in
  let nB := normalize lower_at B in
  ((similarity_percent lower_at A B == similarity_percent lower_at B A)%Q
   <-> Difflib.matches nA nB = Difflib.matches nB nA) /\
  (Difflib.matches nA nB = Difflib.matches nB nA ->
   similarity (compare_texts lower_at set_list A B)
   = similarity (compare_texts lower_at set_list B A)).
Proof.
  intros nA nB.
  assert (Hsym : Difflib.matches nA nB = Difflib.matches nB nA ->
                 similarity_percent lower_at A B
                 = similarity_percent lower_at B A).
  { intros H. unfold similarity_percent, Difflib.ratio. fold nA nB.
    rewrite H, (Nat.add_comm (length nA)). reflexivity. }
  split; [split|].
  - unfold similarity_percent, Difflib.ratio. fold nA nB.
    rewrite (Nat.add_comm (length nB)).
    destruct (Nat.eq_dec (length nA + length nB) 0) as [E|E].
    + intros _. destruct nA, nB; simpl in E; try discriminate. reflexivity.
    + apply calculate_ratio_inj. exact E.
  - intros H. rewrite (Hsym H). reflexivity.
  - intros H. unfold compare_texts. cbn [similarity].
    rewrite (Hsym H). reflexivity.
Qed.

End SimilarityFacts.

(** C3, as claimed, fails: "tide" against "diet" scores 25.0, "diet"
    against "tide" scores 50.0. *)
Lemma similarity_not_symmetric :
  similarity (compare_texts ascii_lower first_occurrences s_tide s_diet)
  <> similarity (compare_texts ascii_lower first_occurrences s_diet s_tide).
Proof. vm_compute. discriminate. Qed.

Lemma similarity_symmetric_iff_matches_witness :
  similarity (compare_texts ascii_lower first_occurrences s_ab s_ba)
  = similarity (compare_texts ascii_lower first_occurrences s_ba s_ab).
Proof.
  apply (proj2 (similarity_symmetric_iff_matches
                  ascii_lower first_occurrences s_ab s_ba)).
  reflexivity.
Defined.

(** ** The verdict bands *)

Lemma Qgtb_lt x y : Qgtb x y = true <-> (y < x)%Q.
Proof.
  unfold Qgtb. rewrite negb_true_iff. split.
  - intros H. apply Qnot_le_lt. intros K.
    apply Qle_bool_iff in K. congruence.
  - intros H. destruct (Qle_bool x y) eqn:E; [|reflexivity].
    apply Qle_bool_iff in E. exfalso. exact (Qlt_not_le _ _ H E).
Qed.

Lemma Qgtb_le x y : Qgtb x y = false <-> (x <= y)%Q.
Proof.
  unfold Qgtb. rewrite negb_false_iff. apply Qle_bool_iff.
Qed.

(** The bands of the code: above 80; above 50 up to 80; 50 and below. *)
Lemma similarity_verdict_bands (s : Q) :
  (similarity_verdict s = HighSimilarity <-> (80 < s)%Q) /\
  (similarity_verdict s = ModerateSimilarity <-> (50 < s /\ s <= 80)%Q) /\
  (similarity_verdict s = LowSimilarity <-> (s <= 50)%Q).
Proof.
  unfold similarity_verdict.
  destruct (Qgtb s 80) eqn:E1; [apply Qgtb_lt in E1 | apply Qgtb_le in E1];
    (destruct (Qgtb s 50) eqn:E2;
     [apply Qgtb_lt in E2 | apply Qgtb_le in E2]);
    unfold Qlt, Qle in *; simpl in *;
    repeat split; intros; try discriminate; try reflexivity; lia.
Qed.

(** C7.  The claim puts a similarity of exactly 50 in the moderate band.
    On the code, "diet" against "tide" has similarity 50.0 and the report
    opens with the low verdict, the sentence that says "less than 50%":
    the second test is [similarity > 50].  The first line of the returned
    text is that sentence. *)
Theorem verdict_at_fifty :
  let c := compare_texts ascii_lower first_occurrences s_diet s_tide in
  (similarity c == 50)%Q /\
  hd_error (analysis c) = Some LowSimilarity /\
  similarity_verdict 50 = LowSimilarity /\
  hd_error (Str.split Str.NEWLINE (generate_ai_analysis c))
  = Some LOW_SIMILARITY_TEXT.
Proof. vm_compute. repeat split. Qed.

(** ** The batch loops *)

Section LoopFacts.

Variable lower_at : lowering.
Variable set_list : list str -> list str.
Variable w : world.

Lemma has_keys_cells r :
  has_keys r = true ->
  exists cell_url cell_text,
    row_get r KEY_URL = inr cell_url /\
    row_get r KEY_LIB_TEXT = inr cell_text /\
    row_url r = Str.strip cell_url /\
    row_lib_text r = Str.strip cell_text.
Proof.
  unfold has_keys, row_url, row_lib_text.
  destruct (row_get r KEY_URL) as [e|u]; [discriminate|].
  destruct (row_get r KEY_LIB_TEXT) as [e|t]; [discriminate|].
  intros _. exists u, t. repeat split.
Qed.

(** A skipped row in the first loop: one log line, nothing else. *)
Lemma first_loop_body_skipped idx r st :
  has_keys r = true -> skipped r = true ->
  first_loop_body lower_at set_list w idx r st =
  (inr tt, mkRun (trace st ++ [Print (MsgSkipEmpty (idx + 1))]) (results st)).
Proof.
  intros Hk Hs. destruct (has_keys_cells r Hk) as [u [t [Hu [Ht [Eu Et]]]]].
  unfold skipped in Hs. rewrite Et in Hs.
  unfold first_loop_body. rewrite Hu, Ht, Hs. reflexivity.
Qed.

(** A row that is not skipped, in the first loop: one GET, one record. *)
Lemma first_loop_body_processed idx r st :
  has_keys r = true -> skipped r = false ->
  exists st',
    first_loop_body lower_at set_list w idx r st = (inr tt, st') /\
    results st' = results st ++
                  [fetched_record lower_at set_list w (gets (trace st))
                                  (row_url r) (row_lib_text r)] /\
    gets (trace st') = S (gets (trace st)) /\
    filter is_report (trace st') = filter is_report (trace st).
Proof.
  intros Hk Hs. destruct (has_keys_cells r Hk) as [u [t [Hu [Ht [Eu Et]]]]].
  unfold skipped in Hs. rewrite Et in Hs.
  unfold first_loop_body. rewrite Hu, Ht, Hs.
  unfold bind. rewrite row_try_eq. unfold fetched_record.
  rewrite Eu, Et.
  destruct (page w (gets (trace st)) (Str.strip u)) as [e|page_text].
  - eexists. split; [reflexivity|]. cbn [results trace].
    rewrite gets_app, filter_app. simpl. rewrite app_nil_r.
    repeat split. unfold gets. simpl. lia.
  - cbv beta iota zeta.
    destruct (Str.startswith OSHIBKA (Str.strip (Str.sub_nl page_text)));
      (eexists; split; [reflexivity|]); cbn [results trace];
      rewrite gets_app, filter_app; simpl; rewrite app_nil_r;
      repeat split; unfold gets; simpl; lia.
Qed.

(** The first loop over rows that all carry both labels: it runs to the
    end, whatever the GETs give, and appends one record per row that is
    not skipped. *)
Lemma first_loop_eq rs :
  forallb has_keys rs = true ->
  forall idx st,
  exists st',
    for_rows (first_loop_body lower_at set_list w) idx rs st = (inr tt, st') /\
    results st' = results st ++
                  fetched_records lower_at set_list w (gets (trace st)) rs /\
    gets (trace st') = gets (trace st) + length (processed rs) /\
    filter is_report (trace st') = filter is_report (trace st).
Proof.
  induction rs as [|r rs IH]; intros Hall idx st.
  - exists st. simpl. rewrite app_nil_r, Nat.add_0_r. repeat split.
  - simpl in Hall. apply andb_prop in Hall. destruct Hall as [Hk Hall].
    cbn [for_rows fetched_records processed filter]. unfold bind.
    destruct (skipped r) eqn:Hs.
    + rewrite (first_loop_body_skipped idx r st Hk Hs).
      destruct (IH Hall (S idx)
                   (mkRun (trace st ++ [Print (MsgSkipEmpty (idx + 1))])
                          (results st)))
        as [st' [E [R [G F]]]].
      exists st'. split; [exact E|]. cbn [results trace negb] in *.
      rewrite gets_app in R, G. rewrite filter_app in F.
      simpl in R, G, F. rewrite Nat.add_0_r in R, G.
      rewrite app_nil_r in F. repeat split; assumption.
    + destruct (first_loop_body_processed idx r st Hk Hs)
        as [st1 [E1 [R1 [G1 F1]]]].
      rewrite E1.
      destruct (IH Hall (S idx) st1) as [st' [E [R [G F]]]].
      exists st'. split; [exact E|]. cbn [negb length].
      rewrite R, R1, G, G1, F, F1, <- app_assoc. fold (processed rs).
      repeat split. lia.
Qed.

(** A skipped row in the second loop: two log lines, nothing else. *)
Lemma second_loop_body_skipped total idx r st :
  has_keys r = true -> skipped r = true ->
  second_loop_body lower_at set_list w total idx r st =
  (inr tt,
   mkRun (trace st ++ [Print (MsgProgress (idx + 1) total (row_url r));
                       Print MsgSkipEmpty2])
         (results st)).
Proof.
  intros Hk Hs. destruct (has_keys_cells r Hk) as [u [t [Hu [Ht [Eu Et]]]]].
  unfold skipped in Hs. rewrite Et in Hs.
  unfold second_loop_body. rewrite Hu, Ht, Eu. unfold bind, emit.
  cbn [fst snd trace results]. rewrite Hs.
  cbn [fst snd trace results]. rewrite <- app_assoc. reflexivity.
Qed.

(** A row that is not skipped, in the second loop: one more GET and one
    more record. *)
Lemma second_loop_body_processed total idx r st :
  has_keys r = true -> skipped r = false ->
  exists st',
    second_loop_body lower_at set_list w total idx r st = (inr tt, st') /\
    length (results st') = S (length (results st)) /\
    gets (trace st') = S (gets (trace st)) /\
    filter is_report (trace st') = filter is_report (trace st).
Proof.
  intros Hk Hs. destruct (has_keys_cells r Hk) as [u [t [Hu [Ht [Eu Et]]]]].
  unfold skipped in Hs. rewrite Et in Hs.
  unfold second_loop_body. rewrite Hu, Ht. unfold bind at 1, emit at 1.
  cbn [fst snd trace results]. rewrite Hs. unfold bind at 1.
  rewrite extract_text_from_url_eq. cbn [trace results].
  rewrite gets_app. change (gets [Print _]) with 0. rewrite Nat.add_0_r.
  destruct (page w (gets (trace st)) (Str.strip u)) as [e|page_text].
  - eexists. split; [reflexivity|]. cbn [results trace].
    rewrite length_app, !gets_app, !filter_app. simpl.
    rewrite !app_nil_r. repeat split; unfold gets; simpl; lia.
  - unfold after_get. cbn [trace results].
    destruct (Str.startswith OSHIBKA (Str.strip (Str.sub_nl page_text)));
      (eexists; split; [reflexivity|]); cbn [results trace];
      rewrite length_app, !gets_app, !filter_app; simpl;
      rewrite ?app_nil_r; repeat split; unfold gets; simpl; lia.
Qed.

(** The second loop over rows that all carry both labels. *)
Lemma second_loop_eq total rs :
  forallb has_keys rs = true ->
  forall idx st,
  exists st',
    for_rows (second_loop_body lower_at set_list w total) idx rs st
    = (inr tt, st') /\
    length (results st') = length (results st) + length (processed rs) /\
    gets (trace st') = gets (trace st) + length (processed rs) /\
    filter is_report (trace st') = filter is_report (trace st).
Proof.
  induction rs as [|r rs IH]; intros Hall idx st.
  - exists st. simpl. rewrite !Nat.add_0_r. repeat split.
  - simpl in Hall. apply andb_prop in Hall. destruct Hall as [Hk Hall].
    cbn [for_rows processed filter]. unfold bind.
    destruct (skipped r) eqn:Hs.
    + rewrite (second_loop_body_skipped total idx r st Hk Hs).
      match goal with
      | |- context [for_rows _ _ _ ?s] =>
          destruct (IH Hall (S idx) s) as [st' [E [R [G F]]]]
      end.
      exists st'. split; [exact E|]. cbn [results trace negb] in *.
      rewrite gets_app in G. rewrite filter_app in F.
      simpl in G, F. rewrite Nat.add_0_r in G.
      rewrite app_nil_r in F. repeat split; assumption.
    + destruct (second_loop_body_processed total idx r st Hk Hs)
        as [st1 [E1 [R1 [G1 F1]]]].
      rewrite E1.
      destruct (IH Hall (S idx) st1) as [st' [E [R [G F]]]].
      exists st'. split; [exact E|]. cbn [negb length].
      rewrite R, R1, G, G1, F, F1. fold (processed rs).
      repeat split; lia.
Qed.

Lemma fetched_records_length k rs :
  length (fetched_records lower_at set_list w k rs) = length (processed rs).
Proof.
  revert k. induction rs as [|r rs IH]; intros k; simpl; [reflexivity|].
  destruct (skipped r); simpl; rewrite IH; reflexivity.
Qed.

End LoopFacts.

(** ** The whole run *)

Section MainFacts.

Variable lower_at : lowering.
Variable set_list : list str -> list str.
Variable w : world.

(** A run whose table loads and whose rows carry both labels: every row
    goes through the first loop, the records are handed to reporting, and
    (unless reporting raises) every row goes through the second loop. *)
Lemma main_loaded df :
  read_csv w = inr df ->
  columns_present lower_at df = true ->
  forallb has_keys (rows df) = true ->
  let n := length (processed (rows df)) in
  let rs := fetched_records lower_at set_list w 0 (rows df) in
  exists st',
    run_main lower_at set_list w = (inr tt, st') /\
    filter is_report (trace st') = [Report rs] /\
    match reporting w rs with
    | None => gets (trace st') = 2 * n /\ length (results st') = 2 * n
    | Some e => gets (trace st') = n /\ results st' = rs
    end.
Proof.
  intros Hread Hcols Hkeys n rs.
  unfold run_main, main, main_try. rewrite Hread, Hcols.
  unfold bind at 1, emit at 1. cbn [fst snd trace results start app].
  unfold bind at 1, emit at 1. cbn [fst snd trace results start app].
  unfold bind at 1. cbn [negb].
  unfold bind at 1, emit at 1. cbn [fst snd trace results start app].
  unfold bind at 1.
  match goal with
  | |- context [for_rows _ 0 _ ?s] =>
      destruct (first_loop_eq lower_at set_list w (rows df) Hkeys 0 s)
        as [st1 [E1 [R1 [G1 F1]]]]
  end.
  rewrite E1. cbn [results trace app] in R1, G1, F1.
  change (gets [Print MsgBanner; Print MsgLoading;
                Print (MsgFound (length (rows df)))]) with 0 in R1, G1.
  simpl in F1. simpl in G1. fold rs in R1. fold n in G1.
  rewrite R1. unfold emit. cbn [fst snd].
  destruct (reporting w rs) as [e|] eqn:Hrep.
  - eexists. split; [reflexivity|]. cbn [trace results].
    rewrite !filter_app, !gets_app, F1, G1. simpl.
    repeat split; try assumption. unfold gets. simpl. lia.
  - unfold bind at 1. cbn [fst snd trace results].
    match goal with
    | |- context [for_rows ?b 0 _ ?s] =>
        destruct (second_loop_eq lower_at set_list w (length (rows df))
                                 (rows df) Hkeys 0 s)
          as [st2 [E2 [R2 [G2 F2]]]]
    end.
    exists st2. split; [exact E2|].
    cbn [trace results] in R2, G2, F2.
    rewrite !filter_app, F1 in F2. simpl in F2.
    rewrite !gets_app, G1 in G2. fold n in R2, G2.
    change (gets [Report rs]) with 0 in G2.
    change (gets [Print (MsgFound (length (rows df)))]) with 0 in G2.
    rewrite R1 in R2.
    unfold rs in R2 at 1. rewrite fetched_records_length in R2. fold n in R2.
    repeat split; try assumption; lia.
Qed.

(** A run whose table does not load, or lacks a label: nothing is
    fetched, recorded or reported. *)
Lemma main_not_loaded :
  (exists e, read_csv w = inl e) \/
  (exists df, read_csv w = inr df /\ columns_present lower_at df = false) ->
  exists tr,
    run_main lower_at set_list w = (inr tt, mkRun tr []) /\
    gets tr = 0 /\ filter is_report tr = [].
Proof.
  intros [[e H] | [df [H K]]]; unfold run_main, main, main_try;
    rewrite H; [|rewrite K]; eexists; (split; [reflexivity|]);
    split; reflexivity.
Qed.

End MainFacts.

Section BatchClaims.

Variable lower_at : lowering.
Variable set_list : list str -> list str.
Variable w : world.

(** A row whose candidate, as [str] gives it, is empty once stripped (a
    cell of white space only) is skipped in both loops: the round writes
    its log lines and does nothing else, so no GET is issued,
    [compare_texts] is not called, and no record, of failure or
    otherwise, is appended to [results] or handed to reporting. *)
Theorem empty_candidate_skipped (total idx k : nat) (r : row)
        (rs : list row) (st : run) :
  has_keys r = true ->
  skipped r = true ->
  first_loop_body lower_at set_list w idx r st =
  (inr tt,
   mkRun (trace st ++ [Print (MsgSkipEmpty (idx + 1))]) (results st)) /\
  second_loop_body lower_at set_list w total idx r st =
  (inr tt,
   mkRun (trace st ++ [Print (MsgProgress (idx + 1) total (row_url r));
                       Print MsgSkipEmpty2])
         (results st)) /\
  fetched_records lower_at set_list w k (r :: rs) =
  fetched_records lower_at set_list w k rs.
Proof.
  intros Hk Hs. split; [|split].
  - apply first_loop_body_skipped; assumption.
  - apply second_loop_body_skipped; assumption.
  - simpl. rewrite Hs. reflexivity.
Qed.


End BatchClaims.

Lemma empty_candidate_skipped_witness :
  first_loop_body ascii_lower first_occurrences (world_ok [row_blank])
                  0 row_blank start =
  (inr tt, mkRun [Print (MsgSkipEmpty 1)] []).
Proof.
  exact (proj1 (empty_candidate_skipped
                  ascii_lower first_occurrences (world_ok [row_blank])
                  1 0 0 row_blank [] start eq_refl eq_refl)).
Defined.


(** C2. The claim is one GET and one record per row that is not skipped.
    On the code, a table of one row with URL "u" and candidate "t", pages
    that load and reporting that succeeds: the run issues two GETs for "u"
    and appends two records for it, one before the hand-off to reporting
    and one after, because [main] goes through the rows a second time
    after its [try] block. *)
Theorem one_row_fetched_twice :
  let st := snd (run_main ascii_lower first_occurrences
                          (world_ok [row_ut])) in
  processed [row_ut] = [row_ut] /\
  filter is_get (trace st) = [Get s_u; Get s_u] /\
  map record_url (results st) = [s_u; s_u] /\
  (exists r, filter is_report (trace st) = [Report [r]]).
Proof.
  vm_compute. repeat split. eexists. reflexivity.
Qed.

(** C8. The claim is that a row with an empty candidate never reaches the
    comparator.  On the code, a candidate field that is empty in the file
    is the cell NaN, of which [str] gives "nan": the test of line 449
    sees a text that is not empty.  For the row "u," the run writes no
    "skipped" line, fetches "u" in both loops, compares the page with
    "nan" and hands a success record to reporting. *)
Theorem empty_cell_compared :
  (forall url_cell : cell,
      skipped (str_row [(KEY_URL, url_cell); (KEY_LIB_TEXT, NaN)])
      = false) /\
  let r := str_row row_empty_cell in
  let st := snd (run_main ascii_lower first_occurrences (world_ok [r])) in
  row_lib_text r = s_nan /\
  filter is_skip_line (trace st) = [] /\
  filter is_get (trace st) = [Get s_u; Get s_u] /\
  filter is_compare (trace st)
  = [Compare s_x s_nan; Compare s_x s_nan] /\
  filter is_report (trace st)
  = [Report [Success s_u (compare_texts ascii_lower first_occurrences
                                        s_x s_nan)]] /\
  map is_success (results st) = [true; true].
Proof.
  split; [intros url_cell; reflexivity|].
  vm_compute. repeat split.
Qed.

(** C9. The claim is that only a failure to load the table halts the
    run.  On the code, a table under the header "url,lib_text" loads and
    passes the test of line 439, which ignores case; line 446 then reads
    [row['URL']], the KeyError is raised outside the per-row [try] and
    leaves the loop through the outer [except].  With one row whose fetch
    would fail with "404": nothing is fetched, no record is built,
    nothing is handed to reporting, and the run ends with the "file could
    not be processed" line.  The same row under the header
    "URL,lib_text" gives the [Failure] record the claim describes. *)
Theorem lowercase_label_halts_run :
  let out := run_main ascii_lower first_occurrences world_lower_404 in
  let st := snd out in
  (exists df,
      read_csv world_lower_404 = inr df /\
      columns_present ascii_lower df = true /\
      length (rows df) = 1) /\
  fst out = inr tt /\
  filter is_get (trace st) = [] /\
  results st = [] /\
  filter is_report (trace st) = [] /\
  last (trace st) (Print MsgBanner)
  = Print (MsgFileError ([39]%N ++ KEY_URL ++ [39]%N)) /\
  filter is_report
    (trace (snd (run_main ascii_lower first_occurrences
                          (world_404 [row_ut]))))
  = [Report [Failure s_u (OSHIBKA_COLON ++ s_404)]].
Proof.
  split; [eexists; split; [reflexivity|split; reflexivity]|].
  vm_compute. repeat split.
Qed.

(** ** The matcher always answers *)

Module DifflibFacts.
Import Difflib.

Section Bounds.

Variables a b : str.

Lemma get_pred_le d j bound :
  (forall j', get d j' <= bound) -> get_pred d j <= bound.
Proof. intros H. destruct j; simpl; [lia | apply H]. Qed.

(** One row of the scan keeps the run lengths and the best match inside
    the part of [a] read so far. *)
Lemma scan_row_bounds alo blo bhi i j2len js :
  alo <= i ->
  (forall j, get j2len j <= i - alo) ->
  forall newj2len best,
    (forall j, get newj2len j <= S i - alo) ->
    alo <= m_a best -> m_a best + m_size best <= S i ->
    let '(d, best') := scan_row blo bhi i j2len js newj2len best in
    (forall j, get d j <= S i - alo) /\
    alo <= m_a best' /\ m_a best' + m_size best' <= S i.
Proof.
  intros Hi Hd. induction js as [|j js IH]; intros newj2len best Hn Hb1 Hb2.
  - cbn [scan_row]. auto.
  - cbn [scan_row]. destruct (j <? blo); [apply IH; assumption|].
    destruct (bhi <=? j); [auto|].
    pose proof (@get_pred_le j2len j (i - alo) Hd) as Hk. cbv zeta.
    apply IH.
    + intros j'. cbn [get]. destruct (j =? j'); [lia | apply Hn].
    + destruct (m_size best <? get_pred j2len j + 1);
        cbn [m_a m_size]; lia.
    + destruct (m_size best <? get_pred j2len j + 1);
        cbn [m_a m_size]; lia.
Qed.

Lemma scan_rows_bounds alo blo bhi len :
  forall s j2len best,
    alo <= s ->
    (forall j, get j2len j <= s - alo) ->
    alo <= m_a best -> m_a best + m_size best <= s ->
    let x := scan_rows a b blo bhi (seq s len) j2len best in
    alo <= m_a x /\ m_a x + m_size x <= s + len.
Proof.
  induction len as [|len IH]; intros s j2len best Hs Hd Hb1 Hb2.
  - simpl. lia.
  - cbn [seq scan_rows].
    pose proof (@scan_row_bounds alo blo bhi s j2len (b2j b (at_a a s))
                                 Hs Hd [] best) as H.
    destruct (scan_row blo bhi s j2len (b2j b (at_a a s)) [] best)
      as [d best'].
    destruct H as [Hd' [Hb1' Hb2']]; [intros j; simpl; lia | lia | lia |].
    specialize (IH (S s) d best'). cbv zeta in IH.
    destruct IH as [H1 H2]; try assumption; [lia|].
    split; [exact H1 | lia].
Qed.

Lemma extend_left_bounds alo blo besti :
  forall bestj bestsize,
    alo <= besti ->
    let x := extend_left a b alo blo besti bestj bestsize in
    alo <= m_a x /\ m_a x + m_size x = besti + bestsize.
Proof.
  induction besti as [|i IH]; intros bestj bestsize H.
  - simpl. lia.
  - cbn [extend_left]. destruct bestj as [|j]; [simpl; lia|].
    destruct ((alo <? S i) && (blo <? S j) && (at_a a i =? at_b b j)%N)
      eqn:E; [|simpl; lia].
    apply andb_prop in E. destruct E as [E _].
    apply andb_prop in E. destruct E as [E _]. apply Nat.ltb_lt in E.
    specialize (IH j (S bestsize)). cbv zeta in IH.
    destruct IH as [H1 H2]; [lia|]. split; [exact H1 | lia].
Qed.

Lemma extend_right_bounds ahi bhi besti bestj fuel :
  forall bestsize,
    besti + bestsize <= ahi ->
    let x := extend_right a b fuel ahi bhi besti bestj bestsize in
    m_a x = besti /\ m_a x + m_size x <= ahi.
Proof.
  induction fuel as [|fuel IH]; intros bestsize H.
  - simpl. lia.
  - cbn [extend_right].
    destruct ((besti + bestsize <? ahi) && (bestj + bestsize <? bhi)
              && (at_a a (besti + bestsize) =? at_b b (bestj + bestsize))%N)
      eqn:E; [|simpl; lia].
    apply andb_prop in E. destruct E as [E _].
    apply andb_prop in E. destruct E as [E _]. apply Nat.ltb_lt in E.
    apply IH. lia.
Qed.

(** The block found lies inside the range of [a] that was searched. *)
Lemma find_longest_match_bounds alo ahi blo bhi :
  alo <= ahi ->
  let x := find_longest_match a b alo ahi blo bhi in
  alo <= m_a x /\ m_a x + m_size x <= ahi.
Proof.
  intros H. unfold find_longest_match.
  pose proof (@scan_rows_bounds alo blo bhi (ahi - alo) alo []
                                (mkMatch alo blo 0)) as H0.
  cbv zeta in H0. simpl m_a in H0. simpl m_size in H0.
  destruct H0 as [H1 H2]; try lia; [intros j; simpl; lia|].
  set (m0 := scan_rows a b blo bhi (seq alo (ahi - alo)) []
                       (mkMatch alo blo 0)) in *.
  pose proof (@extend_left_bounds alo blo (m_a m0) (m_b m0) (m_size m0) H1)
    as H3.
  cbv zeta in H3.
  set (m1 := extend_left a b alo blo (m_a m0) (m_b m0) (m_size m0)) in *.
  destruct H3 as [H3 H4].
  pose proof (@extend_right_bounds ahi bhi (m_a m1) (m_b m1)
                (ahi - (m_a m1 + m_size m1)) (m_size m1)) as H5.
  cbv zeta in H5. destruct H5 as [H5 H6]; [lia|].
  cbv zeta. rewrite H5 in *. split; [exact H3 | exact H6].
Qed.

(** The queue is empty before the fuel is. *)
Lemma blocks_loop_total fuel :
  forall queue matching_blocks,
    Forall range_ok queue ->
    queue_weight queue <= fuel ->
    exists blocks, blocks_loop a b fuel queue matching_blocks = Some blocks.
Proof.
  induction fuel as [|fuel IH]; intros queue acc Hok Hw.
  - destruct queue as [|[[[alo ahi] blo] bhi] queue].
    + exists acc. reflexivity.
    + simpl in Hw. lia.
  - destruct queue as [|[[[alo ahi] blo] bhi] queue].
    + exists acc. reflexivity.
    + inversion Hok as [|? ? Hr Hq]; subst. simpl in Hr.
      cbn [queue_weight fold_right] in Hw. fold (queue_weight queue) in Hw.
      cbn [blocks_loop].
      pose proof (@find_longest_match_bounds alo ahi blo bhi Hr) as Hb.
      cbv zeta in Hb.
      set (x := find_longest_match a b alo ahi blo bhi) in *.
      destruct Hb as [Hb1 Hb2].
      destruct (m_size x =? 0) eqn:Ek.
      * apply IH; [exact Hq | lia].
      * apply Nat.eqb_neq in Ek.
        apply IH.
        -- destruct ((alo <? m_a x) && (blo <? m_b x)) eqn:E1;
             destruct ((m_a x + m_size x <? ahi)
                       && (m_b x + m_size x <? bhi)) eqn:E2;
             repeat constructor; try assumption; simpl; lia.
        -- destruct ((alo <? m_a x) && (blo <? m_b x)) eqn:E1;
             destruct ((m_a x + m_size x <? ahi)
                       && (m_b x + m_size x <? bhi)) eqn:E2;
             cbn [queue_weight fold_right]; fold (queue_weight queue); lia.
Qed.

End Bounds.

(** [get_matching_blocks] answers for every pair of texts. *)
Lemma get_matching_blocks_total (a b : str) :
  exists blocks, get_matching_blocks a b = Some blocks.
Proof.
  unfold get_matching_blocks.
  destruct (@blocks_loop_total a b (2 * length a + 1)
              [(0, length a, 0, length b)] []) as [blocks E].
  - repeat constructor. simpl. lia.
  - simpl. lia.
  - rewrite E. eexists. reflexivity.
Qed.

End DifflibFacts.

(** ** The matched total is bounded by both lengths *)

Module DifflibSums.
Import Difflib DifflibFacts.

Section BoundsB.

Variables a b : str.

Lemma get_pred_le_b d j blo :
  (forall j', get d j' <= j' + 1 - blo) -> blo <= j ->
  get_pred d j <= j - blo.
Proof.
  intros H Hj. destruct j as [|j]; cbn [get_pred]; [lia|].
  specialize (H j). lia.
Qed.

(** One row of the scan keeps the best match inside the searched part
    of [b]. *)
Lemma scan_row_bounds_b blo bhi i j2len js :
  (forall j, get j2len j <= j + 1 - blo) ->
  forall newj2len best,
    (forall j, get newj2len j <= j + 1 - blo) ->
    blo <= m_b best -> m_b best + m_size best <= Nat.max blo bhi ->
    let '(d, best') := scan_row blo bhi i j2len js newj2len best in
    (forall j, get d j <= j + 1 - blo) /\
    blo <= m_b best' /\ m_b best' + m_size best' <= Nat.max blo bhi.
Proof.
  intros Hd. induction js as [|j js IH]; intros newj2len best Hn Hb1 Hb2.
  - cbn [scan_row]. auto.
  - cbn [scan_row]. destruct (j <? blo) eqn:E1; [apply IH; assumption|].
    destruct (bhi <=? j) eqn:E2; [auto|].
    apply Nat.ltb_ge in E1. apply Nat.leb_gt in E2.
    pose proof (@get_pred_le_b j2len j blo Hd E1) as Hk. cbv zeta.
    apply IH.
    + intros j'. cbn [get]. destruct (j =? j') eqn:E3; [|apply Hn].
      apply Nat.eqb_eq in E3. subst j'. lia.
    + destruct (m_size best <? get_pred j2len j + 1);
        cbn [m_b m_size]; lia.
    + destruct (m_size best <? get_pred j2len j + 1);
        cbn [m_b m_size]; lia.
Qed.

Lemma scan_rows_bounds_b blo bhi idxs :
  forall j2len best,
    (forall j, get j2len j <= j + 1 - blo) ->
    blo <= m_b best -> m_b best + m_size best <= Nat.max blo bhi ->
    let x := scan_rows a b blo bhi idxs j2len best in
    blo <= m_b x /\ m_b x + m_size x <= Nat.max blo bhi.
Proof.
  induction idxs as [|i idxs IH]; intros j2len best Hd Hb1 Hb2.
  - cbn [scan_rows]. auto.
  - cbn [scan_rows].
    pose proof (@scan_row_bounds_b blo bhi i j2len (b2j b (at_a a i)) Hd
                                   [] best) as H.
    destruct (scan_row blo bhi i j2len (b2j b (at_a a i)) [] best)
      as [d best'].
    destruct H as [Hd' [Hb1' Hb2']]; [intros j; simpl; lia | lia | lia |].
    apply IH; assumption.
Qed.

Lemma extend_left_bounds_b alo blo besti :
  forall bestj bestsize,
    blo <= bestj ->
    let x := extend_left a b alo blo besti bestj bestsize in
    blo <= m_b x /\ m_b x + m_size x = bestj + bestsize.
Proof.
  induction besti as [|i IH]; intros bestj bestsize H.
  - simpl. lia.
  - cbn [extend_left]. destruct bestj as [|j]; [simpl; lia|].
    destruct ((alo <? S i) && (blo <? S j) && (at_a a i =? at_b b j)%N)
      eqn:E; [|simpl; lia].
    apply andb_prop in E. destruct E as [E _].
    apply andb_prop in E. destruct E as [_ E]. apply Nat.ltb_lt in E.
    specialize (IH j (S bestsize)). cbv zeta in IH.
    destruct IH as [H1 H2]; [lia|]. split; [exact H1 | lia].
Qed.

Lemma extend_right_bounds_b ahi bhi besti bestj fuel :
  forall bestsize,
    bestj + bestsize <= bhi ->
    let x := extend_right a b fuel ahi bhi besti bestj bestsize in
    m_b x = bestj /\ m_b x + m_size x <= bhi.
Proof.
  induction fuel as [|fuel IH]; intros bestsize H.
  - simpl. lia.
  - cbn [extend_right].
    destruct ((besti + bestsize <? ahi) && (bestj + bestsize <? bhi)
              && (at_a a (besti + bestsize) =? at_b b (bestj + bestsize))%N)
      eqn:E; [|simpl; lia].
    apply andb_prop in E. destruct E as [E _].
    apply andb_prop in E. destruct E as [_ E]. apply Nat.ltb_lt in E.
    apply IH. lia.
Qed.

(** The block found lies inside the range of [b] that was searched. *)
Lemma find_longest_match_bounds_b alo ahi blo bhi :
  blo <= bhi ->
  let x := find_longest_match a b alo ahi blo bhi in
  blo <= m_b x /\ m_b x + m_size x <= bhi.
Proof.
  intros H. unfold find_longest_match.
  pose proof (@scan_rows_bounds_b blo bhi (seq alo (ahi - alo)) []
                                  (mkMatch alo blo 0)) as H0.
  cbv zeta in H0. cbn [m_b m_size] in H0.
  destruct H0 as [H1 H2]; try lia; [intros j; simpl; lia|].
  set (m0 := scan_rows a b blo bhi (seq alo (ahi - alo)) []
                       (mkMatch alo blo 0)) in *.
  pose proof (@extend_left_bounds_b alo blo (m_a m0) (m_b m0) (m_size m0) H1)
    as H3.
  cbv zeta in H3.
  set (m1 := extend_left a b alo blo (m_a m0) (m_b m0) (m_size m0)) in *.
  destruct H3 as [H3 H4].
  pose proof (@extend_right_bounds_b ahi bhi (m_a m1) (m_b m1)
                (ahi - (m_a m1 + m_size m1)) (m_size m1)) as H5.
  cbv zeta in H5. destruct H5 as [H5 H6]; [lia|].
  cbv zeta. rewrite H5 in *. split; [exact H3 | exact H6].
Qed.

Lemma total_size_app l1 l2 :
  total_size (l1 ++ l2) = total_size l1 + total_size l2.
Proof.
  induction l1 as [|x l1 IH]; simpl; [reflexivity|]. rewrite IH. lia.
Qed.

(** The blocks found fit side by side in the ranges searched, in [a] and
    in [b]. *)
Lemma blocks_loop_sizes fuel :
  forall queue acc blocks,
    Forall ranges_ok queue ->
    blocks_loop a b fuel queue acc = Some blocks ->
    total_size blocks <= total_size acc + a_width queue /\
    total_size blocks <= total_size acc + b_width queue.
Proof.
  induction fuel as [|fuel IH]; intros queue acc blocks Hok E.
  - destruct queue as [|[[[alo ahi] blo] bhi] queue]; simpl in E.
    + injection E as <-. simpl. lia.
    + discriminate.
  - destruct queue as [|[[[alo ahi] blo] bhi] queue].
    + simpl in E. injection E as <-. simpl. lia.
    + inversion Hok as [|? ? Hr Hq]; subst.
      simpl in Hr. destruct Hr as [Hra Hrb].
      cbn [blocks_loop] in E.
      pose proof (@find_longest_match_bounds a b alo ahi blo bhi Hra) as Ha.
      pose proof (@find_longest_match_bounds_b alo ahi blo bhi Hrb) as Hb.
      cbv zeta in Ha, Hb.
      set (x := find_longest_match a b alo ahi blo bhi) in *.
      destruct Ha as [Ha1 Ha2]. destruct Hb as [Hb1 Hb2].
      cbn [a_width b_width fold_right].
      fold (a_width queue). fold (b_width queue).
      destruct (m_size x =? 0) eqn:Ek.
      * destruct (IH _ _ _ Hq E) as [H1 H2]. lia.
      * apply IH in E.
        -- rewrite total_size_app in E. simpl in E.
           destruct ((alo <? m_a x) && (blo <? m_b x)) eqn:E1;
             destruct ((m_a x + m_size x <? ahi)
                       && (m_b x + m_size x <? bhi)) eqn:E2;
             cbn [a_width b_width fold_right] in E;
             fold (a_width queue) in E; fold (b_width queue) in E; lia.
        -- destruct ((alo <? m_a x) && (blo <? m_b x)) eqn:E1;
             destruct ((m_a x + m_size x <? ahi)
                       && (m_b x + m_size x <? bhi)) eqn:E2;
             repeat match goal with
                    | H : (_ && _) = true |- _ =>
                        apply andb_prop in H; destruct H
                    | H : (_ <? _) = true |- _ => apply Nat.ltb_lt in H
                    end;
             repeat constructor; try assumption; simpl; lia.
Qed.

End BoundsB.

Lemma insert_sorted_size x l :
  total_size (insert_sorted x l) = m_size x + total_size l.
Proof.
  induction l as [|y l IH]; simpl; [reflexivity|].
  destruct (match_leb x y); simpl; [reflexivity|]. rewrite IH. lia.
Qed.

Lemma sort_size l : total_size (sort l) = total_size l.
Proof.
  induction l as [|x l IH]; simpl; [reflexivity|].
  rewrite insert_sorted_size, IH. reflexivity.
Qed.

Lemma collapse_size l :
  forall i1 j1 k1, total_size (collapse i1 j1 k1 l) = k1 + total_size l.
Proof.
  induction l as [|x l IH]; intros i1 j1 k1; cbn [collapse].
  - destruct (k1 =? 0) eqn:E; simpl; [apply Nat.eqb_eq in E|]; lia.
  - destruct ((i1 + k1 =? m_a x) && (j1 + k1 =? m_b x)).
    + rewrite IH. simpl. lia.
    + rewrite total_size_app, IH.
      destruct (k1 =? 0) eqn:E; simpl; [apply Nat.eqb_eq in E|]; lia.
Qed.

(** The matched total is at most the length of either text. *)
Lemma matches_le (a b : str) :
  matches a b <= length a /\ matches a b <= length b.
Proof.
  unfold matches, get_matching_blocks.
  destruct (blocks_loop a b (2 * length a + 1)
                        [(0, length a, 0, length b)] []) as [blocks|] eqn:E.
  - apply blocks_loop_sizes in E.
    + fold (total_size (collapse 0 0 0 (sort blocks)
                          ++ [mkMatch (length a) (length b) 0])).
      rewrite total_size_app, collapse_size, sort_size. simpl in *. lia.
    + repeat constructor; lia.
  - lia.
Qed.

End DifflibSums.

(** ** The similarity is a percentage *)

Lemma round_half_even_bounds (x : Q) (n : Z) :
  (0 <= x)%Q -> (x <= inject_Z n)%Q ->
  (0 <= round_half_even x <= n)%Z.
Proof.
  unfold Qle, round_half_even. destruct x as [p d].
  cbn [Qnum Qden inject_Z]. intros H0 H1.
  assert (D : (0 < Z.pos d)%Z) by lia.
  pose proof (Z.div_mod p (Z.pos d) ltac:(lia)) as E.
  pose proof (Z.mod_pos_bound p (Z.pos d) D) as R.
  assert (Q0 : (0 <= p / Z.pos d)%Z) by (apply Z.div_pos; lia).
  remember (Z.pos d) as dd eqn:Edd. clear Edd.
  remember (p / dd)%Z as q eqn:Eq. clear Eq.
  remember (p mod dd)%Z as r eqn:Er. clear Er.
  assert (Q1 : (q <= n)%Z) by nia.
  destruct (2 * r ?= dd)%Z eqn:C.
  - apply Z.compare_eq in C.
    destruct (Z.even q); [lia|]. nia.
  - lia.
  - apply Z.compare_gt_iff in C. nia.
Qed.

Lemma round2_bounds (x : Q) :
  (0 <= x)%Q -> (x <= 100)%Q -> (0 <= round2 x)%Q /\ (round2 x <= 100)%Q.
Proof.
  intros H0 H1.
  assert (A : (0 <= x * 100)%Q) by (apply Qmult_le_0_compat; [exact H0|discriminate]).
  assert (B : (x * 100 <= inject_Z 10000)%Q).
  { change (inject_Z 10000) with (100 * 100)%Q.
    apply Qmult_le_compat_r; [exact H1 | discriminate]. }
  pose proof (@round_half_even_bounds _ _ A B) as [R0 R1].
  unfold round2, Qle. simpl. lia.
Qed.

Lemma ratio_bounds (a b : str) :
  (0 <= Difflib.ratio a b)%Q /\ (Difflib.ratio a b <= 1)%Q.
Proof.
  unfold Difflib.ratio, Difflib.calculate_ratio.
  destruct (DifflibSums.matches_le a b) as [Ha Hb].
  destruct (length a + length b =? 0) eqn:E.
  - split; discriminate.
  - apply Nat.eqb_neq in E.
    assert (L : (0 < inject_Z (Z.of_nat (length a + length b)))%Q)
      by (unfold Qlt, inject_Z; cbn [Qnum Qden]; lia).
    split.
    + apply Qle_shift_div_l; [exact L|].
      unfold Qle, Qmult, inject_Z. cbn [Qnum Qden]. lia.
    + apply Qle_shift_div_r; [exact L|].
      unfold Qle, Qmult, inject_Z. cbn [Qnum Qden]. lia.
Qed.

Lemma similarity_bounds (lower_at : lowering)
      (set_list : list str -> list str) (original_text lib_text : str) :
  let c := compare_texts lower_at set_list original_text lib_text in
  (0 <= similarity c)%Q /\ (similarity c <= 100)%Q.
Proof.
  cbv zeta. unfold compare_texts. cbn [similarity].
  destruct (ratio_bounds (normalize lower_at original_text)
                         (normalize lower_at lib_text)) as [H0 H1].
  apply round2_bounds; unfold similarity_percent.
  - apply Qmult_le_0_compat; [exact H0 | discriminate].
  - change (100 : Q) with (1 * 100)%Q at 2.
    apply Qmult_le_compat_r; [exact H1 | discriminate].
Qed.

(** The reported similarity lies between 0 and 100, whatever the two
    texts. *)
Theorem similarity_is_percentage (lower_at : lowering)
        (set_list : list str -> list str) (original_text lib_text : str) :
  let c := compare_texts lower_at set_list original_text lib_text in
  (0 <= similarity c)%Q /\ (similarity c <= 100)%Q.
Proof. apply similarity_bounds. Qed.

(** ** One text empty *)

Module BlankFacts.
Import Str StrFacts ContainsFacts.

Lemma dropWhile_nil p s : dropWhile p s = [] <-> forallb p s = true.
Proof.
  induction s as [|c r IH]; simpl; [tauto|].
  destruct (p c); simpl; [exact IH|]. split; discriminate.
Qed.

(** [s.strip()] is empty exactly when [s] is all white space. *)
Lemma strip_nil s : strip s = [] <-> forallb isspace s = true.
Proof.
  unfold strip, rstrip. split.
  - intros H. apply (f_equal (@rev N)) in H.
    rewrite rev_involutive in H. simpl in H.
    apply dropWhile_nil in H. rewrite forallb_forall in H.
    apply dropWhile_nil.
    pose proof (dropWhile_head_ok s) as K. fold (lstrip s) in *.
    destruct (lstrip s) as [|c r]; [reflexivity|]. simpl in K.
    rewrite (H c) in K; [discriminate|].
    apply in_rev. rewrite rev_involutive. left. reflexivity.
  - intros H. apply dropWhile_nil in H. unfold lstrip. rewrite H.
    reflexivity.
Qed.

Lemma split_aux_chars sep cur s piece c :
  In piece (split_aux sep cur s) -> In c piece -> In c cur \/ In c s.
Proof.
  revert cur. induction s as [|d r IH]; intros cur; simpl.
  - intros [<- | []] H. left. apply in_rev. exact H.
  - destruct (d =? sep)%N.
    + intros [<- | H] K.
      * left. apply in_rev. exact K.
      * destruct (IH [] H K) as [[] | G]. right. right. exact G.
    + intros H K. destruct (IH (d :: cur) H K) as [[<- | G] | G]; auto.
Qed.

(** The characters of a piece of [s.split(sep)] are characters of [s]. *)
Lemma split_chars sep s piece c :
  In piece (split sep s) -> In c piece -> In c s.
Proof.
  intros H K. destruct (split_aux_chars sep [] s piece c H K) as [[] | G].
  exact G.
Qed.

(** A text of white space has no content line. *)
Lemma content_lines_blank text :
  strip text = [] -> content_lines text = [].
Proof.
  intros H. apply strip_nil in H. rewrite forallb_forall in H.
  unfold content_lines.
  replace (filter _ (split NEWLINE text)) with (@nil str); [reflexivity|].
  symmetry. induction (split NEWLINE text) as [|piece l IH] eqn:E in H |- *.
  - reflexivity.
  - assert (forall p, In p (piece :: l) -> strip p = []) as A.
    { intros p Hp. apply strip_nil. apply forallb_forall. intros c Hc.
      apply H. apply (split_chars NEWLINE text p c); [|exact Hc].
      rewrite E. exact Hp. }
    clear E IH. induction (piece :: l) as [|q m IHm]; [reflexivity|].
    simpl. rewrite (A q (or_introl eq_refl)). simpl.
    apply IHm. intros p Hp. apply A. right. exact Hp.
Qed.

Lemma content_lines_stripped text line :
  In line (content_lines text) -> strip line = line /\ line <> [].
Proof.
  unfold content_lines. rewrite in_map_iff.
  intros [raw [E H]]. apply filter_In in H. destruct H as [_ H].
  subst line. split.
  - apply strip_fix; [apply strip_head_ok | apply strip_last_ok].
  - destruct (strip raw); [discriminate H | discriminate].
Qed.

Lemma Substring_nil p : Substring p [] -> p = [].
Proof.
  intros [l [r H]]. symmetry in H. apply app_eq_nil in H.
  destruct H as [_ H]. apply app_eq_nil in H. apply H.
Qed.

End BlankFacts.

Section EmptySide.
Import Str StrFacts BlankFacts.

Variable lower_at : lowering.
Variable set_list : list str -> list str.

Hypothesis lower_nonspace :
  forall before c after,
    isspace c = false ->
    lower_at before c after <> [] /\
    forallb (fun d => negb (isspace d)) (lower_at before c after) = true.
Hypothesis set_list_In : forall xs x, In x (set_list xs) <-> In x xs.

(** A text with content has a non-empty normal form. *)
Lemma normalize_nonempty s : strip s <> [] -> normalize lower_at s <> [].
Proof.
  intros H. pose proof (strip_head_ok s) as K. unfold normalize, lower.
  destruct (strip s) as [|c r]; [contradiction|]. simpl in K.
  destruct (lower_nonspace [] c r K) as [Hne Hall]. simpl.
  destruct (lower_at [] c r) as [|d ds]; [contradiction|].
  simpl in Hall. apply andb_prop in Hall. destruct Hall as [Hd _].
  apply negb_true_iff in Hd. unfold sub_ws. simpl. rewrite Hd. discriminate.
Qed.

Lemma normalize_blank s : strip s = [] -> normalize lower_at s = [].
Proof. intros H. unfold normalize. rewrite H. reflexivity. Qed.

Lemma similarity_zero_matches A B :
  Difflib.matches (normalize lower_at A) (normalize lower_at B) = 0 ->
  length (normalize lower_at A) + length (normalize lower_at B) <> 0 ->
  similarity (compare_texts lower_at set_list A B) = Qmake 0 100.
Proof.
  intros M L. unfold compare_texts. cbn [similarity].
  unfold similarity_percent, Difflib.ratio, Difflib.calculate_ratio.
  rewrite M. apply Nat.eqb_neq in L. rewrite L. reflexivity.
Qed.

(** When the fetched text is blank (the extraction found nothing), no line
    is missing, every content line of the candidate is extra, and the
    similarity is 0, or 100 if the candidate is blank as well. *)
Theorem blank_original (original_text lib_text : str) :
  strip original_text = [] ->
  let c := compare_texts lower_at set_list original_text lib_text in
  missing_lines_count c = 0 /\
  example_missing c = [] /\
  extra_lines_count c = length (content_lines lib_text) /\
  similarity c = (if is_empty (strip lib_text)
                  then Qmake 10000 100 else Qmake 0 100).
Proof.
  intros H. cbv zeta.
  assert (M : missing lower_at original_text lib_text = []).
  { unfold missing. rewrite (content_lines_blank _ H). reflexivity. }
  assert (E : extra lower_at original_text lib_text = content_lines lib_text).
  { unfold extra, absent_lines. rewrite (normalize_blank _ H).
    apply forallb_filter_id. apply forallb_forall. intros line Hl.
    apply content_lines_stripped in Hl. destruct Hl as [Hs Hn].
    apply negb_true_iff.
    destruct (contains (normalize lower_at line) []) eqn:C; [|reflexivity].
    apply ContainsFacts.contains_spec, Substring_nil in C.
    exfalso. apply (normalize_nonempty line); [rewrite Hs; exact Hn | exact C]. }
  unfold compare_texts at 1 2 3.
  cbn [missing_lines_count example_missing extra_lines_count].
  rewrite M, E. repeat split.
  - destruct (set_list []) as [|x l] eqn:S; [reflexivity|].
    exfalso. apply (proj1 (set_list_In [] x)). rewrite S. left. reflexivity.
  - destruct (strip lib_text) as [|c r] eqn:L.
    + unfold compare_texts. cbn [similarity is_empty].
      unfold similarity_percent.
      rewrite (normalize_blank _ H), (normalize_blank _ L). reflexivity.
    + cbn [is_empty]. apply similarity_zero_matches.
      * pose proof (DifflibSums.matches_le (normalize lower_at original_text)
                                           (normalize lower_at lib_text)) as [K _].
        rewrite (normalize_blank _ H) in K. simpl in K.
        rewrite (normalize_blank _ H). lia.
      * assert (N : normalize lower_at lib_text <> [])
          by (apply normalize_nonempty; rewrite L; discriminate).
        destruct (normalize lower_at lib_text); [contradiction|].
        simpl. lia.
Qed.

End EmptySide.

Lemma blank_original_witness :
  let c := compare_texts ascii_lower first_occurrences [] s_some_text in
  missing_lines_count c = 0 /\ extra_lines_count c = 1 /\
  similarity c = Qmake 0 100.
Proof.
  destruct (@blank_original ascii_lower first_occurrences
              ascii_lower_nonspace first_occurrences_In
              [] s_some_text eq_refl) as [H1 [_ [H3 H4]]].
  repeat split; assumption.
Defined.

(** ** A text against itself *)

Module DifflibSelf.
Import Difflib.

Lemma scan_row_eq blo bhi i j2len js :
  Forall (fun j => blo <= j < bhi) js ->
  forall d best,
    scan_row blo bhi i j2len js d best =
    (rev (map (row_entry j2len) js) ++ d,
     fold_left (row_update i j2len) js best).
Proof.
  induction 1 as [|j js [H1 H2] _ IH]; intros d best; [reflexivity|].
  cbn [scan_row].
  apply Nat.ltb_ge in H1. rewrite H1.
  apply Nat.leb_gt in H2. rewrite H2.
  cbv zeta. rewrite IH. cbn [map rev fold_left].
  rewrite <- app_assoc. reflexivity.
Qed.

Lemma indices_from_In c s :
  forall k j, In j (indices_from c k s) ->
              k <= j < k + length s /\ nth (j - k) s 0%N = c.
Proof.
  induction s as [|x r IH]; intros k j; cbn [indices_from]; [intros []|].
  destruct (x =? c)%N eqn:E.
  - intros [<- | H].
    + rewrite Nat.sub_diag. apply N.eqb_eq in E. simpl. split; [lia|exact E].
    + apply IH in H. destruct H as [H1 H2]. simpl length. split; [lia|].
      replace (j - k) with (S (j - S k)) by lia. exact H2.
  - intros H. apply IH in H. destruct H as [H1 H2]. simpl length.
    split; [lia|]. replace (j - k) with (S (j - S k)) by lia. exact H2.
Qed.

Lemma indices_from_app c s1 s2 :
  forall k, indices_from c k (s1 ++ s2) =
            indices_from c k s1 ++ indices_from c (k + length s1) s2.
Proof.
  induction s1 as [|x r IH]; intros k; simpl.
  - rewrite Nat.add_0_r. reflexivity.
  - rewrite IH. replace (S k + length r) with (k + S (length r)) by lia.
    destruct (x =? c)%N; reflexivity.
Qed.

(** The columns of a character of [s] split around its own position. *)
Lemma indices_from_split s i :
  i < length s ->
  exists l1 l2,
    indices_from (nth i s 0%N) 0 s = l1 ++ i :: l2 /\
    Forall (fun j => j < i) l1 /\
    Forall (fun j => i < j < length s) l2.
Proof.
  intros H.
  assert (E : s = firstn i s ++ nth i s 0%N :: skipn (S i) s).
  { rewrite <- (firstn_skipn i s) at 1. f_equal.
    clear -H. revert s H. induction i as [|i IH]; intros [|x s] H;
      simpl in *; try lia; [reflexivity|]. apply IH. lia. }
  assert (Li : length (firstn i s) = i) by (apply firstn_length_le; lia).
  exists (indices_from (nth i s 0%N) 0 (firstn i s)),
         (indices_from (nth i s 0%N) (S i) (skipn (S i) s)).
  split.
  - rewrite E at 2. rewrite indices_from_app. cbn [indices_from].
    rewrite N.eqb_refl, Li. reflexivity.
  - split; apply Forall_forall; intros j Hj; apply indices_from_In in Hj.
    + rewrite Li in Hj. lia.
    + rewrite length_skipn in Hj. lia.
Qed.

Lemma get_In d key : get d key <> 0 -> In (key, get d key) d.
Proof.
  induction d as [|[k v] d IH]; simpl; [congruence|].
  destruct (k =? key) eqn:E.
  - apply Nat.eqb_eq in E. subst. intros _. left. reflexivity.
  - intros H. right. apply IH. exact H.
Qed.

Lemma get_app_skip d1 d2 key :
  (forall k v, In (k, v) d1 -> k <> key) ->
  get (d1 ++ d2) key = get d2 key.
Proof.
  induction d1 as [|[k v] d1 IH]; intros H; simpl; [reflexivity|].
  destruct (k =? key) eqn:E.
  - apply Nat.eqb_eq in E. exfalso. apply (H k v); [left; reflexivity|exact E].
  - apply IH. intros k' v' K. apply (H k' v'). right. exact K.
Qed.

Lemma fold_quiet i j2len js best :
  (forall j, In j js -> get_pred j2len j + 1 <= m_size best) ->
  fold_left (row_update i j2len) js best = best.
Proof.
  induction js as [|j js IH]; intros H; simpl; [reflexivity|].
  assert (E : row_update i j2len best j = best).
  { unfold row_update. specialize (H j (or_introl eq_refl)).
    destruct (m_size best <? get_pred j2len j + 1) eqn:C; [|reflexivity].
    apply Nat.ltb_lt in C. lia. }
  rewrite E. apply IH. intros j' K. apply H. right. exact K.
Qed.

Section Self.

Variable a : str.

Lemma get_pred_bound i d j :
  (forall j', get d j' <= run_before a i /\
              get d j' <= run_before a (S j')) ->
  get_pred d j <= run_before a i /\ get_pred d j <= run_before a j.
Proof.
  intros H. destruct j as [|j']; cbn [get_pred]; [lia|]. apply H.
Qed.

Lemma get_pred_diag i d :
  (forall t, i = S t -> get d t = run_before a i) ->
  get_pred d i = run_before a i.
Proof.
  intros H. destruct i as [|t]; cbn [get_pred]; [reflexivity|].
  apply H. reflexivity.
Qed.

(** Reading one row keeps the best match on the diagonal. *)
Lemma row_step i d best :
  i < length a ->
  row_inv a i d best ->
  let '(d', best') :=
    scan_row 0 (length a) i d (b2j a (at_a a i)) [] best in
  row_inv a (S i) d' best'.
Proof.
  intros Hi [Ha [He [Hb Hc]]]. unfold b2j.
  destruct (popular a (at_a a i)) eqn:P.
  - cbn [scan_row]. unfold row_inv. split; [|split; [|split]].
    + intros j. cbn [get]. lia.
    + intros t _. cbn [get run_before]. rewrite P. reflexivity.
    + exact Hb.
    + intros t Ht. destruct (Nat.eq_dec t (S i)) as [->|N].
      * cbn [run_before]. rewrite P. lia.
      * apply Hc. lia.
  - destruct (@indices_from_split a i Hi) as [l1 [l2 [E [F1 F2]]]].
    unfold at_a. rewrite E.
    assert (Fall : Forall (fun j => 0 <= j < length a) (l1 ++ i :: l2)).
    { apply Forall_app. split; [|constructor; [lia|]].
      - eapply Forall_impl; [|exact F1]. simpl. intros; lia.
      - eapply Forall_impl; [|exact F2]. simpl. intros; lia. }
    rewrite (@scan_row_eq 0 (length a) i d _ Fall).
    assert (Hcol : forall j, In j (l1 ++ i :: l2) ->
                             popular a (at_a a j) = false).
    { intros j Hj. rewrite <- E in Hj. apply indices_from_In in Hj.
      destruct Hj as [_ Hj]. rewrite Nat.sub_0_r in Hj.
      unfold at_a in *. rewrite Hj. exact P. }
    assert (Hk : forall j, In j (l1 ++ i :: l2) ->
                   get_pred d j + 1 <= run_before a (S i) /\
                   get_pred d j + 1 <= run_before a (S j)).
    { intros j Hj. destruct (@get_pred_bound i d j Ha) as [K1 K2].
      cbn [run_before]. rewrite P, (Hcol j Hj). lia. }
    assert (Hki : get_pred d i + 1 = run_before a (S i)).
    { rewrite (@get_pred_diag i d He). cbn [run_before]. rewrite P. lia. }
    rewrite fold_left_app. cbn [fold_left].
    rewrite (@fold_quiet i d l1 best).
    2:{ intros j Hj. destruct (Hk j (in_or_app _ _ _ (or_introl Hj))) as [_ K].
        rewrite Forall_forall in F1. specialize (F1 j Hj).
        specialize (Hc (S j)). lia. }
    set (best1 := row_update i d best i).
    assert (B1 : m_a best1 = m_b best1 /\
                 m_size best <= m_size best1 /\
                 run_before a (S i) <= m_size best1).
    { unfold best1, row_update. cbv zeta.
      destruct (m_size best <? get_pred d i + 1) eqn:C.
      - apply Nat.ltb_lt in C. cbn [m_a m_b m_size]. lia.
      - apply Nat.ltb_ge in C. lia. }
    destruct B1 as [B1 [B2 B3]].
    rewrite (@fold_quiet i d l2 best1).
    2:{ intros j Hj.
        assert (Hj' : In j (l1 ++ i :: l2))
          by (apply in_or_app; right; right; exact Hj).
        destruct (Hk j Hj') as [K _].
        lia. }
    unfold row_inv. split; [|split; [|split]].
    + intros j. rewrite app_nil_r.
      remember (get (rev (map (row_entry d) (l1 ++ i :: l2))) j) as g eqn:G.
      destruct (Nat.eq_dec g 0) as [Z|NZ]; [lia|].
      rewrite G in NZ. apply get_In in NZ. rewrite <- G in NZ.
      apply in_rev in NZ. apply in_map_iff in NZ.
      destruct NZ as [j' [Ej Hj]]. unfold row_entry in Ej.
      injection Ej as -> Ev. rewrite <- Ev. apply Hk. exact Hj.
    + intros t Ht. injection Ht as <-. rewrite app_nil_r.
      rewrite map_app, rev_app_distr. cbn [map rev].
      rewrite <- !app_assoc. rewrite get_app_skip.
      * cbn [app get row_entry]. rewrite Nat.eqb_refl. exact Hki.
      * intros k v K. apply in_rev in K. apply in_map_iff in K.
        destruct K as [j [Ej Hj]]. unfold row_entry in Ej.
        injection Ej as <- _. rewrite Forall_forall in F2.
        specialize (F2 j Hj). lia.
    + exact B1.
    + intros t Ht. destruct (Nat.eq_dec t (S i)) as [->|N]; [exact B3|].
      specialize (Hc t). lia.
Qed.

Lemma scan_rows_diag len :
  forall s d best,
    s + len <= length a ->
    row_inv a s d best ->
    let x := scan_rows a a 0 (length a) (seq s len) d best in
    m_a x = m_b x.
Proof.
  induction len as [|len IH]; intros s d best Hs Hinv.
  - simpl. apply Hinv.
  - cbn [seq scan_rows].
    pose proof (@row_step s d best ltac:(lia) Hinv) as H.
    destruct (scan_row 0 (length a) s d (b2j a (at_a a s)) [] best)
      as [d' best'].
    apply IH; [lia | exact H].
Qed.

Lemma extend_left_diag p :
  forall size, extend_left a a 0 0 p p size = mkMatch 0 0 (p + size).
Proof.
  induction p as [|p IH]; intros size; [reflexivity|].
  cbn [extend_left]. unfold at_a, at_b. rewrite N.eqb_refl.
  cbn [Nat.ltb Nat.leb andb]. rewrite IH. f_equal. lia.
Qed.

Lemma extend_right_diag fuel :
  forall size,
    size + fuel = length a ->
    extend_right a a fuel (length a) (length a) 0 0 size
    = mkMatch 0 0 (length a).
Proof.
  induction fuel as [|fuel IH]; intros size H; cbn [extend_right].
  - f_equal. lia.
  - unfold at_a, at_b. rewrite N.eqb_refl.
    assert (L : (0 + size <? length a) = true) by (apply Nat.ltb_lt; lia).
    rewrite L. cbn [andb]. apply IH. lia.
Qed.

(** The longest block of a text against itself is the whole text. *)
Lemma find_longest_match_self :
  find_longest_match a a 0 (length a) 0 (length a)
  = mkMatch 0 0 (length a).
Proof.
  unfold find_longest_match. rewrite Nat.sub_0_r.
  pose proof (@scan_rows_diag (length a) 0 [] (mkMatch 0 0 0)) as D.
  pose proof (@DifflibFacts.scan_rows_bounds a a 0 0 (length a) (length a)
                0 [] (mkMatch 0 0 0)) as B.
  cbv zeta in D, B.
  set (m0 := scan_rows a a 0 (length a) (seq 0 (length a)) []
                       (mkMatch 0 0 0)) in *.
  assert (D' : m_a m0 = m_b m0).
  { apply D; [lia|]. unfold row_inv. split; [|split; [|split]].
    - intros j. cbn [get]. lia.
    - intros t Ht. discriminate Ht.
    - reflexivity.
    - intros t Ht. replace t with 0 by lia. cbn [run_before]. lia. }
  assert (B' : m_a m0 + m_size m0 <= length a).
  { destruct B as [_ B];
      [lia | intros j; cbn [get]; lia | cbn [m_a]; lia
       | cbn [m_a m_size]; lia |].
    exact B. }
  rewrite <- D', extend_left_diag. cbn [m_a m_b m_size].
  apply extend_right_diag. lia.
Qed.

(** A text matches itself in full. *)
Lemma matches_self : matches a a = length a.
Proof.
  unfold matches, get_matching_blocks.
  replace (2 * length a + 1) with (S (2 * length a)) by lia.
  cbn [blocks_loop]. rewrite find_longest_match_self. cbn [m_a m_b m_size].
  destruct (length a =? 0) eqn:E.
  - apply Nat.eqb_eq in E. rewrite E. destruct (2 * 0); reflexivity.
  - rewrite Nat.ltb_irrefl. change (0 <? 0) with false. cbn [andb app].
    replace (blocks_loop a a (2 * length a) []
               [mkMatch 0 0 (length a)])
      with (Some [mkMatch 0 0 (length a)])
      by (destruct (2 * length a); reflexivity).
    change (total_size (collapse 0 0 0 (sort [mkMatch 0 0 (length a)])
                          ++ [mkMatch (length a) (length a) 0])
            = length a).
    rewrite DifflibSums.total_size_app, DifflibSums.collapse_size,
      DifflibSums.sort_size.
    simpl. lia.
Qed.

End Self.

End DifflibSelf.

Lemma round_half_even_int (x : Q) (k : Z) :
  (x == inject_Z k)%Q -> round_half_even x = k.
Proof.
  unfold Qeq, round_half_even. destruct x as [p d].
  cbn [Qnum Qden inject_Z]. intros H.
  assert (E : p = (k * Z.pos d)%Z) by lia.
  rewrite E, Z.div_mul, Z.mod_mul by lia. reflexivity.
Qed.

Lemma ratio_self_percent (n : nat) :
  (Difflib.calculate_ratio n (n + n) * 100 * 100 == inject_Z 10000)%Q.
Proof.
  unfold Difflib.calculate_ratio. destruct (n + n =? 0) eqn:E.
  - reflexivity.
  - apply Nat.eqb_neq in E.
    assert (N : ~ (inject_Z (Z.of_nat (n + n)) == 0)%Q)
      by (unfold Qeq, inject_Z; cbn [Qnum Qden]; lia).
    assert (R : (2 * inject_Z (Z.of_nat n) == inject_Z (Z.of_nat (n + n)))%Q)
      by (unfold Qeq, Qmult, inject_Z; cbn [Qnum Qden]; lia).
    rewrite R. unfold Qdiv. rewrite Qmult_inv_r by exact N. reflexivity.
Qed.

(** Two texts with the same normal form (equal up to case and white
    space), and so a text and itself, have similarity 100. *)
Theorem similarity_of_equal_texts (lower_at : lowering)
        (set_list : list str -> list str) (original_text lib_text : str) :
  normalize lower_at original_text = normalize lower_at lib_text ->
  similarity (compare_texts lower_at set_list original_text lib_text)
  = Qmake 10000 100.
Proof.
  intros H. unfold compare_texts. cbn [similarity]. unfold round2. f_equal.
  apply round_half_even_int.
  unfold similarity_percent, Difflib.ratio. rewrite H.
  rewrite DifflibSelf.matches_self. apply ratio_self_percent.
Qed.

Lemma similarity_of_equal_texts_witness :
  similarity (compare_texts ascii_lower first_occurrences
                            s_hello s_hello_norm)
  = Qmake 10000 100.
Proof.
  apply (@similarity_of_equal_texts ascii_lower first_occurrences
                                    s_hello s_hello_norm).
  reflexivity.
Defined.

(** ** The shape of fetched and of normalised text *)

Module ShapeFacts.
Import Str StrFacts.

(** [s.strip()] is a stretch of [s]. *)
Lemma strip_middle s : exists pre suf, s = pre ++ strip s ++ suf.
Proof.
  destruct (dropWhile_suffix s) as [pre E].
  destruct (rstrip_prefix (lstrip s)) as [suf F].
  exists pre, suf. unfold strip. rewrite <- F. exact E.
Qed.

Lemma nl_runs_ok_weaken s :
  forall run run', run' <= run -> nl_runs_ok run s -> nl_runs_ok run' s.
Proof.
  induction s as [|c r IH]; intros run run' H; simpl; [trivial|].
  destruct (c =? NEWLINE)%N; [|trivial].
  intros [K1 K2]. split; [lia|]. apply (IH (S run)); [lia | exact K2].
Qed.

Lemma nl_runs_ok_app_r pre s :
  forall run, nl_runs_ok run (pre ++ s) -> nl_runs_ok 0 s.
Proof.
  induction pre as [|c r IH]; intros run; simpl.
  - apply nl_runs_ok_weaken. lia.
  - destruct (c =? NEWLINE)%N; [intros [_ H]|intros H]; eapply IH; exact H.
Qed.

Lemma nl_runs_ok_app_l s suf :
  forall run, nl_runs_ok run (s ++ suf) -> nl_runs_ok run s.
Proof.
  induction s as [|c r IH]; intros run; simpl; [trivial|].
  destruct (c =? NEWLINE)%N; [intros [K H]; split; [exact K|]|intros H];
    apply IH; exact H.
Qed.

Lemma nl_runs_ok_no_triple s :
  forall run, nl_runs_ok run s -> ~ Substring THREE_NEWLINES s.
Proof.
  intros run H [l [r E]]. subst s. apply nl_runs_ok_app_r in H.
  simpl in H. lia.
Qed.

Lemma sub_nl_aux_ok s :
  forall run, run <= 2 -> nl_runs_ok run (sub_nl_aux run s).
Proof.
  induction s as [|c r IH]; intros run H; cbn [sub_nl_aux]; [exact I|].
  destruct (c =? NEWLINE)%N eqn:E.
  - destruct run as [|[|run]];
      [| |replace run with 0 by lia; apply IH; lia];
      cbn [nl_runs_ok]; change (NEWLINE =? NEWLINE)%N with true;
      (split; [lia | apply IH; lia]).
  - cbn [nl_runs_ok]. rewrite E. apply IH. lia.
Qed.

Lemma sub_nl_aux_fix s :
  forall run, run <= 2 -> nl_runs_ok run s -> sub_nl_aux run s = s.
Proof.
  induction s as [|c r IH]; intros run H; cbn [sub_nl_aux nl_runs_ok];
    [reflexivity|].
  destruct (c =? NEWLINE)%N eqn:E.
  - apply N.eqb_eq in E. subst c. intros [K1 K2].
    destruct run as [|[|run]]; [| |lia]; f_equal; apply IH; (lia || exact K2).
  - intros K. f_equal. apply IH; [lia | exact K].
Qed.

Lemma sub_ws_aux_ok s : forall f, ws_ok f (sub_ws_aux f s).
Proof.
  induction s as [|c r IH]; intros f; cbn [sub_ws_aux]; [exact I|].
  destruct (isspace c) eqn:E.
  - destruct f; [apply IH|]. cbn [ws_ok]. rewrite isspace_SPACE.
    repeat split. apply IH.
  - cbn [ws_ok]. rewrite E. apply IH.
Qed.

Lemma ws_ok_In s : forall f c, ws_ok f s -> In c s -> isspace c = true ->
                               c = SPACE.
Proof.
  induction s as [|d r IH]; [intros f c _ []|].
  intros f c H [<- | K] Hc; simpl in H.
  - rewrite Hc in H. apply H.
  - destruct (isspace d); [destruct H as [_ [_ H]]|]; eapply IH; eauto.
Qed.

Lemma ws_ok_adjacent s :
  forall f l c d r, ws_ok f s -> s = l ++ c :: d :: r ->
                    isspace c = true -> isspace d = false.
Proof.
  induction s as [|x s IH]; intros f l c d r H E Hc.
  - destruct l; discriminate.
  - destruct l as [|y l]; simpl in E; injection E as E1 E2.
    + subst x s. simpl in H. rewrite Hc in H. destruct H as [_ [_ H]].
      destruct (isspace d); [|reflexivity]. destruct H as [_ [H _]].
      discriminate.
    + simpl in H.
      destruct (isspace x); [destruct H as [_ [_ H]]|]; eapply IH; eauto.
Qed.

Lemma split_aux_length sep s :
  forall cur, length (split_aux sep cur s) = S (count_occ N.eq_dec s sep).
Proof.
  induction s as [|c r IH]; intros cur; simpl; [reflexivity|].
  destruct (N.eq_dec c sep) as [->|NE].
  - rewrite N.eqb_refl. simpl. rewrite IH. reflexivity.
  - apply N.eqb_neq in NE. rewrite NE. apply IH.
Qed.

End ShapeFacts.

Section FetchedShape.
Import Str StrFacts ShapeFacts.

Variable w : world.

(** The text that a successful fetch returns has no white space at either
    end and never three newlines in a row; cleaning it again changes
    nothing. *)
Theorem fetched_text_shape (URL page_text : str) (st : run) :
  page w (gets (trace st)) URL = inr page_text ->
  exists text,
    extract_text_from_url w URL st = (inr text, after_get st URL) /\
    head_ok text /\ last_ok text /\
    ~ Substring THREE_NEWLINES text /\
    strip (sub_nl text) = text.
Proof.
  intros H. exists (strip (sub_nl page_text)).
  rewrite extract_text_from_url_eq, H.
  assert (K : nl_runs_ok 0 (strip (sub_nl page_text))).
  { destruct (strip_middle (sub_nl page_text)) as [pre [suf E]].
    pose proof (@sub_nl_aux_ok page_text 0 ltac:(lia)) as G.
    fold (sub_nl page_text) in G. rewrite E in G.
    apply nl_runs_ok_app_r in G. apply nl_runs_ok_app_l in G. exact G. }
  split; [reflexivity|].
  split; [apply strip_head_ok|]. split; [apply strip_last_ok|].
  split; [exact (@nl_runs_ok_no_triple _ _ K)|].
  unfold sub_nl at 1. rewrite (@sub_nl_aux_fix _ 0 ltac:(lia) K).
  apply strip_fix; [apply strip_head_ok | apply strip_last_ok].
Qed.

End FetchedShape.

Lemma fetched_text_shape_witness :
  exists text,
    extract_text_from_url world_page s_u start
    = (inr text, after_get start s_u) /\
    Str.head_ok text /\ Str.last_ok text /\
    ~ Substring THREE_NEWLINES text /\
    Str.strip (Str.sub_nl text) = text.
Proof.
  exact (@fetched_text_shape world_page s_u s_page start eq_refl).
Defined.

(** In a normalised text every white-space character is a single space
    (no tab, no newline, no other blank) and no two of them are
    adjacent. *)
Theorem normalize_white_space (lower_at : lowering) (s : str) :
  let t := normalize lower_at s in
  (forall c, In c t -> Str.isspace c = true -> c = Str.SPACE) /\
  (forall l c d r, t = l ++ c :: d :: r ->
                   Str.isspace c = true -> Str.isspace d = false).
Proof.
  cbv zeta. unfold normalize, Str.sub_ws.
  pose proof (ShapeFacts.sub_ws_aux_ok
                (lower lower_at (Str.strip s)) false) as H.
  split.
  - intros c. apply (@ShapeFacts.ws_ok_In _ false c H).
  - intros l c d r. apply (@ShapeFacts.ws_ok_adjacent _ false l c d r H).
Qed.

(** ** Line counts *)

Lemma filter_length_bound {A} (f : A -> bool) (l : list A) :
  length (filter f l) <= length l.
Proof.
  induction l as [|x l IH]; simpl; [lia|].
  destruct (f x); simpl; lia.
Qed.

(** The two counts cannot exceed the number of content lines of their
    text, which cannot exceed the number of newlines plus one; and a
    content line is never empty, has no white space at its ends and holds
    no newline. *)
Theorem line_counts_bounded (lower_at : lowering)
        (set_list : list str -> list str) (original_text lib_text : str) :
  let c := compare_texts lower_at set_list original_text lib_text in
  missing_lines_count c <= length (content_lines original_text) /\
  extra_lines_count c <= length (content_lines lib_text) /\
  (forall text,
      length (content_lines text)
      <= S (count_occ N.eq_dec text Str.NEWLINE)) /\
  (forall text line,
      In line (content_lines text) ->
      line <> [] /\ Str.strip line = line /\ ~ In Str.NEWLINE line).
Proof.
  cbv zeta. unfold compare_texts.
  cbn [missing_lines_count extra_lines_count].
  split; [apply filter_length_bound|]. split; [apply filter_length_bound|].
  split.
  - intros text. unfold content_lines. rewrite length_map.
    etransitivity; [apply filter_length_bound|].
    unfold Str.split. rewrite ShapeFacts.split_aux_length. lia.
  - intros text line H.
    destruct (BlankFacts.content_lines_stripped text line H) as [H1 H2].
    split; [exact H2|]. split; [exact H1|].
    unfold content_lines in H. apply in_map_iff in H.
    destruct H as [raw [E H]]. apply filter_In in H. destruct H as [H _].
    intros K. apply (ContainsFacts.split_no_sep Str.NEWLINE text raw H).
    destruct (ShapeFacts.strip_middle raw) as [pre [suf F]].
    rewrite F, E. apply in_or_app. right. apply in_or_app. left. exact K.
Qed.

(** ** The batch as a whole *)

Section BatchFacts.

Variable lower_at : lowering.
Variable set_list : list str -> list str.
Variable w : world.

Lemma first_loop_body_no_keys idx r st :
  has_keys r = false ->
  exists e, first_loop_body lower_at set_list w idx r st = (inl e, st).
Proof.
  unfold has_keys, first_loop_body.
  destruct (row_get r KEY_URL) as [e|u]; [intros _; exists e; reflexivity|].
  destruct (row_get r KEY_LIB_TEXT) as [e|t]; [|discriminate].
  intros _. exists e. reflexivity.
Qed.

Lemma first_loop_body_keys idx r st :
  has_keys r = true ->
  exists st',
    first_loop_body lower_at set_list w idx r st = (inr tt, st') /\
    filter is_report (trace st') = filter is_report (trace st).
Proof.
  intros Hk. destruct (skipped r) eqn:Hs.
  - rewrite (first_loop_body_skipped lower_at set_list w idx r st Hk Hs).
    eexists. split; [reflexivity|]. cbn [trace].
    rewrite filter_app. simpl. apply app_nil_r.
  - destruct (first_loop_body_processed lower_at set_list w idx r st Hk Hs)
      as [st' [E [_ [_ F]]]].
    exists st'. split; assumption.
Qed.

(** A row from which a label cannot be read stops the first loop. *)
Lemma first_loop_stops rs :
  forallb has_keys rs = false ->
  forall idx st,
  exists e st',
    for_rows (first_loop_body lower_at set_list w) idx rs st = (inl e, st') /\
    filter is_report (trace st') = filter is_report (trace st).
Proof.
  induction rs as [|r rs IH]; intros H idx st; [discriminate H|].
  simpl in H. cbn [for_rows]. unfold bind.
  destruct (has_keys r) eqn:Hk.
  - destruct (first_loop_body_keys idx r st Hk) as [st1 [E1 F1]].
    rewrite E1. destruct (IH H (S idx) st1) as [e [st' [E F]]].
    exists e, st'. split; [exact E | congruence].
  - destruct (first_loop_body_no_keys idx r st Hk) as [e E].
    rewrite E. exists e, st. split; reflexivity.
Qed.

Lemma label_abort_run (df : frame) :
  read_csv w = inr df ->
  columns_present lower_at df = true ->
  forallb has_keys (rows df) = false ->
  exists e st',
    run_main lower_at set_list w = (inr tt, st') /\
    filter is_report (trace st') = [] /\
    last (trace st') (Print MsgBanner) = Print (MsgFileError (str_exn e)).
Proof.
  intros Hread Hcols Hkeys.
  unfold run_main, main, main_try. rewrite Hread, Hcols.
  unfold bind at 1, emit at 1. cbn [fst snd trace results start app].
  unfold bind at 1, emit at 1. cbn [fst snd trace results start app].
  unfold bind at 1. cbn [negb].
  unfold bind at 1, emit at 1. cbn [fst snd trace results start app].
  unfold bind at 1.
  match goal with
  | |- context [for_rows _ 0 _ ?s] =>
      destruct (first_loop_stops (rows df) Hkeys 0 s) as [e [st1 [E F]]]
  end.
  rewrite E. exists e. eexists. split; [reflexivity|].
  cbn [trace snd emit]. rewrite filter_app, F. split; [reflexivity|].
  apply last_last.
Qed.

(** When the labels are found among the columns (in any case) but cannot
    be read from some row under their exact names, the run ends with the
    "file could not be processed" line and nothing is handed to
    reporting, whatever was fetched before that row. *)
Theorem unreadable_label_aborts (df : frame) :
  read_csv w = inr df ->
  columns_present lower_at df = true ->
  forallb has_keys (rows df) = false ->
  exists e st',
    run_main lower_at set_list w = (inr tt, st') /\
    filter is_report (trace st') = [] /\
    last (trace st') (Print MsgBanner) = Print (MsgFileError (str_exn e)).
Proof. apply label_abort_run. Qed.



End BatchFacts.

Lemma unreadable_label_aborts_witness :
  exists e st',
    run_main ascii_lower first_occurrences world_lower = (inr tt, st') /\
    filter is_report (trace st') = [] /\
    last (trace st') (Print MsgBanner) = Print (MsgFileError (str_exn e)).
Proof.
  exact (@unreadable_label_aborts ascii_lower first_occurrences world_lower
           (mkFrame [KEY_URL_LOWER; KEY_LIB_TEXT] [row_lower; row_lower])
           eq_refl eq_refl eq_refl).
Defined.



(** ** A line of a text is found in that text *)

Module LineFacts.
Import Str StrFacts ContainsFacts BlankFacts ShapeFacts.

Lemma dropWhile_all_prefix s :
  exists pre, s = pre ++ dropWhile isspace s /\ forallb isspace pre = true.
Proof.
  induction s as [|c r [pre [E F]]]; simpl.
  - exists []. split; reflexivity.
  - destruct (isspace c) eqn:C.
    + exists (c :: pre). simpl. rewrite C, F. split; [f_equal; exact E|].
      reflexivity.
    + exists []. split; reflexivity.
Qed.

(** [s.strip()] is [s] without a blank prefix and a blank suffix. *)
Lemma strip_blank_sides s :
  exists pre suf,
    s = pre ++ strip s ++ suf /\
    forallb isspace pre = true /\ forallb isspace suf = true.
Proof.
  destruct (dropWhile_all_prefix s) as [pre [E F]].
  destruct (dropWhile_all_prefix (rev (lstrip s))) as [fus [G H]].
  exists pre, (rev fus). split; [|split; [exact F|]].
  - unfold strip, rstrip. rewrite <- rev_app_distr.
    replace (fus ++ dropWhile isspace (rev (lstrip s)))
      with (rev (lstrip s)) by exact G.
    rewrite rev_involutive. exact E.
  - rewrite forallb_forall in *. intros c Hc. apply H. apply in_rev.
    exact Hc.
Qed.

Lemma ends_blank_app p q : q <> [] -> forallb isspace q = true ->
                           ends_blank (p ++ q).
Proof.
  intros N F. right. destruct q as [|c q] using rev_ind; [contradiction|].
  exists (p ++ q), c. rewrite app_assoc. split; [reflexivity|].
  rewrite forallb_app in F. apply andb_prop in F. destruct F as [_ F].
  simpl in F. rewrite andb_true_r in F. exact F.
Qed.

Lemma starts_blank_app q s : q <> [] -> forallb isspace q = true ->
                             starts_blank (q ++ s).
Proof.
  intros N F. right. destruct q as [|c q]; [contradiction|].
  exists c, (q ++ s). split; [reflexivity|].
  simpl in F. apply andb_prop in F. apply F.
Qed.

(** A piece of [s.split(sep)] sits in [s] between separators or ends. *)
Lemma split_aux_sides sep s :
  forall cur piece,
    In piece (split_aux sep cur s) ->
    (exists post, rev cur ++ s = piece ++ post /\
                  (post = [] \/ exists q, post = sep :: q)) \/
    (exists pre post, s = pre ++ sep :: piece ++ post /\
                      (post = [] \/ exists q, post = sep :: q)).
Proof.
  induction s as [|c r IH]; intros cur piece; simpl.
  - intros [<- | []]. left. exists []. rewrite app_nil_r. auto.
  - destruct (c =? sep)%N eqn:E.
    + apply N.eqb_eq in E. subst c. intros [<- | H].
      * left. exists (sep :: r). split; [reflexivity|]. right. eauto.
      * right. destruct (IH [] piece H) as [[post [G K]] | [pre [post [G K]]]].
        -- simpl in G. exists [], post. rewrite G. auto.
        -- exists (sep :: pre), post. rewrite G. auto.
    + intros H. destruct (IH (c :: cur) piece H)
        as [[post [G K]] | [pre [post [G K]]]].
      * left. exists post. simpl in G. rewrite <- app_assoc in G.
        split; [exact G | exact K].
      * right. exists (c :: pre), post. rewrite G. auto.
Qed.

Lemma isspace_NEWLINE : isspace NEWLINE = true.
Proof. reflexivity. Qed.

(** A content line sits in its text between white space or ends. *)
Lemma content_line_sides text line :
  In line (content_lines text) ->
  exists u v, text = u ++ line ++ v /\ ends_blank u /\ starts_blank v.
Proof.
  unfold content_lines. rewrite in_map_iff.
  intros [raw [E H]]. apply filter_In in H. destruct H as [H _].
  destruct (strip_blank_sides raw) as [ws1 [ws2 [R [F1 F2]]]].
  rewrite E in R.
  assert (V : forall post, post = [] \/ (exists q, post = NEWLINE :: q) ->
                           starts_blank (ws2 ++ post)).
  { intros post [-> | [q ->]].
    - rewrite app_nil_r. destruct ws2 as [|c ws2]; [left; reflexivity|].
      rewrite <- (app_nil_r (c :: ws2)).
      apply starts_blank_app; [discriminate | exact F2].
    - destruct ws2 as [|c ws2].
      + right. exists NEWLINE, q. split; [reflexivity | exact isspace_NEWLINE].
      + apply starts_blank_app; [discriminate | exact F2]. }
  destruct (split_aux_sides NEWLINE text [] raw H)
    as [[post [G K]] | [pre [post [G K]]]].
  - simpl in G. exists ws1, (ws2 ++ post).
    split; [rewrite G, R, <- !app_assoc; reflexivity|].
    split; [|apply V; exact K].
    destruct ws1 as [|c ws1]; [left; reflexivity|].
    apply (ends_blank_app []); [discriminate | exact F1].
  - exists ((pre ++ [NEWLINE]) ++ ws1), (ws2 ++ post).
    split; [rewrite G, R, <- !app_assoc; reflexivity|].
    split; [|apply V; exact K].
    destruct ws1 as [|c ws1].
    + rewrite app_nil_r. right. exists pre, NEWLINE.
      split; [reflexivity | exact isspace_NEWLINE].
    + apply ends_blank_app; [discriminate | exact F1].
Qed.

Lemma dropWhile_app_head u rest :
  head_ok rest -> rest <> [] ->
  dropWhile isspace (u ++ rest) = dropWhile isspace u ++ rest.
Proof.
  intros H N. induction u as [|c u IH]; simpl.
  - destruct rest as [|d rest]; [contradiction|]. simpl in *.
    rewrite H. reflexivity.
  - destruct (isspace c); [exact IH | reflexivity].
Qed.

Lemma dropWhile_ends_blank u : ends_blank u -> ends_blank (dropWhile isspace u).
Proof.
  intros [-> | [p [w [-> Hw]]]]; [left; reflexivity|].
  induction p as [|c p IH]; simpl.
  - rewrite Hw. left. reflexivity.
  - destruct (isspace c); [exact IH|].
    right. exists (c :: p), w. split; [reflexivity | exact Hw].
Qed.

Lemma rev_ends_starts u : ends_blank u <-> starts_blank (rev u).
Proof.
  split.
  - intros [-> | [p [w [-> Hw]]]]; [left; reflexivity|].
    right. exists w, (rev p). rewrite rev_app_distr. auto.
  - intros [H | [w [s [H Hw]]]].
    + left. apply (f_equal (@rev N)) in H. rewrite rev_involutive in H.
      exact H.
    + right. exists (rev s), w. apply (f_equal (@rev N)) in H.
      rewrite rev_involutive in H. simpl in H. auto.
Qed.

Lemma rev_starts_ends v : starts_blank v <-> ends_blank (rev v).
Proof.
  rewrite rev_ends_starts, rev_involutive. tauto.
Qed.

(** Stripping a text keeps each of its content lines in place, still
    between white space or ends. *)
Lemma strip_keeps_line u line v :
  head_ok line -> last_ok line -> line <> [] ->
  ends_blank u -> starts_blank v ->
  exists u' v', strip (u ++ line ++ v) = u' ++ line ++ v' /\
                ends_blank u' /\ starts_blank v'.
Proof.
  intros Hh Hl Hn Hu Hv.
  exists (dropWhile isspace u), (rev (dropWhile isspace (rev v))).
  split; [|split].
  - unfold strip, lstrip, rstrip.
    rewrite dropWhile_app_head.
    + rewrite !rev_app_distr, <- app_assoc.
      rewrite (dropWhile_app_head (rev v)).
      * rewrite !rev_app_distr, !rev_involutive, <- app_assoc. reflexivity.
      * unfold last_ok in Hl. destruct (rev line) as [|c l] eqn:E.
        -- apply (f_equal (@rev N)) in E. rewrite rev_involutive in E.
           contradiction.
        -- exact Hl.
      * intros E. apply app_eq_nil in E. destruct E as [E _].
        apply (f_equal (@rev N)) in E. rewrite rev_involutive in E.
        contradiction.
    + destruct line as [|c l]; [contradiction|]. exact Hh.
    + destruct line; [contradiction | discriminate].
  - apply dropWhile_ends_blank. exact Hu.
  - apply (proj1 (rev_ends_starts _)).
    apply dropWhile_ends_blank. apply (proj1 (rev_starts_ends _)). exact Hv.
Qed.

Lemma sub_ws_aux_skip z r :
  head_ok r -> r <> [] ->
  forall f, exists x, sub_ws_aux f (z ++ r) = x ++ sub_ws_aux false r.
Proof.
  intros H N. induction z as [|c z IH]; intros f.
  - exists []. destruct r as [|d r]; [contradiction|]. simpl in *.
    rewrite H. reflexivity.
  - simpl. destruct (isspace c).
    + destruct f.
      * apply IH.
      * destruct (IH true) as [x E]. exists (SPACE :: x). rewrite E.
        reflexivity.
    + destruct (IH false) as [x E]. exists (c :: x). rewrite E. reflexivity.
Qed.

Lemma sub_ws_aux_cut m y :
  last_ok m -> m <> [] ->
  forall f, sub_ws_aux f (m ++ y) = sub_ws_aux f m ++ sub_ws_aux false y.
Proof.
  intros H N. destruct m as [|c m] using rev_ind; [contradiction|].
  clear IHm N. unfold last_ok in H. rewrite rev_app_distr in H. simpl in H.
  induction m as [|d m IH]; intros f; simpl.
  - rewrite H. reflexivity.
  - destruct (isspace d); [destruct f|]; rewrite IH; reflexivity.
Qed.

End LineFacts.

Section CommonLines.
Import Str StrFacts ContainsFacts BlankFacts ShapeFacts LineFacts.

Variable lower_at : lowering.
Variable set_list : list str -> list str.

(** What is used of lower-casing: a code point that is not white space
    maps to at least one code point, none of them white space; and the
    lower case of a code point does not depend on what lies beyond the
    nearest white space on either side. *)
Hypothesis lower_nonspace :
  forall before c after,
    isspace c = false ->
    lower_at before c after <> [] /\
    forallb (fun d => negb (isspace d)) (lower_at before c after) = true.
Hypothesis lower_local :
  forall p l1 c l2 s,
    ends_blank p -> starts_blank s ->
    lower_at (p ++ l1) c (l2 ++ s) = lower_at l1 c l2.
Hypothesis set_list_In : forall xs x, In x (set_list xs) <-> In x xs.

Lemma lower_from_prefix p rest :
  forall before,
  exists z, lower_from lower_at before (p ++ rest)
            = z ++ lower_from lower_at (before ++ p) rest.
Proof.
  induction p as [|c p IH]; intros before; simpl.
  - exists []. rewrite app_nil_r. reflexivity.
  - destruct (IH (before ++ [c])) as [z E]. rewrite E.
    exists (lower_at before c (p ++ rest) ++ z).
    rewrite <- !app_assoc. reflexivity.
Qed.

Lemma lower_from_local p s l2 :
  ends_blank p -> starts_blank s ->
  forall l1,
    lower_from lower_at (p ++ l1) (l2 ++ s)
    = lower_from lower_at l1 l2
        ++ lower_from lower_at (p ++ l1 ++ l2) s.
Proof.
  intros Hp Hs. induction l2 as [|c l2 IH]; intros l1; simpl.
  - rewrite app_nil_r. reflexivity.
  - rewrite (lower_local l1 c l2 Hp Hs).
    rewrite <- (app_assoc p l1 [c]), IH, <- !app_assoc. reflexivity.
Qed.

(** The normal form of a content line of a text occurs in the normal
    form of the text. *)
Lemma content_line_found text line :
  In line (content_lines text) ->
  Substring (normalize lower_at line) (normalize lower_at text).
Proof.
  intros H.
  destruct (content_lines_stripped text line H) as [Hs Hn].
  assert (Hh : head_ok line) by (rewrite <- Hs; apply strip_head_ok).
  assert (Hl : last_ok line) by (rewrite <- Hs; apply strip_last_ok).
  destruct (content_line_sides text line H) as [u [v [E [Hu Hv]]]].
  destruct (strip_keeps_line Hh Hl Hn Hu Hv) as [u' [v' [S [Hu' Hv']]]].
  unfold normalize. rewrite Hs, E, S. unfold lower.
  destruct (lower_from_prefix u' (line ++ v') []) as [z Z].
  rewrite Z. simpl app.
  pose proof (lower_from_local line Hu' Hv' []) as L.
  rewrite app_nil_r in L. rewrite L.
  set (m := lower_from lower_at [] line).
  set (y := lower_from lower_at (u' ++ [] ++ line) v').
  assert (Mh : head_ok m) by (apply (lower_head_ok lower_at lower_nonspace); exact Hh).
  assert (Ml : last_ok m) by (apply (lower_last_ok lower_at lower_nonspace); exact Hl).
  assert (Mn : m <> []).
  { pose proof (normalize_nonempty lower_at lower_nonspace line) as K.
    rewrite Hs in K. specialize (K Hn). unfold normalize in K.
    rewrite Hs in K. intros Q. apply K. unfold lower. fold m. rewrite Q.
    reflexivity. }
  unfold sub_ws.
  assert (Rh : head_ok (m ++ y)) by (destruct m; [contradiction | exact Mh]).
  assert (Rn : m ++ y <> []) by (destruct m; [contradiction | discriminate]).
  destruct (@sub_ws_aux_skip z (m ++ y) Rh Rn false) as [x X].
  rewrite X, (@sub_ws_aux_cut m y Ml Mn false).
  exists x, (sub_ws_aux false y). reflexivity.
Qed.

(** A content line of the original that is also a content line of the
    candidate is never reported missing, and the other way round.  In
    particular two texts with the same normal form, and so a text and
    itself, have no missing and no extra line. *)
Theorem shared_lines_not_flagged (original_text lib_text : str) :
  (forall line,
      In line (content_lines lib_text) ->
      ~ In line (missing lower_at original_text lib_text)) /\
  (forall line,
      In line (content_lines original_text) ->
      ~ In line (extra lower_at original_text lib_text)) /\
  (normalize lower_at original_text = normalize lower_at lib_text ->
   let c := compare_texts lower_at set_list original_text lib_text in
   missing_lines_count c = 0 /\ extra_lines_count c = 0 /\
   example_missing c = [] /\ example_extra c = []).
Proof.
  assert (A : forall lines other line,
             In line (content_lines other) ->
             ~ In line (absent_lines lower_at lines other)).
  { intros lines other line H K. unfold absent_lines in K.
    apply filter_In in K. destruct K as [_ K].
    apply negb_true_iff in K.
    apply content_line_found, contains_spec in H. congruence. }
  assert (B : forall t1 t2,
             normalize lower_at t1 = normalize lower_at t2 ->
             absent_lines lower_at (content_lines t1) t2 = []).
  { intros t1 t2 E.
    destruct (absent_lines lower_at (content_lines t1) t2) as [|x l] eqn:F;
      [reflexivity|].
    assert (K : In x (absent_lines lower_at (content_lines t1) t2))
      by (rewrite F; left; reflexivity).
    unfold absent_lines in K. apply filter_In in K. destruct K as [K1 K2].
    apply negb_true_iff in K2. rewrite <- E in K2.
    apply content_line_found, contains_spec in K1. congruence. }
  assert (N : set_list [] = []).
  { destruct (set_list []) as [|x l] eqn:S; [reflexivity|].
    exfalso. apply (proj1 (set_list_In [] x)). rewrite S. left. reflexivity. }
  split; [intros line; apply A|]. split; [intros line; apply A|].
  intros E. cbv zeta. unfold compare_texts.
  cbn [missing_lines_count extra_lines_count example_missing example_extra].
  unfold missing, extra. rewrite (B _ _ E), (B _ _ (eq_sym E)), N.
  repeat split.
Qed.

End CommonLines.

Lemma ascii_lower_local (p l1 : str) (c : N) (l2 s : str) :
  ends_blank p -> starts_blank s ->
  ascii_lower (p ++ l1) c (l2 ++ s) = ascii_lower l1 c l2.
Proof. reflexivity. Qed.

Lemma shared_lines_not_flagged_witness :
  In s_line_b (content_lines s_original) /\
  ~ In s_line_b (missing ascii_lower s_two_lines s_original).
Proof.
  assert (H : In s_line_b (content_lines s_original))
    by (left; reflexivity).
  split; [exact H|].
  exact (proj1 (@shared_lines_not_flagged ascii_lower first_occurrences
                  ascii_lower_nonspace ascii_lower_local
                  first_occurrences_In s_two_lines s_original)
               s_line_b H).
Defined.

(** The command line on a table that cannot be read: the run still ends
    with the success lines. *)
Example cli_unreadable_table :
  fst (cli_main ascii_lower first_occurrences args_default
                (mkCliWorld world_unreadable None))
  = Completed [].
Proof. reflexivity. Qed.

(** ** The report writers *)

Lemma count_partition (results : list record) :
  count_success results + count_error results = length results.
Proof.
  unfold count_success, count_error.
  induction results as [|r rs IH]; simpl; [reflexivity|].
  destruct r; simpl; lia.
Qed.

(** Every record is counted once, as a success or as an error, in the
    JSON report, in the values handed to the HTML template and in the
    statistics sheet, and the three writers agree on the counts; the
    articles of the JSON report follow [results] one by one, with the same
    URL and the same status. *)
Theorem report_counts (results : list record) :
  let '(meta, articles) := save_results_report results in
  let html := html_report_context results in
  let stat := report_statistics results in
  successful meta + failed meta = total_articles meta /\
  total_articles meta = length results /\
  length articles = length results /\
  map article_url articles = map record_url results /\
  map article_is_success articles = map is_success results /\
  (h_total_articles html, h_success_count html, h_error_count html)
  = (total_articles meta, successful meta, failed meta) /\
  (s_total stat, s_success stat, s_errors stat)
  = (total_articles meta, successful meta, failed meta) /\
  h_articles html = results.
Proof.
  unfold save_results_report. cbv zeta.
  cbn [successful failed total_articles].
  split; [apply count_partition|]. split; [reflexivity|].
  split; [apply length_map|].
  split; [|split; [|repeat split]].
  - rewrite map_map. apply map_ext. intros r. unfold article_of.
    destruct r; reflexivity.
  - rewrite map_map. apply map_ext. intros r. unfold article_of.
    destruct r; reflexivity.
Qed.

Lemma share_above_70_eq (count total : nat) :
  total <> 0 ->
  share_above_70 count total = inr (7 * total <? 10 * count).
Proof.
  intros H. unfold share_above_70.
  apply Nat.eqb_neq in H. rewrite H. apply Nat.eqb_neq in H. f_equal.
  assert (L : (0 < inject_Z (Z.of_nat total))%Q)
    by (unfold Qlt, inject_Z; cbn [Qnum Qden]; lia).
  destruct (7 * total <? 10 * count) eqn:E.
  - apply Nat.ltb_lt in E. apply Qgtb_lt. apply Qlt_shift_div_l; [exact L|].
    unfold Qlt, Qmult, inject_Z. cbn [Qnum Qden]. lia.
  - apply Nat.ltb_ge in E. apply Qgtb_le. apply Qle_shift_div_r; [exact L|].
    unfold Qle, Qmult, inject_Z. cbn [Qnum Qden]. lia.
Qed.

Lemma filter_length_impl {A} (f g : A -> bool) (l : list A) :
  (forall x, f x = true -> g x = true) ->
  length (filter f l) <= length (filter g l).
Proof.
  intros H. induction l as [|x l IH]; simpl; [lia|].
  destruct (f x) eqn:E.
  - rewrite (H x E). simpl. lia.
  - destruct (g x); simpl; lia.
Qed.

Lemma count_above_success (bound : Q) (results : list record) :
  count_above bound results <= count_success results.
Proof.
  apply filter_length_impl. intros r. destruct r; simpl; congruence.
Qed.

(** The efficiency line of the conclusion sheet: computing it raises
    "division by zero" when [results] is empty.  Otherwise it is High when
    more than 70% of all records are successes with similarity above 80,
    else Medium when more than 70% are successes with similarity above
    50, else Low; failures count against it, so with 30% or more failures
    it is Low whatever the similarities. *)
Theorem efficiency_cases (results : list record) :
  let n := length results in
  (results = [] ->
   overall_efficiency results = inl (Raised DIVISION_BY_ZERO)) /\
  (results <> [] ->
   exists lv,
     overall_efficiency results = inr lv /\
     (lv = High <-> 7 * n < 10 * count_above 80 results) /\
     (lv = Medium <-> 10 * count_above 80 results <= 7 * n /\
                      7 * n < 10 * count_above 50 results) /\
     (lv = Low <-> 10 * count_above 80 results <= 7 * n /\
                   10 * count_above 50 results <= 7 * n) /\
     (3 * n <= 10 * count_error results -> lv = Low)).
Proof.
  cbv zeta. split.
  - intros ->. reflexivity.
  - intros H.
    assert (N : length results <> 0) by (destruct results; simpl; congruence).
    unfold overall_efficiency. rewrite !share_above_70_eq by exact N.
    pose proof (count_above_success 80 results) as A80.
    pose proof (count_above_success 50 results) as A50.
    pose proof (count_partition results) as P.
    destruct (7 * length results <? 10 * count_above 80 results) eqn:E1;
      [|destruct (7 * length results <? 10 * count_above 50 results) eqn:E2];
      repeat match goal with
             | H : (_ <? _) = true |- _ => apply Nat.ltb_lt in H
             | H : (_ <? _) = false |- _ => apply Nat.ltb_ge in H
             end;
      eexists; (split; [reflexivity|]);
      repeat split; intros; try discriminate; try reflexivity; try lia.
Qed.

Lemma efficiency_cases_witness :
  overall_efficiency results_mixed = inr Low.
Proof.
  destruct (efficiency_cases results_mixed) as [_ H].
  destruct H as [lv [E [_ [_ [_ L]]]]]; [discriminate|].
  rewrite E, L; [reflexivity|]. simpl. lia.
Defined.

Module StatFacts.

Lemma success_similarities_length results :
  length (success_similarities results) = count_success results.
Proof.
  unfold count_success.
  induction results as [|r rs IH]; simpl; [reflexivity|].
  destruct r; simpl; rewrite IH; reflexivity.
Qed.

Lemma existsb_success results :
  existsb is_success results = negb (count_success results =? 0).
Proof.
  unfold count_success.
  induction results as [|r rs IH]; simpl; [reflexivity|].
  destruct r; simpl; try reflexivity. exact IH.
Qed.

Lemma q_max_cons x y l :
  q_max x (y :: l) = q_max (if Qgtb y x then y else x) l.
Proof. reflexivity. Qed.

Lemma q_min_cons x y l :
  q_min x (y :: l) = q_min (if Qgtb x y then y else x) l.
Proof. reflexivity. Qed.

Lemma q_max_start l : forall x, (x <= q_max x l)%Q.
Proof.
  induction l as [|y l IH]; intros x; [apply Qle_refl|].
  rewrite q_max_cons. destruct (Qgtb y x) eqn:E.
  - apply Qgtb_lt in E. eapply Qle_trans; [apply Qlt_le_weak, E | apply IH].
  - apply IH.
Qed.

Lemma q_max_ge l : forall x y, In y (x :: l) -> (y <= q_max x l)%Q.
Proof.
  induction l as [|z l IH]; intros x y [<- | H].
  - apply Qle_refl.
  - destruct H.
  - apply q_max_start.
  - rewrite q_max_cons. destruct H as [<- | H].
    + destruct (Qgtb z x) eqn:E.
      * apply q_max_start.
      * apply Qgtb_le in E. eapply Qle_trans; [exact E | apply q_max_start].
    + apply IH. right. exact H.
Qed.

Lemma q_max_In l : forall x, In (q_max x l) (x :: l).
Proof.
  induction l as [|z l IH]; intros x; [left; reflexivity|].
  rewrite q_max_cons. destruct (Qgtb z x).
  - right. apply IH.
  - destruct (IH x) as [H | H]; [left; exact H | right; right; exact H].
Qed.

Lemma q_min_start l : forall x, (q_min x l <= x)%Q.
Proof.
  induction l as [|y l IH]; intros x; [apply Qle_refl|].
  rewrite q_min_cons. destruct (Qgtb x y) eqn:E.
  - apply Qgtb_lt in E. eapply Qle_trans; [apply IH | apply Qlt_le_weak, E].
  - apply IH.
Qed.

Lemma q_min_le l : forall x y, In y (x :: l) -> (q_min x l <= y)%Q.
Proof.
  induction l as [|z l IH]; intros x y [<- | H].
  - apply Qle_refl.
  - destruct H.
  - apply q_min_start.
  - rewrite q_min_cons. destruct H as [<- | H].
    + destruct (Qgtb x z) eqn:E.
      * apply q_min_start.
      * apply Qgtb_le in E. eapply Qle_trans; [apply q_min_start | exact E].
    + apply IH. right. exact H.
Qed.

Lemma q_min_In l : forall x, In (q_min x l) (x :: l).
Proof.
  induction l as [|z l IH]; intros x; [left; reflexivity|].
  rewrite q_min_cons. destruct (Qgtb x z).
  - right. apply IH.
  - destruct (IH x) as [H | H]; [left; exact H | right; right; exact H].
Qed.

Lemma q_sum_bounds (lo hi : Q) (l : list Q) :
  (forall y, In y l -> (lo <= y)%Q /\ (y <= hi)%Q) ->
  (lo * inject_Z (Z.of_nat (length l)) <= q_sum l)%Q /\
  (q_sum l <= hi * inject_Z (Z.of_nat (length l)))%Q.
Proof.
  induction l as [|x l IH]; intros H.
  - simpl. rewrite !Qmult_0_r. split; apply Qle_refl.
  - destruct IH as [I1 I2]; [intros y Hy; apply H; right; exact Hy|].
    destruct (H x (or_introl eq_refl)) as [H1 H2].
    assert (E : (inject_Z (Z.of_nat (length (x :: l)))
                 == 1 + inject_Z (Z.of_nat (length l)))%Q).
    { unfold Qeq, Qplus, inject_Z. cbn [Qnum Qden length]. lia. }
    cbn [q_sum fold_right]. fold (q_sum l). rewrite E.
    rewrite !Qmult_plus_distr_r, !Qmult_1_r.
    split; apply Qplus_le_compat; assumption.
Qed.

(** The mean of a non-empty list lies between its bounds. *)
Lemma q_mean_bounds (lo hi : Q) (l : list Q) :
  l <> [] ->
  (forall y, In y l -> (lo <= y)%Q /\ (y <= hi)%Q) ->
  (lo <= q_mean l)%Q /\ (q_mean l <= hi)%Q.
Proof.
  intros N H. destruct (@q_sum_bounds lo hi l H) as [S1 S2].
  assert (L : (0 < inject_Z (Z.of_nat (length l)))%Q).
  { destruct l; [contradiction|].
    unfold Qlt, inject_Z. cbn [Qnum Qden length]. lia. }
  unfold q_mean. split.
  - apply Qle_shift_div_l; assumption.
  - apply Qle_shift_div_r; assumption.
Qed.

End StatFacts.

Lemma fetched_similarities_bounds (lower_at : lowering)
      (set_list : list str -> list str) (w : world) (rs : list row) :
  forall k y,
    In y (success_similarities (fetched_records lower_at set_list w k rs)) ->
    (0 <= y)%Q /\ (y <= 100)%Q.
Proof.
  induction rs as [|r rs IH]; intros k y; cbn [fetched_records];
    [intros []|].
  destruct (skipped r); [apply IH|].
  cbn [success_similarities]. unfold fetched_record.
  destruct (page w k (row_url r)) as [e|page_text];
    [cbn [success_fields_of]; apply IH|].
  cbv zeta.
  destruct (Str.startswith OSHIBKA (Str.strip (Str.sub_nl page_text)));
    cbn [success_fields_of]; [apply IH|].
  cbn [f_similarity].
  intros [<- | H]; [apply similarity_bounds | exact (IH _ _ H)].
Qed.

(** The statistics sheet shows "N/A" for mean, maximum and minimum exactly
    when no record is a success.  Otherwise the minimum and the maximum
    are similarities of success records and every such similarity lies
    between them; and for the records that [main] hands over, minimum,
    mean and maximum all lie between 0 and 100. *)
Theorem statistics_consistent (results : list record) :
  let s := report_statistics results in
  let sims := success_similarities results in
  (count_success results = 0 ->
   s_mean s = None /\ s_max s = None /\ s_min s = None) /\
  (count_success results <> 0 ->
   exists mean mx mn,
     s_mean s = Some mean /\ s_max s = Some mx /\ s_min s = Some mn /\
     In mx sims /\ In mn sims /\
     (forall x, In x sims -> (mn <= x)%Q /\ (x <= mx)%Q)) /\
  (forall lower_at set_list w k rs mean mx mn,
      results = fetched_records lower_at set_list w k rs ->
      s_mean s = Some mean -> s_max s = Some mx -> s_min s = Some mn ->
      (0 <= mn)%Q /\ (0 <= mean)%Q /\ (mean <= 100)%Q /\ (mx <= 100)%Q).
Proof.
  cbv zeta. unfold report_statistics. cbn [s_mean s_max s_min].
  rewrite StatFacts.existsb_success.
  pose proof (StatFacts.success_similarities_length results) as L.
  split; [|split].
  - intros Z. rewrite Z. repeat split.
  - intros N. apply Nat.eqb_neq in N. rewrite N. cbn [negb].
    destruct (success_similarities results) as [|x l] eqn:E.
    + simpl in L. apply Nat.eqb_neq in N. lia.
    + exists (q_mean (x :: l)), (q_max x l), (q_min x l).
      split; [reflexivity|]. split; [reflexivity|].
      split; [reflexivity|].
      split; [apply StatFacts.q_max_In|].
      split; [apply StatFacts.q_min_In|].
      intros y Hy. split;
        [apply StatFacts.q_min_le | apply StatFacts.q_max_ge]; exact Hy.
  - intros lower_at set_list w k rs mean mx mn -> .
    pose proof (@fetched_similarities_bounds lower_at set_list w rs k) as B.
    destruct (negb (count_success
                      (fetched_records lower_at set_list w k rs) =? 0));
      [|discriminate].
    destruct (success_similarities
                (fetched_records lower_at set_list w k rs)) as [|x l] eqn:E;
      [discriminate|].
    intros H1 H2 H3. injection H1 as <-. injection H2 as <-.
    injection H3 as <-.
    destruct (@StatFacts.q_mean_bounds 0 100 (x :: l)) as [M1 M2];
      [discriminate | exact B |].
    repeat split; try assumption.
    + apply B, StatFacts.q_min_In.
    + apply B, StatFacts.q_max_In.
Qed.

Lemma statistics_consistent_witness :
  exists mean mx mn,
    s_mean (report_statistics results_mixed) = Some mean /\
    s_max (report_statistics results_mixed) = Some mx /\
    s_min (report_statistics results_mixed) = Some mn /\
    In mx (success_similarities results_mixed) /\
    In mn (success_similarities results_mixed) /\
    (forall x, In x (success_similarities results_mixed) ->
               (mn <= x)%Q /\ (x <= mx)%Q).
Proof.
  apply (proj1 (proj2 (statistics_consistent results_mixed))).
  discriminate.
Defined.

(** ** Improvement tips *)

Lemma join_nonempty sep x l : x <> [] -> Str.join sep (x :: l) <> [].
Proof.
  intros H. destruct l; simpl; [exact H|].
  destruct x; [contradiction | discriminate].
Qed.

(** [generate_improvement_tips] always gives between one and four tips, so
    never an empty text.  The "satisfactory" tip is given only alone, and
    exactly when the similarity is at least 70, at most 10 lines are
    missing, at most 5 are extra and no extra example mentions
    advertising. *)
Theorem improvement_tips_cases (lower_at : lowering) (f : success_fields) :
  let tips := improvement_tips lower_at f in
  let ads := existsb (fun ex => Str.contains REKLAM (lower lower_at ex))
                     (example_items (f_example_extra f)) in
  1 <= length tips <= 4 /\
  generate_improvement_tips lower_at f <> [] /\
  (In TIP_FINE tips -> tips = [TIP_FINE]) /\
  (tips = [TIP_FINE] <->
   (70 <= f_similarity f)%Q /\ f_missing_lines_count f <= 10 /\
   f_extra_lines_count f <= 5 /\ ads = false).
Proof.
  cbv zeta. unfold generate_improvement_tips, improvement_tips.
  destruct (Qgtb 50 (f_similarity f)) eqn:E50;
    [apply Qgtb_lt in E50 | apply Qgtb_le in E50];
    (destruct (Qgtb 70 (f_similarity f)) eqn:E70;
     [apply Qgtb_lt in E70 | apply Qgtb_le in E70]);
    (destruct (10 <? f_missing_lines_count f) eqn:Em;
     [apply Nat.ltb_lt in Em | apply Nat.ltb_ge in Em]);
    (destruct (5 <? f_extra_lines_count f) eqn:Ee;
     [apply Nat.ltb_lt in Ee | apply Nat.ltb_ge in Ee]);
    destruct (existsb _ (example_items (f_example_extra f)));
    cbn [app length];
    (split; [lia|]);
    (split; [apply join_nonempty; discriminate|]);
    (split;
     [intros H; cbn [In] in H;
      repeat (destruct H as [H | H]; [try discriminate H|]);
      try contradiction; try reflexivity
     |]);
    (split;
     [intros H; try discriminate H; repeat split; try assumption; try lia
     |intros [H1 [H2 [H3 H4]]]; try reflexivity; try discriminate H4;
      try lia;
      exfalso;
      try (apply (Qlt_not_le _ _ E70); exact H1);
      try (apply (Qlt_not_le _ _ E50);
           eapply Qle_trans; [|exact H1]; discriminate)]).
Qed.

Example improvement_tips_advertising :
  improvement_tips ascii_lower fields_ad = [TIP_ADS].
Proof. reflexivity. Qed.

(** ** Choosing the file to plot *)

Module SelectFacts.

Lemma endswith_spec suffix s :
  endswith suffix s = true <-> exists p, s = p ++ suffix.
Proof.
  unfold endswith. rewrite ContainsFacts.startswith_spec. split.
  - intros [r H]. exists (rev r). apply (f_equal (@rev N)) in H.
    rewrite rev_involutive, rev_app_distr, rev_involutive in H. exact H.
  - intros [p ->]. exists (rev p). apply rev_app_distr.
Qed.

Lemma max_by_key_cons {A} (key : A -> Q) x y (l : list A) :
  max_by_key key x (y :: l)
  = max_by_key key (if Qgtb (key y) (key x) then y else x) l.
Proof. reflexivity. Qed.

Lemma max_by_key_start {A} (key : A -> Q) (l : list A) :
  forall x, (key x <= key (max_by_key key x l))%Q.
Proof.
  induction l as [|y l IH]; intros x; [apply Qle_refl|].
  rewrite max_by_key_cons. destruct (Qgtb (key y) (key x)) eqn:E.
  - apply Qgtb_lt in E. eapply Qle_trans; [apply Qlt_le_weak, E | apply IH].
  - apply IH.
Qed.

Lemma max_by_key_ge {A} (key : A -> Q) (l : list A) :
  forall x y, In y (x :: l) -> (key y <= key (max_by_key key x l))%Q.
Proof.
  induction l as [|z l IH]; intros x y [<- | H].
  - apply Qle_refl.
  - destruct H.
  - apply max_by_key_start.
  - rewrite max_by_key_cons. destruct H as [<- | H].
    + destruct (Qgtb (key z) (key x)) eqn:E.
      * apply max_by_key_start.
      * apply Qgtb_le in E.
        eapply Qle_trans; [exact E | apply max_by_key_start].
    + apply IH. right. exact H.
Qed.

Lemma max_by_key_In {A} (key : A -> Q) (l : list A) :
  forall x, In (max_by_key key x l) (x :: l).
Proof.
  induction l as [|z l IH]; intros x; [left; reflexivity|].
  rewrite max_by_key_cons. destruct (Qgtb (key z) (key x)).
  - right. apply IH.
  - destruct (IH x) as [H | H]; [left; exact H | right; right; exact H].
Qed.

End SelectFacts.

(** The file that [visualize_results] plots is a name of the results
    folder of the form "results_....json" whose modification time is not
    exceeded by any other such name; none is chosen exactly when the
    folder holds no such name.  Other files of the folder (the CSV table,
    the workbook, the HTML report) are never chosen. *)
Theorem select_results_latest (listing : list str) (getmtime : str -> Q) :
  (select_results (Some listing) getmtime = NoResultFiles <->
   json_files listing = []) /\
  (forall f,
      select_results (Some listing) getmtime = Latest f ->
      In f listing /\
      (exists m, f = RESULTS_PREFIX ++ m) /\
      (exists p, f = p ++ JSON_SUFFIX) /\
      (forall g, In g listing ->
                 (exists m, g = RESULTS_PREFIX ++ m) ->
                 (exists p, g = p ++ JSON_SUFFIX) ->
                 (getmtime g <= getmtime f)%Q)).
Proof.
  unfold select_results. split.
  - destruct (json_files listing); split; intros H;
      try reflexivity; discriminate H.
  - intros f H. destruct (json_files listing) as [|x l] eqn:E;
      [discriminate H|].
    injection H as <-.
    assert (C : forall g, In g (x :: l) <->
                          In g listing /\
                          Str.startswith RESULTS_PREFIX g = true /\
                          endswith JSON_SUFFIX g = true).
    { intros g. rewrite <- E. unfold json_files.
      rewrite filter_In, andb_true_iff. tauto. }
    destruct (proj1 (C _) (SelectFacts.max_by_key_In getmtime l x))
      as [H1 [H2 H3]].
    split; [exact H1|].
    split; [apply ContainsFacts.startswith_spec; exact H2|].
    split; [apply SelectFacts.endswith_spec; exact H3|].
    intros g G1 G2 G3. apply SelectFacts.max_by_key_ge. apply C.
    split; [exact G1|].
    split; [apply ContainsFacts.startswith_spec; exact G2
           |apply SelectFacts.endswith_spec; exact G3].
Qed.

Lemma select_results_latest_witness :
  In f_json_1 [f_csv_2; f_json_2; f_json_1] /\
  (mtime_example f_json_2 <= mtime_example f_json_1)%Q.
Proof.
  destruct (proj2 (select_results_latest [f_csv_2; f_json_2; f_json_1]
                                         mtime_example)
                  f_json_1 eq_refl) as [H1 [_ [_ H4]]].
  split; [exact H1|].
  apply H4.
  - right. left. reflexivity.
  - exists ([50]%N ++ JSON_SUFFIX). reflexivity.
  - exists (RESULTS_PREFIX ++ [50]%N). reflexivity.
Defined.

(** ** The analysis of a comparison *)

Module TextFacts.
Import Str.

Lemma split_aux_app_sep sep a b :
  forall cur,
    split_aux sep cur (a ++ sep :: b)
    = split_aux sep cur a ++ split_aux sep [] b.
Proof.
  induction a as [|c a IH]; intros cur.
  - cbn [app split_aux]. rewrite N.eqb_refl. reflexivity.
  - cbn [app split_aux]. destruct (c =? sep)%N.
    + rewrite IH. reflexivity.
    + apply IH.
Qed.

(** Splitting a joined text gives back the lines of its parts. *)
Lemma split_join_concat sep (l : list str) :
  l <> [] ->
  split sep (join [sep] l) = concat (map (split sep) l).
Proof.
  induction l as [|p rest IH]; [contradiction|]. intros _.
  destruct rest as [|q rest].
  - cbn [join map concat]. rewrite app_nil_r. reflexivity.
  - rewrite ContainsFacts.join_cons by discriminate.
    cbn [app]. unfold split at 1. rewrite split_aux_app_sep.
    change (map (split sep) (p :: q :: rest))
      with (split sep p :: map (split sep) (q :: rest)).
    cbn [concat]. f_equal. apply IH. discriminate.
Qed.

Lemma split_aux_plain sep s :
  ~ In sep s -> forall cur, split_aux sep cur s = [rev cur ++ s].
Proof.
  induction s as [|c r IH]; intros H cur.
  - cbn [split_aux]. rewrite app_nil_r. reflexivity.
  - cbn [split_aux]. destruct (c =? sep)%N eqn:E.
    + apply N.eqb_eq in E. exfalso. apply H. left. exact E.
    + rewrite IH by (intros K; apply H; right; exact K).
      cbn [rev]. rewrite <- app_assoc. reflexivity.
Qed.

(** A text without the separator is one line. *)
Lemma split_plain sep s : ~ In sep s -> split sep s = [s].
Proof. intros H. apply (@split_aux_plain sep s H []). Qed.

Lemma split_leading sep s : split sep (sep :: s) = [] :: split sep s.
Proof. unfold split. cbn [split_aux]. rewrite N.eqb_refl. reflexivity. Qed.

Lemma plain_b (s : str) :
  forallb (fun c => negb (c =? NEWLINE)%N) s = true -> ~ In NEWLINE s.
Proof.
  intros H K. rewrite forallb_forall in H. specialize (H _ K).
  rewrite N.eqb_refl in H. discriminate H.
Qed.

Lemma uint_digits_plain d : ~ In NEWLINE (uint_digits d).
Proof.
  induction d; cbn [uint_digits]; intros K;
    try (destruct K as [K | K]; [discriminate K | exact (IHd K)]).
  exact K.
Qed.

Lemma decimal_plain n : ~ In NEWLINE (decimal n).
Proof. apply uint_digits_plain. Qed.

End TextFacts.

Section AnalysisFacts.

Variable lower_at : lowering.
Variable set_list : list str -> list str.

Hypothesis set_list_In : forall xs x, In x (set_list xs) <-> In x xs.

Lemma examples_nonempty (xs : list str) :
  xs <> [] -> firstn 3 (set_list xs) <> [].
Proof.
  intros H. destruct xs as [|x xs]; [contradiction|].
  destruct (set_list (x :: xs)) as [|y l] eqn:E; [|discriminate].
  exfalso.
  assert (K : In x (set_list (x :: xs)))
    by (apply set_list_In; left; reflexivity).
  rewrite E in K. exact K.
Qed.

Lemma example_lines_length (examples : list str) :
  length (example_lines examples) = Nat.min 3 (length examples).
Proof.
  unfold example_lines. rewrite length_map. apply length_firstn.
Qed.

(** A content line holds no newline. *)
Lemma content_line_plain text line :
  In line (content_lines text) -> ~ In Str.NEWLINE line.
Proof.
  intros H K. unfold content_lines in H. apply in_map_iff in H.
  destruct H as [raw [E H]]. apply filter_In in H. destruct H as [H _].
  apply (ContainsFacts.split_no_sep Str.NEWLINE text raw H).
  destruct (ShapeFacts.strip_middle raw) as [pre [suf F]].
  rewrite F, E. apply in_or_app. right. apply in_or_app. left. exact K.
Qed.

Lemma absent_plain text other ex :
  In ex (firstn 3 (set_list
                     (absent_lines lower_at (content_lines text) other))) ->
  ~ In Str.NEWLINE ex.
Proof.
  intros H. apply firstn_In in H. apply (proj1 (set_list_In _ _)) in H.
  unfold absent_lines in H. apply filter_In in H.
  exact (@content_line_plain text ex (proj1 H)).
Qed.

(** The lines that the entries of some examples give to the text. *)
Lemma example_lines_text (examples : list str) :
  (forall ex, In ex examples -> ~ In Str.NEWLINE ex) ->
  concat (map (fun e => Str.split Str.NEWLINE (render e))
              (example_lines examples))
  = map render (example_lines examples).
Proof.
  intros H. unfold example_lines.
  assert (K : forall ex, In ex (firstn 3 examples) -> ~ In Str.NEWLINE ex)
    by (intros ex Hex; apply H; exact (firstn_In _ _ _ Hex)).
  clear H. induction (firstn 3 examples) as [|ex l IH]; [reflexivity|].
  cbn [map concat]. rewrite IH by (intros y Hy; apply K; right; exact Hy).
  rewrite TextFacts.split_plain; [reflexivity|].
  cbn [render]. intros J.
  apply in_app_or in J. destruct J as [J | J];
    [revert J; apply TextFacts.plain_b; reflexivity|].
  apply in_app_or in J. destruct J as [J | J].
  - apply (K ex (or_introl eq_refl)).
    rewrite <- (firstn_skipn 150 ex). apply in_or_app. left. exact J.
  - revert J. apply TextFacts.plain_b.
    destruct (150 <? length ex); reflexivity.
Qed.

Lemma verdict_line (s : Q) :
  Str.split Str.NEWLINE (render (similarity_verdict s))
  = [render (similarity_verdict s)].
Proof.
  apply TextFacts.split_plain, TextFacts.plain_b.
  unfold similarity_verdict.
  destruct (Qgtb s 80); [reflexivity|]. destruct (Qgtb s 50); reflexivity.
Qed.

Lemma count_lines (prefix : str) (n : nat) :
  forallb (fun c => negb (c =? Str.NEWLINE)%N) prefix = true ->
  Str.split Str.NEWLINE (Str.NEWLINE :: prefix ++ decimal n)
  = [[]; prefix ++ decimal n].
Proof.
  intros H. rewrite TextFacts.split_leading, TextFacts.split_plain;
    [reflexivity|].
  intros K. apply in_app_or in K. destruct K as [K | K].
  - exact (TextFacts.plain_b _ H K).
  - exact (TextFacts.decimal_plain _ K).
Qed.

(** The lines of the text that [generate_ai_analysis] returns for a
    comparison made by [compare_texts]. *)
Lemma analysis_lines (original_text lib_text : str) :
  let c := compare_texts lower_at set_list original_text lib_text in
  Str.split Str.NEWLINE (generate_ai_analysis c)
  = [render (similarity_verdict (similarity c))]
    ++ (if 0 <? missing_lines_count c
        then [[]; MISSING_COUNT_TEXT ++ decimal (missing_lines_count c);
              MISSING_HEADING_TEXT]
               ++ map render (example_lines (example_missing c))
        else [])
    ++ (if 0 <? extra_lines_count c
        then [[]; EXTRA_COUNT_TEXT ++ decimal (extra_lines_count c);
              EXTRA_HEADING_TEXT]
               ++ map render (example_lines (example_extra c))
        else [])
    ++ [[]; CONCLUSION_HEADING_TEXT]
    ++ [render (if extra_lines_count c <? missing_lines_count c
                then MostlyMissing
                else if missing_lines_count c <? extra_lines_count c
                     then MostlyExtra else BothKinds)].
Proof.
  cbv zeta.
  set (c := compare_texts lower_at set_list original_text lib_text).
  assert (Pm : forall ex, In ex (example_missing c) -> ~ In Str.NEWLINE ex)
    by (intros ex; apply absent_plain).
  assert (Pe : forall ex, In ex (example_extra c) -> ~ In Str.NEWLINE ex)
    by (intros ex; apply absent_plain).
  unfold generate_ai_analysis.
  rewrite TextFacts.split_join_concat by (unfold analysis; discriminate).
  rewrite map_map. unfold analysis.
  rewrite !map_app, !concat_app.
  f_equal; [cbn [map concat]; rewrite app_nil_r; apply verdict_line|].
  f_equal.
  { destruct (0 <? missing_lines_count c); [|reflexivity].
    rewrite map_app, concat_app, (@example_lines_text _ Pm).
    f_equal. cbn [map concat render]. rewrite count_lines by reflexivity.
    reflexivity. }
  f_equal.
  { destruct (0 <? extra_lines_count c); [|reflexivity].
    rewrite map_app, concat_app, (@example_lines_text _ Pe).
    f_equal. cbn [map concat render]. rewrite count_lines by reflexivity.
    reflexivity. }
  f_equal.
  cbn [map concat]. rewrite app_nil_r.
  apply TextFacts.split_plain, TextFacts.plain_b.
  destruct (extra_lines_count c <? missing_lines_count c); [reflexivity|].
  destruct (missing_lines_count c <? extra_lines_count c); reflexivity.
Qed.

(** The text written for a comparison has between 4 and 16 lines and
    opens with the verdict sentence.  When it announces missing lines it
    shows, after an empty line, the count and the heading, between one
    and three examples of them, each "- " and the first 150 characters of
    a line that is missing, followed by "..." exactly when the line is
    longer. *)
Theorem analysis_examples (original_text lib_text : str) :
  let c := compare_texts lower_at set_list original_text lib_text in
  let lines := Str.split Str.NEWLINE (generate_ai_analysis c) in
  let shown := example_lines (example_missing c) in
  4 <= length lines <= 16 /\
  hd_error lines = Some (render (similarity_verdict (similarity c))) /\
  hd_error (analysis c) = Some (similarity_verdict (similarity c)) /\
  (0 < missing_lines_count c ->
   1 <= length shown <= 3 /\
   (exists before after,
       analysis c =
       before ++ [MissingCount (missing_lines_count c); MissingHeading]
              ++ shown ++ after) /\
   exists after,
     lines =
     [render (similarity_verdict (similarity c)); [];
      MISSING_COUNT_TEXT ++ decimal (missing_lines_count c);
      MISSING_HEADING_TEXT]
     ++ map render shown ++ after) /\
  (forall l, In l shown ->
             exists line,
               In line (missing lower_at original_text lib_text) /\
               l = ExampleLine (firstn 150 line) (150 <? length line) /\
               render l = DASH ++ firstn 150 line
                               ++ (if 150 <? length line
                                   then ELLIPSIS else [])).
Proof.
  cbv zeta. rewrite analysis_lines.
  set (c := compare_texts lower_at set_list original_text lib_text).
  assert (Lm : length (example_lines (example_missing c)) <= 3)
    by (rewrite example_lines_length; lia).
  assert (Le : length (example_lines (example_extra c)) <= 3)
    by (rewrite example_lines_length; lia).
  split; [|split; [reflexivity|split; [reflexivity|split]]].
  - destruct (0 <? missing_lines_count c);
      destruct (0 <? extra_lines_count c);
      rewrite !length_app; cbn [length]; rewrite ?length_app;
      cbn [length]; rewrite ?length_map; lia.
  - intros H. split; [|split].
    + split; [|exact Lm]. rewrite example_lines_length.
      assert (N : example_missing c <> []).
      { unfold c, compare_texts. cbn [example_missing].
        apply examples_nonempty. unfold c, compare_texts in H.
        cbn [missing_lines_count] in H.
        destruct (missing lower_at original_text lib_text);
          [simpl in H; lia | discriminate]. }
      destruct (example_missing c); [contradiction | simpl; lia].
    + unfold analysis. apply Nat.ltb_lt in H. rewrite H.
      exists [similarity_verdict (similarity c)]. eexists.
      rewrite <- !app_assoc. reflexivity.
    + apply Nat.ltb_lt in H. rewrite H. eexists.
      cbn [app]. reflexivity.
  - intros l H. unfold example_lines in H. apply in_map_iff in H.
    destruct H as [line [E H]]. exists line. split; [|split].
    + unfold c, compare_texts in H. cbn [example_missing] in H.
      apply firstn_In in H. apply firstn_In in H.
      apply (proj1 (set_list_In _ _)) in H. exact H.
    + symmetry; exact E.
    + rewrite <- E. reflexivity.
Qed.

End AnalysisFacts.

Lemma analysis_examples_witness :
  let c := compare_texts ascii_lower first_occurrences
                         s_original s_candidate in
  1 <= length (example_lines (example_missing c)) <= 3.
Proof.
  apply (proj1 (proj2 (proj2 (proj2
           (@analysis_examples ascii_lower first_occurrences
              first_occurrences_In s_original s_candidate))))).
  cbv. lia.
Defined.

(** ** What is handed to reporting *)

Lemma fetched_records_invariant (lower_at : lowering)
      (set_list : list str -> list str) (w : world) (rs : list row)
      (k : nat) (r : record) :
  In r (fetched_records lower_at set_list w k rs) ->
  match r with
  | Failure _ error => Str.startswith OSHIBKA error = true
  | Success _ c =>
      0 < lib_length c /\
      (0 <= similarity c)%Q /\ (similarity c <= 100)%Q /\
      length (example_missing c) <= 3 /\ length (example_extra c) <= 3
  | SuccessJoined _ _ _ _ _ _ _ _ => False
  end.
Proof.
  revert k. induction rs as [|x rs IH]; intros k; cbn [fetched_records];
    [intros []|].
  destruct (skipped x) eqn:S; [apply IH|].
  intros [<- | H]; [|exact (IH _ H)].
  unfold fetched_record.
  destruct (page w k (row_url x)) as [e|page_text]; [reflexivity|].
  cbv zeta.
  destruct (Str.startswith OSHIBKA (Str.strip (Str.sub_nl page_text)))
    eqn:E; [exact E|].
  split; [|split; [|split; [|split]]].
  - unfold compare_texts. cbn [lib_length]. unfold skipped in S.
    destruct (row_lib_text x); [discriminate S | simpl; lia].
  - apply similarity_bounds.
  - apply similarity_bounds.
  - unfold compare_texts. cbn [example_missing]. apply firstn_le_length.
  - unfold compare_texts. cbn [example_extra]. apply firstn_le_length.
Qed.

(** In every run, every record of a list that [main] hands to the report
    writers is either a failure whose message begins with "Ошибка", or a
    first-loop success whose candidate length is positive, whose
    similarity lies between 0 and 100 and which carries at most three
    examples of each kind. *)
Theorem reported_records_invariant (lower_at : lowering)
        (set_list : list str -> list str) (w : world)
        (reported : list record) (r : record) :
  In (Report reported) (trace (snd (run_main lower_at set_list w))) ->
  In r reported ->
  match r with
  | Failure _ error => Str.startswith OSHIBKA error = true
  | Success _ c =>
      0 < lib_length c /\
      (0 <= similarity c)%Q /\ (similarity c <= 100)%Q /\
      length (example_missing c) <= 3 /\ length (example_extra c) <= 3
  | SuccessJoined _ _ _ _ _ _ _ _ => False
  end.
Proof.
  intros H.
  assert (F : In (Report reported)
                 (filter is_report
                    (trace (snd (run_main lower_at set_list w)))))
    by (apply filter_In; split; [exact H | reflexivity]).
  clear H. revert F.
  destruct (read_csv w) as [e|df] eqn:Hread.
  - destruct (main_not_loaded lower_at set_list w) as [tr [E [_ N]]];
      [left; exists e; exact Hread|].
    rewrite E. cbn [snd trace]. rewrite N. intros [].
  - destruct (columns_present lower_at df) eqn:Hcols.
    + destruct (forallb has_keys (rows df)) eqn:Hkeys.
      * destruct (@main_loaded lower_at set_list w df Hread Hcols Hkeys)
          as [st' [E [N _]]].
        rewrite E. cbn [snd]. rewrite N. intros [K | []].
        injection K as <-. apply fetched_records_invariant.
      * destruct (@label_abort_run lower_at set_list w df Hread Hcols Hkeys)
          as [e [st' [E [N _]]]].
        rewrite E. cbn [snd]. rewrite N. intros [].
    + destruct (main_not_loaded lower_at set_list w) as [tr [E [_ N]]];
        [right; exists df; split; assumption|].
      rewrite E. cbn [snd trace]. rewrite N. intros [].
Qed.

Lemma reported_records_invariant_witness :
  Str.startswith OSHIBKA (OSHIBKA_COLON ++ s_404) = true.
Proof.
  apply (@reported_records_invariant ascii_lower first_occurrences
           (world_404 [row_ut])
           [Failure s_u (OSHIBKA_COLON ++ s_404)]
           (Failure s_u (OSHIBKA_COLON ++ s_404))).
  - vm_compute. right. right. right. right. right. left. reflexivity.
  - left. reflexivity.
Defined.
